(** * Internet Mood Radar: the in-memory core, embedded in Rocq

    This development embeds the pure core of the repository
    (deduplication, emotion scoring, tension index, TF-IDF clustering and
    the day-over-day delta engine) and proves the properties its
    specification states about it.  The definitions follow the TypeScript
    sources function by function and keep their names; the comment of a
    definition quotes the expression it stands for where that helps.

    Conventions of the embedding.

    - A JavaScript [number] is a real number ([R]).  Arithmetic is exact:
      rounding error, overflow and [NaN] are outside the model, except where
      a division by zero is written out (see [cosineSimilarity]).
      [Math.log], [Math.log10] and [Math.sqrt] are the functions of the
      standard library of reals; they agree with JavaScript wherever
      JavaScript returns a finite number.  [Math.exp] is the exponential
      with its underflow to 0 written out (see [JsMath.exp]): an item of
      about 269 days has the recency weight 0.  Counters and array lengths
      are natural numbers, configuration counts are integers.
    - The tension index is rounded to an integer, and the integer can
      depend on the last bit of a sum.  It is given twice: over [R], for its
      range and its monotonicity, and over binary64 numbers ([Binary64]),
      bit for bit, for its formula.
    - A string is a sequence of 8-bit code units, read as the characters
      U+0000 to U+00FF.  Case mapping and the character classes [\p{L}],
      [\p{N}] and [\s] are written out for that range.
    - [Date.now()] is an explicit argument [now] (milliseconds), read as one
      value during a call; a [Date] is its [getTime()] value.
    - The platform's URL parser, its regular-expression engine (for the
      entity patterns) and SHA-256 are parameters of the sections that use
      them.
    - An object used as a dictionary is the list of its properties in
      insertion order.  A read of a key that names a property of
      [Object.prototype] and is no own property finds the inherited
      function; [engagementFactor] writes this out, and the statements on
      the term dictionaries of the clustering that depend on it leave such
      terms ([constructor] is the one a text can hold) out.  A [Map] is the
      list of its entries in insertion order.
    - The module variable [cachedKeywords] of the relevance scorer is an
      explicit argument; [setRelevanceKeywords] gives its new value.
    - [console.log] calls are write-only and are left out.

    The last part, on further properties of the code, covers the functions
    of the same modules that the specification does not describe. *)

From Stdlib Require Import Reals Lra Lia List String Ascii ZArith Bool Permutation Sorted.
From Stdlib Require Floats.
From stdpp Require Import base decidable option list sets gmap strings.
Import ListNotations.

#[local] Open Scope string_scope.
#[local] Open Scope list_scope.

(** ** Decidable comparisons on numbers *)

#[global] Instance R_eq_dec : EqDecision R := Req_dec_T.
#[global] Instance Rlt_decision (x y : R) : Decision (x < y)%R := Rlt_dec x y.
#[global] Instance Rle_decision (x y : R) : Decision (x <= y)%R := Rle_dec x y.
#[global] Instance Rgt_decision (x y : R) : Decision (x > y)%R := Rgt_dec x y.
#[global] Instance Rge_decision (x y : R) : Decision (x >= y)%R := Rge_dec x y.

(** ** Strings *)

Module JsString.

Definition code (c : ascii) : N := N_of_ascii c.

Definition between (lo hi : N) (c : ascii) : bool :=
  (lo <=? code c)%N && (code c <=? hi)%N.

(** [\s] on U+0000..U+00FF: TAB, LF, VT, FF, CR, SPACE and NBSP. *)
Definition isSpace (c : ascii) : bool :=
  between 9 13 c || (code c =? 32)%N || (code c =? 160)%N.

(** [\p{L}] on U+0000..U+00FF. *)
Definition isLetter (c : ascii) : bool :=
  between 65 90 c || between 97 122 c
  || (code c =? 170)%N || (code c =? 181)%N || (code c =? 186)%N
  || between 192 214 c || between 216 246 c || between 248 255 c.

(** [\p{N}] on U+0000..U+00FF: the digits, the superscripts and the
    vulgar fractions. *)
Definition isNumber (c : ascii) : bool :=
  between 48 57 c || (code c =? 178)%N || (code c =? 179)%N
  || (code c =? 185)%N || between 188 190 c.

Definition isDigit (c : ascii) : bool := between 48 57 c.

Definition lowerChar (c : ascii) : ascii :=
  if between 65 90 c || between 192 214 c || between 216 222 c
  then ascii_of_N (code c + 32) else c.

(** Upper case of a character; the three characters of the range whose upper
    case lies outside it (U+00B5, U+00DF, U+00FF) are left as they are. *)
Definition upperChar (c : ascii) : ascii :=
  if between 97 122 c || between 224 246 c || between 248 254 c
  then ascii_of_N (code c - 32) else c.

Fixpoint mapChars (f : ascii -> ascii) (s : string) : string :=
  match s with
  | EmptyString => EmptyString
  | String c s' => String (f c) (mapChars f s')
  end.

Fixpoint filterChars (f : ascii -> bool) (s : string) : string :=
  match s with
  | EmptyString => EmptyString
  | String c s' => if f c then String c (filterChars f s') else filterChars f s'
  end.

Definition toLowerCase (s : string) : string := mapChars lowerChar s.

Fixpoint startsWith (s p : string) : bool :=
  match p, s with
  | EmptyString, _ => true
  | String _ _, EmptyString => false
  | String a p', String b s' => if Ascii.eqb a b then startsWith s' p' else false
  end.

(** [s.includes(sub)] *)
Fixpoint includes (s sub : string) : bool :=
  startsWith s sub ||
  match s with
  | EmptyString => false
  | String _ s' => includes s' sub
  end.

(** [s.slice(0, n)] for [0 <= n] *)
Fixpoint take (n : nat) (s : string) : string :=
  match n, s with
  | O, _ => EmptyString
  | S _, EmptyString => EmptyString
  | S n', String c s' => String c (take n' s')
  end.

(** [s.slice(n)] for [0 <= n] *)
Fixpoint drop (n : nat) (s : string) : string :=
  match n, s with
  | O, _ => s
  | S _, EmptyString => EmptyString
  | S n', String _ s' => drop n' s'
  end.

Definition isEmpty (s : string) : bool :=
  match s with EmptyString => true | _ => false end.

(** [s.split(/\s+/)]: the pieces between maximal runs of white space.  A
    leading or trailing run yields an empty first or last piece, and the
    empty string yields one empty piece. *)
Fixpoint splitSpacesFrom (cur : string) (inRun : bool) (s : string) : list string :=
  match s with
  | EmptyString => [cur]
  | String c s' =>
      if isSpace c
      then if inRun then splitSpacesFrom cur true s'
           else cur :: splitSpacesFrom EmptyString true s'
      else splitSpacesFrom (cur +:+ String c EmptyString) false s'
  end.

Definition splitSpaces (s : string) : list string :=
  splitSpacesFrom EmptyString false s.

(** [parts.join(sep)] *)
Fixpoint join (sep : string) (parts : list string) : string :=
  match parts with
  | [] => EmptyString
  | [p] => p
  | p :: rest => p +:+ sep +:+ join sep rest
  end.

(** [s.replace(/^prefix/, '')] for a literal prefix *)
Definition stripPrefix (p s : string) : string :=
  if startsWith s p then drop (String.length p) s else s.

(** [s.replace(/\/$/, '')] *)
Fixpoint stripTrailingSlash (s : string) : string :=
  match s with
  | EmptyString => EmptyString
  | String c EmptyString => if Ascii.eqb c "/" then EmptyString else s
  | String c s' => String c (stripTrailingSlash s')
  end.

(** [[^\p{L}\p{N}\s]]: what the tokenisers delete or blank out *)
Definition isPunctuation (c : ascii) : bool :=
  negb (isLetter c || isNumber c || isSpace c).

End JsString.

(** ** Arrays *)

Module JsArray.

Section Sorting.
Context {A : Type}.
(** The comparator handed to [Array.prototype.sort]; a negative or zero value
    keeps the first argument in front. *)
Variable compareFn : A -> A -> R.

Fixpoint insertSorted (x : A) (l : list A) : list A :=
  match l with
  | [] => [x]
  | y :: l' =>
      if decide (compareFn x y <= 0)%R then x :: y :: l' else y :: insertSorted x l'
  end.

(** [[...l].sort(compareFn)]: the sort is stable, so for a comparator that
    orders by a numeric key the result is the stable arrangement that
    inserting the elements from the right produces. *)
Fixpoint sort (l : list A) : list A :=
  match l with
  | [] => []
  | x :: l' => insertSorted x (sort l')
  end.

End Sorting.

Fixpoint insertString (x : string) (l : list string) : list string :=
  match l with
  | [] => [x]
  | y :: l' => if String.leb x y then x :: y :: l' else y :: insertString x l'
  end.

(** [l.sort()] on strings: ascending order of code units. *)
Fixpoint sortStrings (l : list string) : list string :=
  match l with
  | [] => []
  | x :: l' => insertString x (sortStrings l')
  end.

(** [l.slice(0, end)]: a negative [end] counts from the end of the array. *)
Definition slice0 {A : Type} (l : list A) (end_ : Z) : list A :=
  let len := Z.of_nat (length l) in
  let k := if (end_ <? 0)%Z then Z.max (len + end_) 0 else Z.min end_ len in
  firstn (Z.to_nat k) l.

(** [l.includes(x)] on strings *)
Definition includes (l : list string) (x : string) : bool :=
  existsb (String.eqb x) l.

End JsArray.

(** ** Objects used as dictionaries from strings to numbers *)

Module JsObject.

(** The properties in insertion order. *)
Definition t : Type := list (string * R).

Definition empty : t := [].

Fixpoint get (o : t) (k : string) : option R :=
  match o with
  | [] => None
  | (k', v) :: o' => if String.eqb k k' then Some v else get o' k
  end.

(** The property names of [Object.prototype].  A read [o[k]] of one of them
    that is not an own property of [o] finds the inherited function or
    object; a read of any other key finds an own property or nothing. *)
Definition prototypeKeys : list string :=
  ["constructor"; "hasOwnProperty"; "isPrototypeOf"; "propertyIsEnumerable";
   "toLocaleString"; "toString"; "valueOf"; "__proto__"; "__defineGetter__";
   "__defineSetter__"; "__lookupGetter__"; "__lookupSetter__"].

Definition inherited (k : string) : bool := existsb (String.eqb k) prototypeKeys.

(** [o[k] || 0], for a key that is not a property name of
    [Object.prototype]. *)
Definition getOr0 (o : t) (k : string) : R :=
  match get o k with Some v => v | None => 0%R end.

(** [o[k] = v]: an existing property keeps its place. *)
Fixpoint set (o : t) (k : string) (v : R) : t :=
  match o with
  | [] => [(k, v)]
  | (k', v') :: o' =>
      if String.eqb k k' then (k, v) :: o' else (k', v') :: set o' k v
  end.

Fixpoint allDigits (s : string) : bool :=
  match s with
  | EmptyString => true
  | String c s' => JsString.isDigit c && allDigits s'
  end.

Fixpoint decimalFrom (acc : N) (s : string) : N :=
  match s with
  | EmptyString => acc
  | String c s' => decimalFrom (acc * 10 + (JsString.code c - 48)) s'
  end.

(** A key is an array index when it is the canonical decimal form of an
    integer between 0 and 2^32 - 2. *)
Definition arrayIndex (k : string) : option N :=
  match k with
  | EmptyString => None
  | String c rest =>
      if allDigits k && (negb (Ascii.eqb c "0") || JsString.isEmpty rest)
         && (String.length k <=? 10)%nat
      then let n := decimalFrom 0 k in
           if (n <=? 4294967294)%N then Some n else None
      else None
  end.

Fixpoint insertIndexed (x : N * (string * R)) (l : list (N * (string * R)))
  : list (N * (string * R)) :=
  match l with
  | [] => [x]
  | y :: l' => if (fst x <=? fst y)%N then x :: y :: l' else y :: insertIndexed x l'
  end.

Definition indexedEntries (o : t) : list (N * (string * R)) :=
  List.fold_right insertIndexed []
    (omap (fun e => match arrayIndex (fst e) with
                    | Some n => Some (n, e)
                    | None => None
                    end) o).

Definition namedEntries (o : t) : list (string * R) :=
  List.filter (fun e => match arrayIndex (fst e) with Some _ => false | None => true end) o.

(** [Object.entries(o)]: array-index keys first, in ascending numeric order,
    then the other keys in insertion order. *)
Definition entries (o : t) : list (string * R) :=
  List.map snd (indexedEntries o) ++ namedEntries o.

(** [Object.keys(o)], also the order of [for (k in o)] *)
Definition keys (o : t) : list string := List.map fst (entries o).

(** [Object.values(o)] *)
Definition values (o : t) : list R := List.map snd (entries o).

End JsObject.

(** ** The data model (types) *)

Record Location := {
  loc_name : string;
  loc_lat : R;
  loc_lng : R;
  loc_country : option string;
  loc_region : option string
}.

Record NormalizedItem := {
  item_id : string;
  item_source : string;
  item_lens : string;
  item_language : string;
  item_title : string;
  item_text : option string;          (* [string | null] *)
  item_createdAt : R;                 (* [createdAt.getTime()] *)
  item_url : string;
  item_engagement : R;
  item_context : string;
  item_relevanceScore : option R;     (* [relevanceScore?: number] *)
  item_duplicateOf : option string;   (* [duplicateOf?: string | null] *)
  item_location : option Location;
  item_faviconUrl : option string;
  item_imageUrl : option string;
  item_eventType : option string;
  item_eventDate : option R;
  item_venue : option string;
  item_moodScore : option R
}.

(** [item.text || ''] *)
Definition textOrEmpty (item : NormalizedItem) : string :=
  match item_text item with Some s => s | None => "" end.

(** The truth value of [item.duplicateOf]: [undefined], [null] and the empty
    string are falsy. *)
Definition isMarkedDuplicate (item : NormalizedItem) : bool :=
  match item_duplicateOf item with
  | Some s => negb (JsString.isEmpty s)
  | None => false
  end.

(** [item.relevanceScore ?? 0.5] *)
Definition relevanceOrDefault (item : NormalizedItem) : R :=
  match item_relevanceScore item with Some r => r | None => 0.5%R end.

Inductive Emotion :=
  anger | anxiety | sadness | resilience | hope | excitement | cynicism | neutral.

#[global] Instance Emotion_eq_dec : EqDecision Emotion.
Proof. solve_decision. Defined.

(** [Record<Emotion, number>] *)
Record EmotionDistribution := {
  d_anger : R;
  d_anxiety : R;
  d_sadness : R;
  d_resilience : R;
  d_hope : R;
  d_excitement : R;
  d_cynicism : R;
  d_neutral : R
}.

Record Receipt := {
  receipt_id : string;
  receipt_title : string;
  receipt_snippet : string;
  receipt_url : string;
  receipt_source : string;
  receipt_language : string;
  receipt_engagement : R;
  receipt_createdAt : R;
  receipt_location : option Location;
  receipt_faviconUrl : option string;
  receipt_imageUrl : option string;
  receipt_eventType : option string;
  receipt_eventDate : option R;
  receipt_venue : option string;
  receipt_moodScore : option R
}.

Record Topic := {
  topic_id : string;
  topic_title : string;
  topic_keywords : list string;
  topic_whyTrending : string;
  topic_emotionMix : EmotionDistribution;
  topic_weight : R;
  topic_delta : R;
  topic_receipts : list Receipt
}.

Record SnapshotTopic := {
  st_keywords : list string;
  st_receiptIds : list string
}.

Record DailySnapshot := {
  snap_date : string;
  snap_tensionIndex : R;
  snap_emotions : EmotionDistribution;
  snap_topTopics : list SnapshotTopic;
  snap_llmOutputs : list (string * string)
}.

(** ** Configuration (lib/config) *)

Record NegativeWeights := {
  w_anger : R; w_anxiety : R; w_sadness : R; w_cynicism : R
}.

Record PositiveWeights := {
  w_resilience : R; w_hope : R; w_excitement : R
}.

Record EmotionWeights := {
  negative : NegativeWeights;
  positive : PositiveWeights;
  positiveReductionFactor : R
}.

Definition EMOTION_WEIGHTS : EmotionWeights := {|
  negative := {| w_anger := 1.0; w_anxiety := 1.0; w_sadness := 0.7; w_cynicism := 0.4 |};
  positive := {| w_resilience := 0.5; w_hope := 0.7; w_excitement := 0.3 |};
  positiveReductionFactor := 0.5
|}.

Record ClusteringConfig := {
  similarityThreshold : R;
  maxTopics : Z;
  minClusterSize : Z;
  keywordsPerTopic : Z;
  receiptsPerTopic : Z
}.

Definition CLUSTERING_CONFIG : ClusteringConfig := {|
  similarityThreshold := 0.25;
  maxTopics := 12;
  minClusterSize := 2;
  keywordsPerTopic := 5;
  receiptsPerTopic := 5
|}.

Definition EMOTION_KEYWORDS (e : Emotion) : list string :=
  match e with
  | anger =>
      ["angry"; "furious"; "outrage"; "rage"; "hate"; "disgusting"; "unacceptable";
       "infuriating"; "livid"; "enraged"; "hostile"; "bitter"; "protest"; "riot";
       "condemn"; "denounce"; "fury"; "wrath"; "outraged"]
  | anxiety =>
      ["worried"; "anxious"; "fear"; "scared"; "threat"; "danger"; "warning"; "alert";
       "crisis"; "emergency"; "concern"; "uncertain"; "risk"; "tension"; "volatile";
       "unstable"; "alarming"; "concerning"; "troubling"; "nervous"]
  | sadness =>
      ["sad"; "tragic"; "death"; "killed"; "victim"; "mourn"; "grief"; "loss"; "devastated";
       "heartbreaking"; "mourning"; "sorrow"; "painful"; "funeral"; "tragedy";
       "disaster"; "casualties"; "suffering"]
  | resilience =>
      ["strong"; "resilient"; "united"; "together"; "fight"; "defend"; "brave"; "hero";
       "courage"; "solidarity"; "endure"; "persevere"; "overcome"; "survive";
       "determined"; "steadfast"; "unwavering"]
  | hope =>
      ["hope"; "peace"; "progress"; "improve"; "better"; "optimistic"; "breakthrough";
       "promising"; "recovery"; "rebuild"; "healing"; "resolution"; "agreement";
       "deal"; "success"; "positive"; "growth"]
  | excitement =>
      ["exciting"; "amazing"; "great"; "success"; "win"; "celebrate"; "achievement";
       "victory"; "triumph"; "historic"; "milestone"; "breakthrough"; "incredible";
       "remarkable"; "stunning"; "impressive"]
  | cynicism =>
      ["lol"; "lmao"; "yeah right"; "sure"; "typical"; "surprise"; "expected"; "joke";
       "as usual"; "nothing new"; "of course"; "predictable"; "unsurprising";
       "ironic"; "sarcastic"]
  | neutral => []
  end.

(** ** URL normalisation (lib/utils/url) *)

(** The fields of a parsed [URL] that the code reads. *)
Record URL := {
  url_protocol : string;
  url_hostname : string;
  url_pathname : string;
  url_search : string;
  url_hash : string
}.

Record NormalizeOptions := {
  removeQuery : bool;
  removeHash : bool;
  removeProtocol : bool;
  removeWww : bool;
  removeTrailingSlash : bool
}.

Definition defaultNormalizeOptions : NormalizeOptions := {|
  removeQuery := true; removeHash := true; removeProtocol := true;
  removeWww := true; removeTrailingSlash := true
|}.

Section Url.
(** [new URL(url)]; [None] when the constructor throws. *)
Variable parseURL : string -> option URL.

Definition normalizeUrlWith (url : string) (options : NormalizeOptions) : string :=
  match parseURL url with
  | Some parsed =>
      let normalized := "" in
      let normalized :=
        if removeProtocol options then normalized
        else normalized +:+ url_protocol parsed +:+ "//" in
      let hostname := url_hostname parsed in
      let hostname :=
        if removeWww options then JsString.stripPrefix "www." hostname else hostname in
      let normalized := normalized +:+ hostname in
      let pathname := url_pathname parsed in
      let pathname :=
        if removeTrailingSlash options then JsString.stripTrailingSlash pathname
        else pathname in
      let normalized := normalized +:+ pathname in
      let normalized :=
        if negb (removeQuery options) && negb (JsString.isEmpty (url_search parsed))
        then normalized +:+ url_search parsed else normalized in
      let normalized :=
        if negb (removeHash options) && negb (JsString.isEmpty (url_hash parsed))
        then normalized +:+ url_hash parsed else normalized in
      JsString.toLowerCase normalized
  | None =>
      let normalized := JsString.toLowerCase url in
      let normalized :=
        if removeProtocol options
        then if JsString.startsWith normalized "https://"
             then JsString.drop 8 normalized
             else JsString.stripPrefix "http://" normalized
        else normalized in
      let normalized :=
        if removeWww options then JsString.stripPrefix "www." normalized else normalized in
      let normalized :=
        if removeTrailingSlash options then JsString.stripTrailingSlash normalized
        else normalized in
      normalized
  end.

(** [normalizeUrl(url)] with the default options, as every caller uses it *)
Definition normalizeUrl (url : string) : string :=
  normalizeUrlWith url defaultNormalizeOptions.

Definition extractDomain (url : string) : string :=
  match parseURL url with
  | Some parsed => JsString.stripPrefix "www." (url_hostname parsed)
  | None => ""
  end.

End Url.

(** The behaviour of [new URL] on the URLs the examples use: absolute [http]
    and [https] URLs with a plain lower-case host name and path.  Anything
    else is rejected here; the theorems hold for every parser. *)
Module SimpleUrl.

Fixpoint upTo (stop : ascii -> bool) (s : string) : string * string :=
  match s with
  | EmptyString => (EmptyString, EmptyString)
  | String c s' =>
      if stop c then (EmptyString, s)
      else let '(a, b) := upTo stop s' in (String c a, b)
  end.

Definition isAuthorityEnd (c : ascii) : bool :=
  Ascii.eqb c "/" || Ascii.eqb c "?" || Ascii.eqb c "#".

Definition isPathEnd (c : ascii) : bool := Ascii.eqb c "?" || Ascii.eqb c "#".

Definition isQueryEnd (c : ascii) : bool := Ascii.eqb c "#".

Definition isPlainHostChar (c : ascii) : bool :=
  JsString.between 97 122 c || JsString.isDigit c || Ascii.eqb c "." || Ascii.eqb c "-".

Fixpoint allChars (f : ascii -> bool) (s : string) : bool :=
  match s with
  | EmptyString => true
  | String c s' => f c && allChars f s'
  end.

Definition parseAfterScheme (protocol rest : string) : option URL :=
  let '(host, rest1) := upTo isAuthorityEnd rest in
  let '(path, rest2) := upTo isPathEnd rest1 in
  let '(query, fragment) := upTo isQueryEnd rest2 in
  if JsString.isEmpty host || negb (allChars isPlainHostChar host) then None
  else Some {| url_protocol := protocol;
               url_hostname := host;
               url_pathname := if JsString.isEmpty path then "/" else path;
               url_search := if String.eqb query "?" then "" else query;
               url_hash := if String.eqb fragment "#" then "" else fragment |}.

Definition parse (url : string) : option URL :=
  if JsString.startsWith url "https://" then parseAfterScheme "https:" (JsString.drop 8 url)
  else if JsString.startsWith url "http://" then parseAfterScheme "http:" (JsString.drop 7 url)
  else None.

End SimpleUrl.

(** ** Numeric library functions *)

Module JsMath.

(** [Math.exp].  The smallest positive double is 2^-1074, and the
    exponential of an argument below ln(2^-1075), about -745.13, is rounded
    to 0.  This underflow is written out; above it the value is exact. *)
Definition expUnderflow : R := (- 745.1332191019411)%R.

Definition exp (x : R) : R :=
  if decide (x < expUnderflow)%R then 0%R else Rtrigo_def.exp x.
Definition log (x : R) : R := ln x.
Definition log10 (x : R) : R := (ln x / ln 10)%R.
Definition sqrt (x : R) : R := R_sqrt.sqrt x.
Definition max (x y : R) : R := Rmax x y.
Definition min (x y : R) : R := Rmin x y.

(** [Math.round]: the nearest integer, halves going up. *)
Definition round (x : R) : R := IZR (Int_part (x + / 2)).

(** A division whose divisor may be zero: [None] stands for the non-finite
    value ([NaN] or an infinity) that JavaScript yields then. *)
Definition checkedDiv (x y : R) : option R :=
  if decide (y = 0%R) then None else Some (x / y)%R.

End JsMath.

(** ** Utilities (lib/utils) *)

Definition recencyWeight (now createdAt halfLifeHours : R) : R :=
  let ageMs := (now - createdAt)%R in
  let ageHours := (ageMs / (1000 * 60 * 60))%R in
  JsMath.exp (- 0.693 * ageHours / halfLifeHours)%R.

Definition capEngagement (engagement cap : R) : R := JsMath.min engagement cap.

(** The default arguments [halfLifeHours = 6] and [cap = 1000] *)
Definition defaultHalfLifeHours : R := 6.
Definition defaultEngagementCap : R := 1000.

(** The loop of [cosineSimilarity]: dot product and the two squared norms. *)
Definition cosineSums (a b : list R) : R * R * R :=
  List.fold_left
    (fun (acc : R * R * R) (p : R * R) =>
       let '(dotProduct, normA, normB) := acc in
       let '(ai, bi) := p in
       (dotProduct + ai * bi, normA + ai * ai, normB + bi * bi)%R)
    (combine a b) (0, 0, 0)%R.

Definition cosineSimilarity (a b : list R) : option R :=
  if negb (length a =? length b)%nat then Some 0%R
  else
    let '(dotProduct, normA, normB) := cosineSums a b in
    if decide (normA = 0%R \/ normB = 0%R) then Some 0%R
    else JsMath.checkedDiv dotProduct (JsMath.sqrt normA * JsMath.sqrt normB)%R.

(** ** The mood engine (lib/mood) *)

Definition EMOTIONS : list Emotion :=
  [anger; anxiety; sadness; resilience; hope; excitement; cynicism; neutral].

(** [dist[emotion]] *)
Definition getE (dist : EmotionDistribution) (e : Emotion) : R :=
  match e with
  | anger => d_anger dist
  | anxiety => d_anxiety dist
  | sadness => d_sadness dist
  | resilience => d_resilience dist
  | hope => d_hope dist
  | excitement => d_excitement dist
  | cynicism => d_cynicism dist
  | neutral => d_neutral dist
  end.

(** [dist[emotion] = v] *)
Definition setE (dist : EmotionDistribution) (e : Emotion) (v : R) : EmotionDistribution :=
  let '(Build_EmotionDistribution a x s r h ex c n) := dist in
  match e with
  | anger => Build_EmotionDistribution v x s r h ex c n
  | anxiety => Build_EmotionDistribution a v s r h ex c n
  | sadness => Build_EmotionDistribution a x v r h ex c n
  | resilience => Build_EmotionDistribution a x s v h ex c n
  | hope => Build_EmotionDistribution a x s r v ex c n
  | excitement => Build_EmotionDistribution a x s r h v c n
  | cynicism => Build_EmotionDistribution a x s r h ex v n
  | neutral => Build_EmotionDistribution a x s r h ex c v
  end.

Definition createEmptyDistribution : EmotionDistribution :=
  List.fold_left (fun dist emotion => setE dist emotion 0%R) EMOTIONS
    (Build_EmotionDistribution 0 0 0 0 0 0 0 0).

(** [Object.values(dist)], in the order the properties were created *)
Definition distValues (dist : EmotionDistribution) : list R :=
  List.map (getE dist) EMOTIONS.

(** [Object.values(dist).reduce((a, b) => a + b, 0)] *)
Definition distSum (dist : EmotionDistribution) : R :=
  List.fold_left Rplus (distValues dist) 0%R.

Definition normalizeDistribution (dist : EmotionDistribution) : EmotionDistribution :=
  let sum := distSum dist in
  if decide (sum = 0%R) then setE createEmptyDistribution neutral 1%R
  else
    List.fold_left (fun normalized emotion => setE normalized emotion (getE dist emotion / sum)%R)
      EMOTIONS createEmptyDistribution.

(** The inner loop of [scoreItemEmotions]: how many of the keywords occur
    in the text. *)
Definition keywordMatches (text : string) (keywords : list string) : nat :=
  List.fold_left
    (fun matches keyword =>
       if JsString.includes text (JsString.toLowerCase keyword) then S matches else matches)
    keywords 0%nat.

(** The text that is searched: title, one space, body, in lower case. *)
Definition emotionText (item : NormalizedItem) : string :=
  JsString.toLowerCase (item_title item +:+ " " +:+ textOrEmpty item).

(** The outer loop of [scoreItemEmotions]: the raw distribution and
    [totalMatches]. *)
Definition countEmotionKeywords (item : NormalizedItem) : EmotionDistribution * nat :=
  let text := emotionText item in
  List.fold_left
    (fun (acc : EmotionDistribution * nat) emotion =>
       let '(dist, totalMatches) := acc in
       if decide (emotion = neutral) then acc
       else
         let matches := keywordMatches text (EMOTION_KEYWORDS emotion) in
         (setE dist emotion (INR matches), (totalMatches + matches)%nat))
    EMOTIONS (createEmptyDistribution, 0%nat).

Definition scoreItemEmotions (item : NormalizedItem) : EmotionDistribution :=
  let '(dist, totalMatches) := countEmotionKeywords item in
  if (totalMatches =? 0)%nat then normalizeDistribution (setE dist neutral 1%R)
  else normalizeDistribution dist.

(** One turn of the loop of [aggregateEmotions] over [(weighted, totalWeight)]. *)
Definition aggregateStep (now : R) (acc : EmotionDistribution * R) (item : NormalizedItem)
  : EmotionDistribution * R :=
  let '(weighted, totalWeight) := acc in
  if isMarkedDuplicate item then acc
  else
    let itemEmotions := scoreItemEmotions item in
    let recency := recencyWeight now (item_createdAt item) defaultHalfLifeHours in
    let engagement := capEngagement (item_engagement item) defaultEngagementCap in
    let relevance := relevanceOrDefault item in
    let weight := (recency * JsMath.log10 (engagement + 2) * relevance)%R in
    (List.fold_left
       (fun w emotion => setE w emotion (getE w emotion + getE itemEmotions emotion * weight)%R)
       EMOTIONS weighted,
     (totalWeight + weight)%R).

Definition aggregateLoop (now : R) (items : list NormalizedItem) : EmotionDistribution * R :=
  List.fold_left (aggregateStep now) items (createEmptyDistribution, 0%R).

Definition aggregateEmotions (now : R) (items : list NormalizedItem) : EmotionDistribution :=
  if (length items =? 0)%nat then normalizeDistribution createEmptyDistribution
  else
    let '(weighted, totalWeight) := aggregateLoop now items in
    if decide (totalWeight = 0%R) then normalizeDistribution createEmptyDistribution
    else
      normalizeDistribution
        (List.fold_left
           (fun w emotion => setE w emotion (getE w emotion / totalWeight)%R)
           EMOTIONS weighted).

Definition tensionWith (weights : EmotionWeights) (emotions : EmotionDistribution) : R :=
  let negativeScore :=
    (d_anger emotions * w_anger (negative weights)
     + d_anxiety emotions * w_anxiety (negative weights)
     + d_sadness emotions * w_sadness (negative weights)
     + d_cynicism emotions * w_cynicism (negative weights))%R in
  let positiveScore :=
    (d_resilience emotions * w_resilience (positive weights)
     + d_hope emotions * w_hope (positive weights)
     + d_excitement emotions * w_excitement (positive weights))%R in
  let tension :=
    JsMath.max 0 (negativeScore - positiveScore * positiveReductionFactor weights)%R in
  JsMath.min 100 (JsMath.round (tension * 100)%R).

Definition calculateTensionIndex (emotions : EmotionDistribution) : R :=
  tensionWith EMOTION_WEIGHTS emotions.

(** ** The tension index in binary64 (lib/mood) *)

(** The tension index rounds to an integer, and which integer can depend on
    the last bit of the weighted sums.  This module gives the function over
    IEEE 754 binary64 numbers, the numbers of JavaScript, operation for
    operation; a decimal literal stands for the nearest double, as it does
    in the source. *)
Module Binary64.

Import PrimFloat SpecFloat FloatOps.
#[local] Set Warnings "-inexact-float".

(** [Math.max] of two numbers: [NaN] if one of them is, and [+0] above
    [-0]. *)
Definition max (x y : float) : float :=
  if is_nan x || is_nan y then nan
  else if (x <? y)%float then y
       else if (y <? x)%float then x
            else if get_sign x then y else x.

(** [Math.min] of two numbers: [NaN] if one of them is, and [-0] below
    [+0]. *)
Definition min (x y : float) : float :=
  if is_nan x || is_nan y then nan
  else if (x <? y)%float then x
       else if (y <? x)%float then y
            else if get_sign x then x else y.

(** The integer [floor(x + 1/2)] for the number [(-1)^s * m * 2^e], in
    exact arithmetic. *)
Definition roundZ (s : bool) (m : BinNums.positive) (e : Z) : Z :=
  let numerator := if s then Z.neg m else Z.pos m in
  ((2 * numerator + 2 ^ (- e)) / 2 ^ (- e + 1))%Z.

(** The double for an integer of magnitude up to 2^53. *)
Definition ofZ (z : Z) : float := SF2Prim (binary_normalize prec emax z 0 false).

(** [Math.round]: [NaN], the infinities, the zeros and the integers are
    returned as they are; any other number goes to the nearest integer,
    halves going up, with [-0] for a number from [-0.5] up to [-0]. *)
Definition round (x : float) : float :=
  match Prim2SF x with
  | S754_finite s m e =>
      if (0 <=? e)%Z then x
      else
        let n := roundZ s m e in
        if (n =? 0)%Z then (if s then neg_zero else zero) else ofZ n
  | _ => x
  end.

Record EmotionDistribution := {
  d_anger : float;
  d_anxiety : float;
  d_sadness : float;
  d_resilience : float;
  d_hope : float;
  d_excitement : float;
  d_cynicism : float;
  d_neutral : float
}.

Record NegativeWeights := {
  w_anger : float; w_anxiety : float; w_sadness : float; w_cynicism : float
}.

Record PositiveWeights := {
  w_resilience : float; w_hope : float; w_excitement : float
}.

Record EmotionWeights := {
  negative : NegativeWeights;
  positive : PositiveWeights;
  positiveReductionFactor : float
}.

Definition EMOTION_WEIGHTS : EmotionWeights := {|
  negative := {| w_anger := 1.0; w_anxiety := 1.0; w_sadness := 0.7; w_cynicism := 0.4 |};
  positive := {| w_resilience := 0.5; w_hope := 0.7; w_excitement := 0.3 |};
  positiveReductionFactor := 0.5
|}.

Definition calculateTensionIndex (emotions : EmotionDistribution) : float :=
  let negativeScore :=
    (d_anger emotions * w_anger (negative EMOTION_WEIGHTS)
     + d_anxiety emotions * w_anxiety (negative EMOTION_WEIGHTS)
     + d_sadness emotions * w_sadness (negative EMOTION_WEIGHTS)
     + d_cynicism emotions * w_cynicism (negative EMOTION_WEIGHTS))%float in
  let positiveScore :=
    (d_resilience emotions * w_resilience (positive EMOTION_WEIGHTS)
     + d_hope emotions * w_hope (positive EMOTION_WEIGHTS)
     + d_excitement emotions * w_excitement (positive EMOTION_WEIGHTS))%float in
  let tension :=
    max 0 (negativeScore - positiveScore * positiveReductionFactor EMOTION_WEIGHTS)%float in
  min 100 (round (tension * 100)%float).

(** The distributions of the examples: every share 0 but the ones named. *)
Definition allNeutral : EmotionDistribution := Build_EmotionDistribution 0 0 0 0 0 0 0 1.
Definition onlyAnger : EmotionDistribution := Build_EmotionDistribution 1 0 0 0 0 0 0 0.

(** The scores of an item with three sadness keywords and one cynicism
    keyword, and of an item with one hope keyword among four. *)
Definition sadAndCynical : EmotionDistribution :=
  Build_EmotionDistribution 0 0 0.75 0 0 0 0.25 0.
Definition angryAndHopeful : EmotionDistribution :=
  Build_EmotionDistribution 0.75 0 0 0 0.25 0 0 0.

End Binary64.

(** ** Similarity and deduplication (lib/relevance) *)

(** The five [ENTITY_PATTERNS]. *)
Inductive EntityPattern :=
  | pat_numbers            (* numbers, with an optional fraction and percent sign *)
  | pat_capitalizedWords   (* a capital followed by two or more small letters *)
  | pat_quotedPhrases      (* a non-empty run between double quotes *)
  | pat_titles             (* president, pm, minister, ceo or cfo, then a word *)
  | pat_honorifics.        (* mr., mrs., dr. or prof., then a word *)

Definition defaultDedupThreshold : R := 0.5.

(** The stop words of [extractPhrases]. *)
Definition PHRASE_STOP_WORDS : list string :=
  ["the"; "and"; "for"; "are"; "but"; "not"; "you"; "all"; "can"; "has"; "have"; "was";
   "were"; "been"; "being"; "will"; "would"; "could"; "should"; "that"; "this"; "with";
   "from"; "they"; "which"; "their"; "there"; "what"; "about"; "into"; "more"; "other";
   "than"; "then"; "these"; "some"].

(** [text.toLowerCase().replace(/[^\p{L}\p{N}\s]/gu, ' ').split(/\s+/)] *)
Definition blankedWords (text : string) : list string :=
  JsString.splitSpaces
    (JsString.mapChars (fun c => if JsString.isPunctuation c then " "%char else c)
       (JsString.toLowerCase text)).

(** The loop of [extractPhrases] over the windows of three words. *)
Fixpoint phrasesFrom (words : list string) : list string :=
  match words with
  | w0 :: ((w1 :: w2 :: _) as rest) =>
      (if JsArray.includes PHRASE_STOP_WORDS w0 || JsArray.includes PHRASE_STOP_WORDS w2
       then []
       else
         let phrase := w0 +:+ " " +:+ w1 +:+ " " +:+ w2 in
         if (10 <? String.length phrase)%nat then [phrase] else [])
      ++ phrasesFrom rest
  | _ => []
  end.

Definition extractPhrases (text : string) : list string :=
  let words := List.filter (fun w => (2 <? String.length w)%nat) (blankedWords text) in
  phrasesFrom words.

Definition tokenize (text : string) : gset string :=
  let words :=
    List.filter (fun w => (2 <? String.length w)%nat)
      (JsString.splitSpaces
         (JsString.filterChars (fun c => negb (JsString.isPunctuation c))
            (JsString.toLowerCase text))) in
  list_to_set words.

Definition jaccardSimilarity (a b : gset string) : R :=
  if (size a =? 0)%nat && (size b =? 0)%nat then 0%R
  else (INR (size (a ∩ b)) / INR (size (a ∪ b)))%R.

(** [titleALower.length > 20 && titleBLower.includes(titleALower.slice(0, 30))],
    in either direction *)
Definition hasSubstringMatch (a b : NormalizedItem) : bool :=
  let titleALower := JsString.toLowerCase (item_title a) in
  let titleBLower := JsString.toLowerCase (item_title b) in
  ((20 <? String.length titleALower)%nat
   && JsString.includes titleBLower (JsString.take 30 titleALower))
  || ((20 <? String.length titleBLower)%nat
      && JsString.includes titleALower (JsString.take 30 titleBLower)).

Section Relevance.
Variable parseURL : string -> option URL.
(** [text.match(pattern) || []] for the entity patterns *)
Variable matchAll : EntityPattern -> string -> list string.

Definition extractKeyEntities (text : string) : gset string :=
  let entities : gset string := ∅ in
  let entities :=
    List.fold_left (fun es n => es ∪ {[ n ]}) (matchAll pat_numbers text) entities in
  let entities :=
    List.fold_left (fun es w => es ∪ {[ JsString.toLowerCase w ]})
      (matchAll pat_capitalizedWords text) entities in
  let entities :=
    List.fold_left (fun es q => es ∪ {[ JsString.toLowerCase q ]})
      (matchAll pat_quotedPhrases text) entities in
  let entities :=
    List.fold_left (fun es m => es ∪ {[ JsString.toLowerCase m ]})
      (matchAll pat_titles text) entities in
  let entities :=
    List.fold_left (fun es m => es ∪ {[ JsString.toLowerCase m ]})
      (matchAll pat_honorifics text) entities in
  entities.

Definition isSameStory (a b : NormalizedItem) : bool :=
  let textA := item_title a +:+ " " +:+ textOrEmpty a in
  let textB := item_title b +:+ " " +:+ textOrEmpty b in
  let entitiesA := extractKeyEntities textA in
  let entitiesB := extractKeyEntities textB in
  if (size entitiesA <? 2)%nat || (size entitiesB <? 2)%nat then false
  else
    let intersection := entitiesA ∩ entitiesB in
    let minSize := Nat.min (size entitiesA) (size entitiesB) in
    let overlapRatio := (INR (size intersection) / INR minSize)%R in
    if bool_decide (overlapRatio >= 0.6)%R && (3 <=? size intersection)%nat then true
    else
      let phrasesA := extractPhrases textA in
      let phrasesB := extractPhrases textB in
      let sharedPhrases := List.filter (fun p => JsArray.includes phrasesB p) phrasesA in
      if (2 <=? length sharedPhrases)%nat then true else false.

(** [a.url && b.url] and the two normalised URLs are equal *)
Definition sameNormalizedUrl (a b : NormalizedItem) : bool :=
  negb (JsString.isEmpty (item_url a)) && negb (JsString.isEmpty (item_url b))
  && String.eqb (normalizeUrl parseURL (item_url a)) (normalizeUrl parseURL (item_url b)).

(** [domainA && domainB && domainA === domainB] *)
Definition sameDomain (a b : NormalizedItem) : bool :=
  let domainA := extractDomain parseURL (item_url a) in
  let domainB := extractDomain parseURL (item_url b) in
  negb (JsString.isEmpty domainA) && negb (JsString.isEmpty domainB)
  && String.eqb domainA domainB.

Definition calculateSimilarity (a b : NormalizedItem) : R :=
  if sameNormalizedUrl a b then 1%R
  else
    let titleA := tokenize (item_title a) in
    let titleB := tokenize (item_title b) in
    let titleSimilarity := jaccardSimilarity titleA titleB in
    if hasSubstringMatch a b then JsMath.max titleSimilarity 0.85
    else if bool_decide (titleSimilarity > 0.5)%R && sameDomain a b
    then JsMath.max titleSimilarity 0.8
    else if bool_decide (titleSimilarity > 0.3)%R && isSameStory a b
    then JsMath.max titleSimilarity 0.75
    else if bool_decide (titleSimilarity > 0.4)%R
    then
      let textA := tokenize (textOrEmpty a) in
      let textB := tokenize (textOrEmpty b) in
      let textSimilarity := jaccardSimilarity textA textB in
      if bool_decide (textSimilarity > 0.5)%R
      then JsMath.max (titleSimilarity * 0.4 + textSimilarity * 0.6)%R 0.7
      else (titleSimilarity * 0.7 + textSimilarity * 0.3)%R
    else titleSimilarity.

(** [item.url ? normalizeUrl(item.url) : ''] *)
Definition dedupUrlKey (item : NormalizedItem) : string :=
  if JsString.isEmpty (item_url item) then "" else normalizeUrl parseURL (item_url item).

(** One turn of the loop of [deduplicateItems] over [(unique, seenUrls)]. *)
Definition dedupStep (similarityThreshold : R)
           (acc : list NormalizedItem * gset string) (item : NormalizedItem)
  : list NormalizedItem * gset string :=
  let '(unique, seenUrls) := acc in
  let normalizedUrl := dedupUrlKey item in
  if negb (JsString.isEmpty normalizedUrl) && bool_decide (normalizedUrl ∈ seenUrls)
  then acc
  else
    let isDuplicate :=
      existsb
        (fun existing =>
           bool_decide (calculateSimilarity item existing >= similarityThreshold)%R)
        unique in
    if negb isDuplicate
    then (unique ++ [item],
          if negb (JsString.isEmpty normalizedUrl) then seenUrls ∪ {[ normalizedUrl ]}
          else seenUrls)
    else acc.

(** [(a, b) => b.engagement - a.engagement] *)
Definition byEngagementDesc (a b : NormalizedItem) : R :=
  (item_engagement b - item_engagement a)%R.

Definition deduplicateItems (items : list NormalizedItem) (similarityThreshold : R)
  : list NormalizedItem :=
  let sorted := JsArray.sort byEngagementDesc items in
  fst (List.fold_left (dedupStep similarityThreshold) sorted ([], ∅)).

End Relevance.

(** ** TF-IDF clustering (lib/clustering) *)

Definition ENGLISH_STOP_WORDS : list string :=
  ["the"; "a"; "an"; "and"; "or"; "but"; "in"; "on"; "at"; "to"; "for"; "of";
   "with"; "by"; "from"; "as"; "is"; "was"; "are"; "were"; "been"; "be";
   "have"; "has"; "had"; "do"; "does"; "did"; "will"; "would"; "could";
   "should"; "may"; "might"; "must"; "can"; "this"; "that"; "these"; "those";
   "it"; "its"; "he"; "she"; "they"; "we"; "you"; "who"; "what"; "where";
   "when"; "why"; "how"; "all"; "each"; "every"; "both"; "few"; "more";
   "most"; "other"; "some"; "such"; "no"; "not"; "only"; "same"; "so";
   "than"; "too"; "very"; "just"; "also"; "now"; "new"; "said"; "says";
   "according"; "report"; "reports"; "reported"; "after"; "before"].

(** [isStopWord].  The Hebrew entries of [STOP_WORDS] and the branch for terms
    with a character in U+0590..U+05FF lie outside the modelled range of
    characters, where no term can match them. *)
Definition isStopWord (term : string) : bool :=
  JsArray.includes ENGLISH_STOP_WORDS (JsString.toLowerCase term).

Record DocumentVector := {
  dv_item : NormalizedItem;
  dv_vector : list R;
  dv_terms : list string
}.

Definition extractTerms (text : string) : list string :=
  List.filter (fun term => (1 <? String.length term)%nat && negb (isStopWord term))
    (blankedWords text).

Definition calculateTF (text : string) : JsObject.t :=
  let terms := extractTerms text in
  let tf :=
    List.fold_left (fun tf term => JsObject.set tf term (JsObject.getOr0 tf term + 1)%R)
      terms JsObject.empty in
  (* Math.max(...Object.values(tf), 1) *)
  let maxFreq := List.fold_right JsMath.max 1%R (JsObject.values tf) in
  List.fold_left (fun tf term => JsObject.set tf term (JsObject.getOr0 tf term / maxFreq)%R)
    (JsObject.keys tf) tf.

Definition calculateIDF (documents : list JsObject.t) : JsObject.t :=
  let docCount := INR (length documents) in
  let termDocCount :=
    List.fold_left
      (fun counts doc =>
         List.fold_left
           (fun counts term => JsObject.set counts term (JsObject.getOr0 counts term + 1)%R)
           (JsObject.keys doc) counts)
      documents JsObject.empty in
  List.fold_left
    (fun idf term =>
       JsObject.set idf term
         (JsMath.log (docCount / (JsObject.getOr0 termDocCount term + 1)) + 1)%R)
    (JsObject.keys termDocCount) JsObject.empty.

Definition createTFIDFVectors (items : list NormalizedItem) : list DocumentVector :=
  let documents :=
    List.map (fun item => calculateTF (item_title item +:+ " " +:+ textOrEmpty item)) items in
  let idf := calculateIDF documents in
  let allTerms := JsArray.sortStrings (JsObject.keys idf) in
  List.map
    (fun p : NormalizedItem * JsObject.t =>
       let '(item, tf) := p in
       {| dv_item := item;
          dv_vector :=
            List.map (fun term => (JsObject.getOr0 tf term * JsObject.getOr0 idf term)%R)
              allTerms;
          dv_terms := allTerms |})
    (combine items documents).

(** [(a, b) => b[1] - a[1]] *)
Definition byScoreDesc (a b : string * R) : R := (snd b - snd a)%R.

Definition getTopKeywords (vectors : list DocumentVector) (n : Z) : list string :=
  let termScores :=
    List.fold_left
      (fun scores doc =>
         List.fold_left
           (fun scores (p : string * R) =>
              let '(term, score) := p in
              JsObject.set scores term (JsObject.getOr0 scores term + score)%R)
           (combine (dv_terms doc) (dv_vector doc)) scores)
      vectors JsObject.empty in
  List.map fst (JsArray.slice0 (JsArray.sort byScoreDesc (JsObject.entries termScores)) n).

(** [cosineSimilarity(u, v) >= similarityThreshold]; a comparison with a
    non-finite value is false. *)
Definition similarEnough (similarityThreshold : R) (u v : DocumentVector) : bool :=
  match cosineSimilarity (dv_vector u) (dv_vector v) with
  | Some similarity => bool_decide (similarity >= similarityThreshold)%R
  | None => false
  end.

(** One turn of the inner loop of [clusterBySimilarity], at index [j], over
    [(cluster, assigned)]. *)
Definition clusterInnerStep (vectors : list DocumentVector) (similarityThreshold : R)
           (seed : DocumentVector)
           (acc : list DocumentVector * gset nat) (j : nat)
  : list DocumentVector * gset nat :=
  let '(cluster, assigned) := acc in
  if bool_decide (j ∈ assigned) then acc
  else
    match vectors !! j with
    | Some vj =>
        if similarEnough similarityThreshold seed vj
        then (cluster ++ [vj], assigned ∪ {[ j ]})
        else acc
    | None => acc
    end.

(** One turn of the outer loop, at index [i], over [(clusters, assigned)]. *)
Definition clusterOuterStep (vectors : list DocumentVector) (similarityThreshold : R)
           (acc : list (list DocumentVector) * gset nat) (i : nat)
  : list (list DocumentVector) * gset nat :=
  let '(clusters, assigned) := acc in
  if bool_decide (i ∈ assigned) then acc
  else
    match vectors !! i with
    | Some vi =>
        let '(cluster, assigned') :=
          List.fold_left (clusterInnerStep vectors similarityThreshold vi)
            (seq (i + 1) (length vectors - (i + 1)))
            ([vi], assigned ∪ {[ i ]}) in
        (clusters ++ [cluster], assigned')
    | None => acc
    end.

Definition clusterBySimilarity (vectors : list DocumentVector) (similarityThreshold : R)
  : list (list DocumentVector) :=
  fst (List.fold_left (clusterOuterStep vectors similarityThreshold)
         (seq 0 (length vectors)) ([], ∅)).

Definition calculateClusterWeight (now : R) (items : list NormalizedItem) : R :=
  List.fold_left
    (fun weight item =>
       let recency := recencyWeight now (item_createdAt item) defaultHalfLifeHours in
       let engagement :=
         JsMath.log10 (capEngagement (item_engagement item) defaultEngagementCap + 2) in
       let relevance := relevanceOrDefault item in
       (weight + recency * engagement * relevance)%R)
    items 0%R.

Definition itemToReceipt (item : NormalizedItem) : Receipt := {|
  receipt_id := item_id item;
  receipt_title := item_title item;
  receipt_snippet := textOrEmpty item;
  receipt_url := item_url item;
  receipt_source := item_source item;
  receipt_language := item_language item;
  receipt_engagement := item_engagement item;
  receipt_createdAt := item_createdAt item;
  receipt_location := item_location item;
  receipt_faviconUrl := item_faviconUrl item;
  receipt_imageUrl := item_imageUrl item;
  receipt_eventType := item_eventType item;
  receipt_eventDate := item_eventDate item;
  receipt_venue := item_venue item;
  receipt_moodScore := item_moodScore item
|}.

Definition itemsToReceipts (items : list NormalizedItem) (max : Z) : list Receipt :=
  let sorted := JsArray.slice0 (JsArray.sort byEngagementDesc items) max in
  List.map itemToReceipt sorted.

(** [k.charAt(0).toUpperCase() + k.slice(1)] *)
Definition capitalize (k : string) : string :=
  match k with
  | EmptyString => EmptyString
  | String c rest => String (JsString.upperChar c) rest
  end.

Definition generateKeywordTitle (keywords : list string) : string :=
  JsString.join " / " (List.map capitalize (JsArray.slice0 keywords 3)).

(** The intermediate record that [clusterIntoTopics] builds per cluster. *)
Record Cluster := {
  cluster_items : list NormalizedItem;
  cluster_vectors : list DocumentVector;
  cluster_weight : R;
  cluster_keywords : list string;
  cluster_emotions : EmotionDistribution
}.

(** [(a, b) => b.weight - a.weight] *)
Definition byWeightDesc (a b : Cluster) : R := (cluster_weight b - cluster_weight a)%R.

Section Clustering.
(** The hexadecimal SHA-256 digest of a string *)
Variable sha256Hex : string -> string.
(** The clock, read as one value during a call *)
Variable now : R.

Definition generateId (content : string) : string :=
  JsString.take 16 (sha256Hex content).

Definition describeCluster (cluster : list DocumentVector) : Cluster :=
  let clusterItems := List.map dv_item cluster in
  let weight := calculateClusterWeight now clusterItems in
  let keywords := getTopKeywords cluster (keywordsPerTopic CLUSTERING_CONFIG) in
  let emotions := aggregateEmotions now clusterItems in
  {| cluster_items := clusterItems;
     cluster_vectors := cluster;
     cluster_weight := weight;
     cluster_keywords := keywords;
     cluster_emotions := emotions |}.

(** The constant [clusters] of [clusterIntoTopics]: the clusters that are
    large enough, heaviest first, cut to [maxTopics]. *)
Definition rankedClusters (uniqueItems : list NormalizedItem) (maxTopics minClusterSize : Z)
  : list Cluster :=
  let vectors := createTFIDFVectors uniqueItems in
  let rawClusters := clusterBySimilarity vectors (similarityThreshold CLUSTERING_CONFIG) in
  JsArray.slice0
    (JsArray.sort byWeightDesc
       (List.map describeCluster
          (List.filter (fun c => (minClusterSize <=? Z.of_nat (length c))%Z) rawClusters)))
    maxTopics.

Definition clusterToTopic (cluster : Cluster) : Topic := {|
  topic_id := generateId ("topic:" +:+ JsString.join ":" (cluster_keywords cluster));
  topic_title := generateKeywordTitle (cluster_keywords cluster);
  topic_keywords := cluster_keywords cluster;
  topic_whyTrending := "Analyzing...";
  topic_emotionMix := cluster_emotions cluster;
  topic_weight := cluster_weight cluster;
  topic_delta := 0;
  topic_receipts := itemsToReceipts (cluster_items cluster) (receiptsPerTopic CLUSTERING_CONFIG)
|}.

Definition clusterIntoTopics (items : list NormalizedItem) (maxTopics minClusterSize : Z)
  : list Topic :=
  let uniqueItems := List.filter (fun item => negb (isMarkedDuplicate item)) items in
  if (length uniqueItems =? 0)%nat then []
  else List.map clusterToTopic (rankedClusters uniqueItems maxTopics minClusterSize).

End Clustering.

(** ** The delta engine (snapshot module) *)

Definition calculateTensionDelta (currentTension : R) (yesterdaySnapshot : option DailySnapshot)
  : R :=
  match yesterdaySnapshot with
  | None => 0%R
  | Some snapshot => (currentTension - snap_tensionIndex snapshot)%R
  end.

(** One turn of the loop of [calculateTopicDelta] over [bestMatch]. *)
Definition topicDeltaStep (topic : Topic) (bestMatch : R) (yesterdayTopic : SnapshotTopic) : R :=
  let overlap :=
    length (List.filter (fun k => JsArray.includes (st_keywords yesterdayTopic) k)
              (topic_keywords topic)) in
  let maxKeywords :=
    Nat.max (length (topic_keywords topic)) (length (st_keywords yesterdayTopic)) in
  let similarity :=
    if (0 <? maxKeywords)%nat then (INR overlap / INR maxKeywords)%R else 0%R in
  JsMath.max bestMatch similarity.

Definition calculateTopicDelta (topic : Topic) (yesterdaySnapshot : option DailySnapshot) : R :=
  match yesterdaySnapshot with
  | None => 0%R
  | Some snapshot =>
      let bestMatch := List.fold_left (topicDeltaStep topic) (snap_topTopics snapshot) 0%R in
      if decide (bestMatch < 0.3)%R then 1%R else 0%R
  end.

(** ** Sample data *)

(** The two distributions the tension tests use: [createEmptyDistribution()]
    with [neutral = 1], and with [anger = 1]. *)
Definition allNeutral : EmotionDistribution := setE createEmptyDistribution neutral 1%R.
Definition onlyAnger : EmotionDistribution := setE createEmptyDistribution anger 1%R.

(** The item builder of the test suites ([createMockItem]), with the creation
    time and the URL explicit. *)
Definition mockItem (id title text url : string) (createdAt engagement : R) : NormalizedItem := {|
  item_id := id;
  item_source := "rss";
  item_lens := "Headlines";
  item_language := "en";
  item_title := title;
  item_text := Some text;
  item_createdAt := createdAt;
  item_url := url;
  item_engagement := engagement;
  item_context := "Test Source";
  item_relevanceScore := Some 0.8%R;
  item_duplicateOf := None;
  item_location := None;
  item_faviconUrl := None;
  item_imageUrl := None;
  item_eventType := None;
  item_eventDate := None;
  item_venue := None;
  item_moodScore := None
|}.

(** [{ ...item, duplicateOf: original }] *)
Definition markDuplicateOf (original : string) (item : NormalizedItem) : NormalizedItem := {|
  item_id := item_id item;
  item_source := item_source item;
  item_lens := item_lens item;
  item_language := item_language item;
  item_title := item_title item;
  item_text := item_text item;
  item_createdAt := item_createdAt item;
  item_url := item_url item;
  item_engagement := item_engagement item;
  item_context := item_context item;
  item_relevanceScore := item_relevanceScore item;
  item_duplicateOf := Some original;
  item_location := item_location item;
  item_faviconUrl := item_faviconUrl item;
  item_imageUrl := item_imageUrl item;
  item_eventType := item_eventType item;
  item_eventDate := item_eventDate item;
  item_venue := item_venue item;
  item_moodScore := item_moodScore item
|}.

(** ** The properties, in the words of the specification *)

(** The emotion score as the specification words it: per category, the
    number of its keywords that occur in a text (case-insensitive substring
    test); all-neutral when nothing occurs, else the counts divided by their
    total. *)
Module EmotionSpec.

Definition occursIn (text keyword : string) : bool :=
  JsString.includes (JsString.toLowerCase text) (JsString.toLowerCase keyword).

Definition count (text : string) (e : Emotion) : nat :=
  length (List.filter (occursIn text) (EMOTION_KEYWORDS e)).

Definition total (text : string) : nat :=
  (count text anger + count text anxiety + count text sadness + count text resilience
   + count text hope + count text excitement + count text cynicism)%nat.

Definition rawCounts (text : string) : EmotionDistribution := {|
  d_anger := INR (count text anger);
  d_anxiety := INR (count text anxiety);
  d_sadness := INR (count text sadness);
  d_resilience := INR (count text resilience);
  d_hope := INR (count text hope);
  d_excitement := INR (count text excitement);
  d_cynicism := INR (count text cynicism);
  d_neutral := 0
|}.

Definition score (text : string) : EmotionDistribution :=
  if (total text =? 0)%nat then allNeutral
  else {|
    d_anger := INR (count text anger) / INR (total text);
    d_anxiety := INR (count text anxiety) / INR (total text);
    d_sadness := INR (count text sadness) / INR (total text);
    d_resilience := INR (count text resilience) / INR (total text);
    d_hope := INR (count text hope) / INR (total text);
    d_excitement := INR (count text excitement) / INR (total text);
    d_cynicism := INR (count text cynicism) / INR (total text);
    d_neutral := 0
  |}.

(** [title + text], the text the specification names *)
Definition concatenated (item : NormalizedItem) : string :=
  item_title item +:+ textOrEmpty item.

(** title, one space, text: the text the code searches *)
Definition spaced (item : NormalizedItem) : string :=
  item_title item +:+ " " +:+ textOrEmpty item.

End EmotionSpec.

(** The topic delta as the specification words it: the overlap of two
    keyword lists, and the best overlap with any of yesterday's topics. *)
Module DeltaSpec.

(** [|intersection| / max(len, len)]: the keywords of [today] that also
    occur in [yesterday], over the length of the longer list. *)
Definition overlap (today yesterday : list string) : R :=
  (INR (length (List.filter (fun k => JsArray.includes yesterday k) today))
   / INR (Nat.max (length today) (length yesterday)))%R.

Definition overlaps (today : list string) (yesterday : list SnapshotTopic) : list R :=
  List.map (fun y => overlap today (st_keywords y)) yesterday.

(** The maximum of the overlaps (0 when yesterday had no topic). *)
Definition bestOverlap (today : list string) (yesterday : list SnapshotTopic) : R :=
  List.fold_right Rmax 0%R (overlaps today yesterday).

End DeltaSpec.

(** The squared Euclidean norm and the dot product, for stating what
    [cosineSimilarity] computes. *)
Definition squaredNorm (v : list R) : R :=
  List.fold_left (fun s x => (s + x * x)%R) v 0%R.

Definition dotProduct (a b : list R) : R :=
  List.fold_left (fun s (p : R * R) => (s + fst p * snd p)%R) (combine a b) 0%R.


(** The comparator lets [x] stand before [y]. *)
Definition mayPrecede {A : Type} (compareFn : A -> A -> R) (x y : A) : Prop :=
  (compareFn x y <= 0)%R.

(** The vectors found at a list of indices. *)
Definition vectorsAt (vectors : list DocumentVector) (indices : list nat)
  : list DocumentVector :=
  omap (fun j => vectors !! j) indices.

(** A cluster, as indices: a seed followed by later indices. *)
Definition seedFirst (indices : list nat) : Prop :=
  exists i rest, indices = i :: rest /\ Forall (fun j => i < j)%nat rest.

(** A cluster, as vectors: a seed followed by vectors similar enough to it. *)
Definition gatheredAroundSeed (similarityThreshold : R) (cluster : list DocumentVector)
  : Prop :=
  exists seed rest,
    cluster = seed :: rest
    /\ Forall (fun v => similarEnough similarityThreshold seed v = true) rest.

(** ** Items, topics and snapshots of the examples *)

(** An item whose title and body form a keyword only across the joining
    space. *)
Definition nothingNewItem : NormalizedItem :=
  mockItem "n1" "Nothing" "new under the sun" "https://example.com/n1" 0 10.

(** A topic and a snapshot for the delta examples. *)
Definition sampleTopic (keywords : list string) : Topic := {|
  topic_id := "t";
  topic_title := "Sample";
  topic_keywords := keywords;
  topic_whyTrending := "Analyzing...";
  topic_emotionMix := allNeutral;
  topic_weight := 1;
  topic_delta := 0;
  topic_receipts := []
|}.

Definition sampleSnapshot (topics : list (list string)) : DailySnapshot := {|
  snap_date := "2024-01-01";
  snap_tensionIndex := 40;
  snap_emotions := allNeutral;
  snap_topTopics := List.map (fun ks => {| st_keywords := ks; st_receiptIds := [] |}) topics;
  snap_llmOutputs := []
|}.

(** A fresh item with engagement 8, created at time 0. *)
Definition freshItem : NormalizedItem :=
  mockItem "f1" "Rocket alert" "Sirens heard" "https://example.com/f1" 0 8.


(** Two items for the substring heuristic of [calculateSimilarity]: the first
    title has exactly 20 characters and starts the second. *)
Definition stormShort : NormalizedItem :=
  mockItem "s1" "Storm hits the coast" "" "https://a.example/storm" 0 10.

Definition stormLong : NormalizedItem :=
  mockItem "s2"
    "Storm hits the coast as thousands flee inland overnight while rescue crews search flooded towns along river"
    "" "https://b.example/storm-report" 0 10.

(** Two items whose titles, of more than 20 characters, start alike.  No
    entity pattern matches their texts. *)
Definition coastShort : NormalizedItem :=
  mockItem "c1" "storm hits the northern coast" "" "https://a.example/coast" 0 10.

Definition coastLong : NormalizedItem :=
  mockItem "c2" "storm hits the northern coast - daily news" ""
    "https://b.example/coast" 0 10.

(** The answer of [text.match(pattern) || []] on a text that no entity
    pattern matches. *)
Definition noEntityMatches : EntityPattern -> string -> list string := fun _ _ => [].

(** Two items whose texts hold stop words only, so that no term is extracted
    from them. *)
Definition questionOne : NormalizedItem :=
  mockItem "q1" "What is this?" "" "https://example.com/q1" 0 10.

Definition questionTwo : NormalizedItem :=
  mockItem "q2" "Who was that?" "" "https://example.com/q2" 0 10.

(** Three items under three spellings of one URL (scenario B of the
    specification). *)
Definition variantA : NormalizedItem :=
  mockItem "a" "First report" "" "https://example.com/a" 0 5.

Definition variantB : NormalizedItem :=
  mockItem "b" "Second report" "" "http://example.com/a" 0 9.

Definition variantC : NormalizedItem :=
  mockItem "c" "Third report" "" "https://www.example.com/a/" 0 7.

(** ** The mood engine, continued (lib/mood) *)

Definition calculateItemMoodScore (item : NormalizedItem) : R :=
  let emotions := scoreItemEmotions item in
  let tension := calculateTensionIndex emotions in
  (100 - tension)%R.

Record EmotionWithDelta := {
  ewd_emotion : Emotion;
  ewd_value : R;
  ewd_delta : R
}.

Definition calculateEmotionDeltas (current : EmotionDistribution)
           (yesterday : option EmotionDistribution) : list EmotionWithDelta :=
  List.map
    (fun emotion =>
       {| ewd_emotion := emotion;
          ewd_value := getE current emotion;
          ewd_delta := match yesterday with
                       | Some y => (getE current emotion - getE y emotion)%R
                       | None => 0%R
                       end |})
    EMOTIONS.

(** One turn of the loop of [getDominantEmotion] over [(max, maxValue)]. *)
Definition dominantStep (dist : EmotionDistribution) (acc : Emotion * R) (emotion : Emotion)
  : Emotion * R :=
  if decide (getE dist emotion > snd acc)%R then (emotion, getE dist emotion) else acc.

Definition getDominantEmotion (dist : EmotionDistribution) : Emotion :=
  fst (List.fold_left (dominantStep dist) EMOTIONS (neutral, 0%R)).

(** [CountryMoodWithItems] *)
Record CountryMoodWithItems := {
  cm_country : string;
  cm_tensionIndex : R;
  cm_itemCount : nat;
  cm_emotions : EmotionDistribution;
  cm_items : list NormalizedItem
}.

(** A [Map] with string keys: its entries in insertion order. *)
Module JsMap.

Section Maps.
Context {V : Type}.

Fixpoint get (m : list (string * V)) (k : string) : option V :=
  match m with
  | [] => None
  | (k', v) :: m' => if String.eqb k k' then Some v else get m' k
  end.

(** [m.set(k, v)]: an existing key keeps its place. *)
Fixpoint set (m : list (string * V)) (k : string) (v : V) : list (string * V) :=
  match m with
  | [] => [(k, v)]
  | (k', v') :: m' => if String.eqb k k' then (k, v) :: m' else (k', v') :: set m' k v
  end.

End Maps.

End JsMap.

(** [item.location?.country] where it is truthy: a location with a
    non-empty country. *)
Definition countryOf (item : NormalizedItem) : option string :=
  match item_location item with
  | Some location =>
      match loc_country location with
      | Some country => if JsString.isEmpty country then None else Some country
      | None => None
      end
  | None => None
  end.

(** One turn of the grouping loop of [aggregateMoodByCountry] over [byCountry]. *)
Definition groupByCountryStep (byCountry : list (string * list NormalizedItem))
           (item : NormalizedItem) : list (string * list NormalizedItem) :=
  if isMarkedDuplicate item then byCountry
  else
    match countryOf item with
    | None => byCountry
    | Some country =>
        let existing :=
          match JsMap.get byCountry country with Some l => l | None => [] end in
        JsMap.set byCountry country (existing ++ [item])
    end.

(** [(a, b) => b.itemCount - a.itemCount] *)
Definition byItemCountDesc (a b : CountryMoodWithItems) : R :=
  (INR (cm_itemCount b) - INR (cm_itemCount a))%R.

Definition aggregateMoodByCountry (now : R) (items : list NormalizedItem)
  : list CountryMoodWithItems :=
  let byCountry := List.fold_left groupByCountryStep items [] in
  let countryMoods :=
    List.map
      (fun entry : string * list NormalizedItem =>
         let '(country, countryItems) := entry in
         let emotions := aggregateEmotions now countryItems in
         let tensionIndex := calculateTensionIndex emotions in
         {| cm_country := country;
            cm_tensionIndex := tensionIndex;
            cm_itemCount := length countryItems;
            cm_emotions := emotions;
            cm_items := countryItems |})
      byCountry in
  JsArray.sort byItemCountDesc countryMoods.

(** ** The delta engine, continued (snapshot module) *)

Definition createSnapshot (date : string) (tensionIndex : R) (emotions : EmotionDistribution)
           (topics : list Topic) (llmOutputs : list (string * string)) : DailySnapshot := {|
  snap_date := date;
  snap_tensionIndex := tensionIndex;
  snap_emotions := emotions;
  snap_topTopics :=
    List.map
      (fun t => {| st_keywords := topic_keywords t;
                   st_receiptIds := List.map receipt_id (topic_receipts t) |})
      (JsArray.slice0 topics 10);
  snap_llmOutputs := llmOutputs
|}.

(** [{ ...topic, delta }] *)
Definition withDelta (topic : Topic) (delta : R) : Topic := {|
  topic_id := topic_id topic;
  topic_title := topic_title topic;
  topic_keywords := topic_keywords topic;
  topic_whyTrending := topic_whyTrending topic;
  topic_emotionMix := topic_emotionMix topic;
  topic_weight := topic_weight topic;
  topic_delta := delta;
  topic_receipts := topic_receipts topic
|}.

Definition applyTopicDeltas (topics : list Topic) (yesterdaySnapshot : option DailySnapshot)
  : list Topic :=
  List.map (fun topic => withDelta topic (calculateTopicDelta topic yesterdaySnapshot)) topics.

(** [x || 0] on a number *)
Definition orZero (x : R) : R := if decide (x = 0%R) then 0%R else x.

Definition getEmotionDeltas (current : EmotionDistribution) (yesterday : option DailySnapshot)
  : EmotionDistribution :=
  let deltas := createEmptyDistribution in
  match yesterday with
  | None => deltas
  | Some snapshot =>
      List.fold_left
        (fun deltas emotion =>
           setE deltas emotion
             (getE current emotion - orZero (getE (snap_emotions snapshot) emotion))%R)
        EMOTIONS deltas
  end.

(** ** Utilities, continued (lib/utils) *)

Record EngagementFactor := {
  ef_scale : R;
  ef_baseline : R
}.

Definition ENGAGEMENT_FACTORS : list (string * EngagementFactor) :=
  [ ("reddit", {| ef_scale := 500; ef_baseline := 10 |});
    ("hn", {| ef_scale := 200; ef_baseline := 5 |});
    ("rss", {| ef_scale := 1; ef_baseline := 0 |}) ].

(** [ENGAGEMENT_FACTORS[source] || { scale: 100, baseline: 0 }].  For a
    source that names a property of [Object.prototype] the read finds the
    inherited function or object, which is truthy and has neither [scale]
    nor [baseline]: [None]. *)
Definition engagementFactor (source : string) : option EngagementFactor :=
  match JsMap.get ENGAGEMENT_FACTORS source with
  | Some factor => Some factor
  | None =>
      if JsObject.inherited source then None
      else Some {| ef_scale := 100; ef_baseline := 0 |}
  end.

(** [None] stands for what the inherited factor yields: [undefined] for the
    engagement 0 and [NaN] otherwise. *)
Definition normalizeEngagement (rawEngagement : R) (source : string) : option R :=
  match engagementFactor source with
  | None => None
  | Some factor =>
      if decide (rawEngagement = 0%R) then Some (ef_baseline factor)
      else
        let normalized :=
          (JsMath.log10 (rawEngagement + 1) / JsMath.log10 (ef_scale factor + 1) * 100)%R in
        Some (JsMath.min 100 (JsMath.max 0 normalized))
  end.

Definition logNormalize (value max : R) : R :=
  if decide (value <= 0)%R then 0%R
  else JsMath.min 1 (JsMath.log10 (value + 1) / JsMath.log10 (max + 1))%R.

(** The default argument [max = 100] *)
Definition defaultLogMax : R := 100.

(** [text.substring(0, end)]: a negative [end] counts as 0. *)
Definition substring0 (text : string) (end_ : Z) : string :=
  JsString.take (Z.to_nat end_) text.

Definition truncate (text : string) (maxLength : Z) : string :=
  if (Z.of_nat (String.length text) <=? maxLength)%Z then text
  else substring0 text (maxLength - 3) +:+ "...".

(** The badge that [getTensionCategory] and [getMoodCategory] return. *)
Record Category := {
  cat_color : string;
  cat_label : string;
  cat_bgColor : string
}.

Definition getTensionCategory (tensionIndex : R) : Category :=
  if decide (tensionIndex >= 70)%R
  then {| cat_color := "#dc2626"; cat_label := "High";
          cat_bgColor := "rgba(220, 38, 38, 0.2)" |}
  else if decide (tensionIndex >= 50)%R
  then {| cat_color := "#ea580c"; cat_label := "Elevated";
          cat_bgColor := "rgba(234, 88, 12, 0.2)" |}
  else if decide (tensionIndex >= 30)%R
  then {| cat_color := "#ca8a04"; cat_label := "Moderate";
          cat_bgColor := "rgba(202, 138, 4, 0.2)" |}
  else {| cat_color := "#16a34a"; cat_label := "Calm";
          cat_bgColor := "rgba(22, 163, 74, 0.2)" |}.

Definition getMoodCategory (moodScore : R) : Category :=
  if decide (moodScore >= 70)%R
  then {| cat_color := "#16a34a"; cat_label := "Positive";
          cat_bgColor := "rgba(22, 163, 74, 0.2)" |}
  else if decide (moodScore >= 50)%R
  then {| cat_color := "#ca8a04"; cat_label := "Neutral";
          cat_bgColor := "rgba(202, 138, 4, 0.2)" |}
  else if decide (moodScore >= 30)%R
  then {| cat_color := "#ea580c"; cat_label := "Concerning";
          cat_bgColor := "rgba(234, 88, 12, 0.2)" |}
  else {| cat_color := "#dc2626"; cat_label := "Negative";
          cat_bgColor := "rgba(220, 38, 38, 0.2)" |}.

(** ** Relevance scoring (lib/relevance) *)

(** [SourceConfig] *)
Record SourceConfig := {
  source_name : string;
  source_type : string;
  source_url : string;
  source_lens : string;
  source_trustScore : R
}.

Definition SOURCES : list SourceConfig :=
  [ {| source_name := "Search"; source_type := "search"; source_url := "";
       source_lens := "Headlines"; source_trustScore := 0.8 |} ].

(** The module variable [cachedKeywords] is an explicit argument:
    [None] is [null]. *)
Definition setRelevanceKeywords (keywords : list string) : option (list string) :=
  Some (List.map JsString.toLowerCase keywords).

Definition getRelevanceKeywords (cachedKeywords : option (list string)) : list string :=
  match cachedKeywords with Some keywords => keywords | None => [] end.

Definition scoreRelevance (cachedKeywords : option (list string)) (item : NormalizedItem) : R :=
  let score := 0%R in
  let sourceConfig :=
    List.find (fun s => String.eqb (source_type s) (item_source item)) SOURCES in
  let trustScore :=
    match sourceConfig with Some s => source_trustScore s | None => 0.5%R end in
  let score := (score + trustScore * 0.3)%R in
  let combinedText := JsString.toLowerCase (item_title item +:+ " " +:+ textOrEmpty item) in
  let keywords := match cachedKeywords with Some keywords => keywords | None => [] end in
  let keywordMatches :=
    List.fold_left
      (fun matches keyword =>
         if JsString.includes combinedText keyword then S matches else matches)
      keywords 0%nat in
  let keywordScore := JsMath.min 1 (INR keywordMatches / 3)%R in
  let score := (score + keywordScore * 0.5)%R in
  let score := if String.eqb (item_source item) "search" then (score + 0.1)%R else score in
  JsMath.min 1 (JsMath.max 0 score).

(** The default argument [minScore = 0.3] *)
Definition defaultMinScore : R := 0.3.

Definition filterByRelevance (cachedKeywords : option (list string))
           (items : list NormalizedItem) (minScore : R) : list NormalizedItem :=
  List.filter
    (fun item =>
       let score :=
         match item_relevanceScore item with
         | Some r => r
         | None => scoreRelevance cachedKeywords item
         end in
       bool_decide (score >= minScore)%R)
    items.

(** ** URL comparison (lib/utils/url) *)

Definition urlsMatch (parseURL : string -> option URL) (url1 url2 : string) : bool :=
  String.eqb (normalizeUrl parseURL url1) (normalizeUrl parseURL url2).

(** ** Clustering, continued (lib/clustering) *)

Definition findUnclusteredItems (items : list NormalizedItem) (topics : list Topic) (max : Z)
  : list NormalizedItem :=
  let clusteredIds : gset string :=
    List.fold_left
      (fun ids topic =>
         List.fold_left (fun ids receipt => ids ∪ {[ receipt_id receipt ]})
           (topic_receipts topic) ids)
      topics ∅ in
  JsArray.slice0
    (JsArray.sort byEngagementDesc
       (List.filter
          (fun item =>
             negb (isMarkedDuplicate item) && negb (bool_decide (item_id item ∈ clusteredIds)))
          items))
    max.

(** ** Words for the further properties *)

(** An item counts for a country: it is not marked as a duplicate and its
    location names that country. *)
Definition countsFor (country : string) (item : NormalizedItem) : bool :=
  negb (isMarkedDuplicate item) && bool_decide (countryOf item = Some country).

(** What [deduplicateItems] takes for a duplicate: [item] has the non-empty
    URL key of [kept], or its similarity to [kept] reaches the threshold. *)
Definition duplicates (parseURL : string -> option URL)
           (matchAll : EntityPattern -> string -> list string) (similarityThreshold : R)
           (item kept : NormalizedItem) : Prop :=
  (dedupUrlKey parseURL item <> "" /\ dedupUrlKey parseURL item = dedupUrlKey parseURL kept)
  \/ (calculateSimilarity parseURL matchAll item kept >= similarityThreshold)%R.

(** An item that [findUnclusteredItems] may return: it is not marked as a
    duplicate and no receipt of a topic carries its id. *)
Definition unclustered (topics : list Topic) (item : NormalizedItem) : Prop :=
  isMarkedDuplicate item = false
  /\ forall topic receipt,
      In topic topics -> In receipt (topic_receipts topic) -> receipt_id receipt <> item_id item.

(** The total score of a term over the vectors of a cluster: the sum of the
    entries that the vectors hold for it. *)
Definition termScore (vectors : list DocumentVector) (term : string) : R :=
  List.fold_right
    (fun doc total =>
       (JsObject.getOr0 (combine (dv_terms doc) (dv_vector doc)) term + total)%R)
    0%R vectors.

(** Vectors over one vocabulary: every vector lists the terms [terms] and
    holds one entry per term. *)
Definition overVocabulary (terms : list string) (vectors : list DocumentVector) : Prop :=
  Forall (fun doc => dv_terms doc = terms /\ length (dv_vector doc) = length terms) vectors.

(** The text from which the terms of an item are extracted. *)
Definition termText (item : NormalizedItem) : string :=
  item_title item +:+ " " +:+ textOrEmpty item.

(** A cluster of two vectors over the vocabulary [alert; rocket]. *)
Definition sampleCluster : list DocumentVector :=
  [ {| dv_item := freshItem; dv_vector := [1; 2]%R; dv_terms := ["alert"; "rocket"] |};
    {| dv_item := stormShort; dv_vector := [0; 3]%R; dv_terms := ["alert"; "rocket"] |} ].

(** No vector of the cluster [later] is similar enough to the seed of the
    cluster [earlier]. *)
Definition apartFromSeed (similarityThreshold : R) (earlier later : list DocumentVector)
  : Prop :=
  match earlier with
  | seed :: _ => Forall (fun v => similarEnough similarityThreshold seed v = false) later
  | [] => True
  end.

(** Every character of a string passes a test. *)
Fixpoint everyChar (test : ascii -> bool) (s : string) : bool :=
  match s with
  | EmptyString => true
  | String c s' => test c && everyChar test s'
  end.

(** A letter or a digit, in the sense of [\p{L}] and [\p{N}]. *)
Definition isWordChar (c : ascii) : bool := JsString.isLetter c || JsString.isNumber c.

(** ** Further sample data *)

(** The keywords and two items of the relevance tests. *)
Definition relevanceTestKeywords : list string :=
  ["usa"; "united states"; "american"; "washington"; "new york"; "california";
   "congress"; "white house"; "senate"; "federal"; "biden"; "trump";
   "economy"; "politics"; "breaking news"].

Definition regionItem : NormalizedItem :=
  mockItem "test" "Breaking: Congress passes new bill"
    "United States lawmakers in Washington area" "https://example.com" 0 10.

Definition parisItem : NormalizedItem :=
  mockItem "test" "Weather in Paris" "Sunny skies expected in France"
    "https://example.com" 0 10.

(** Two reports with the same terms, in two wordings. *)
Definition floodFirst : NormalizedItem :=
  mockItem "r1" "Flood warning issued" "" "https://a.example/flood" 0 12.

Definition floodSecond : NormalizedItem :=
  mockItem "r2" "FLOOD WARNING" "Issued!" "https://b.example/flood" 0 10.

(** The distribution of the test of [getDominantEmotion]. *)
Definition mostlyAnger : EmotionDistribution :=
  setE (setE (setE createEmptyDistribution anger 0.5%R) anxiety 0.3%R) neutral 0.2%R.

(** ** Proof automation *)

(** Reduce the projections of a distribution that is given field by field,
    and nothing else. *)
Ltac dist_fields :=
  cbn [d_anger d_anxiety d_sadness d_resilience d_hope d_excitement d_cynicism
       d_neutral setE getE] in *.

(** Settle the numeric tests of a goal whose numbers are literals. *)
Ltac settle_comparisons :=
  repeat match goal with
         | |- context [bool_decide ?P] =>
             first [ rewrite (bool_decide_eq_true_2 P) by lra
                   | rewrite (bool_decide_eq_false_2 P) by lra ]
         end.

(** Settle the comparisons of a sort by engagement over given items. *)
Ltac settle_order :=
  match goal with
  | |- context [decide ?P] =>
      first [ rewrite (decide_True (P := P)) by (unfold byEngagementDesc; cbn; lra)
            | rewrite (decide_False (P := P)) by (unfold byEngagementDesc; cbn; lra) ]
  end.

(** * Examples and theorems *)

(** ** Strings *)

Example splitSpaces_runs :
  JsString.splitSpaces " rocket  attack " = [""; "rocket"; "attack"; ""].
Proof. reflexivity. Qed.

Example splitSpaces_empty : JsString.splitSpaces "" = [""].
Proof. reflexivity. Qed.

Example includes_sample :
  JsString.includes (JsString.toLowerCase "Angry Protesters") "angry" = true
  /\ JsString.includes "hop" "hope" = false.
Proof. split; reflexivity. Qed.

Example take_sample : JsString.take 3 "rocket" = "roc" /\ JsString.take 30 "ab" = "ab".
Proof. split; reflexivity. Qed.

Example normalizeUrl_variants :
  normalizeUrl SimpleUrl.parse "https://example.com/a" = "example.com/a"
  /\ normalizeUrl SimpleUrl.parse "http://example.com/a" = "example.com/a"
  /\ normalizeUrl SimpleUrl.parse "https://www.example.com/a/" = "example.com/a"
  /\ normalizeUrl SimpleUrl.parse "https://example.com/a?x=1#top" = "example.com/a"
  /\ normalizeUrl SimpleUrl.parse "WWW.Example.com/a/" = "example.com/a".
Proof. repeat split; reflexivity. Qed.

Example objectKeys_order :
  JsObject.keys (JsObject.set (JsObject.set (JsObject.set JsObject.empty "b" 1) "10" 2) "2" 3)
  = ["2"; "10"; "b"].
Proof. reflexivity. Qed.

Example slice0_samples :
  JsArray.slice0 [1; 2; 3]%nat 2 = [1; 2]%nat
  /\ JsArray.slice0 [1; 2; 3]%nat 12 = [1; 2; 3]%nat
  /\ JsArray.slice0 [1; 2; 3]%nat (-1) = [1; 2]%nat.
Proof. repeat split; reflexivity. Qed.

Example tensionDelta_sample :
  calculateTensionDelta 60 (Some (sampleSnapshot [])) = 20%R
  /\ calculateTensionDelta 60 None = 0%R.
Proof. split; [cbn; lra | reflexivity]. Qed.

(** ** Tension index *)

Lemma round_integer (z : Z) : JsMath.round (IZR z) = IZR z.
Proof.
  unfold JsMath.round. f_equal. symmetry. apply Int_part_spec. lra.
Qed.

Lemma allNeutral_fields :
  allNeutral = Build_EmotionDistribution 0 0 0 0 0 0 0 1.
Proof. reflexivity. Qed.

Lemma onlyAnger_fields :
  onlyAnger = Build_EmotionDistribution 1 0 0 0 0 0 0 0.
Proof. reflexivity. Qed.

Section TensionInBinary64.

Import PrimFloat SpecFloat FloatOps FloatAxioms.
#[local] Set Warnings "-inexact-float".

Lemma SF64mul_comm (x y : spec_float) : SF64mul x y = SF64mul y x.
Proof.
  unfold SF64mul.
  destruct x as [sx | sx | | sx mx ex], y as [sy | sy | | sy my ey]; cbn [SFmul];
    rewrite ?(xorb_comm sx sy), ?(Pos.mul_comm mx my), ?(Z.add_comm ex ey); reflexivity.
Qed.

Lemma Binary64_mul_comm (x y : float) : (x * y)%float = (y * x)%float.
Proof. apply Prim2SF_inj. rewrite !mul_spec. apply SF64mul_comm. Qed.

Example Binary64_round_samples :
  Binary64.round 2.5 = 3%float /\ Binary64.round (-2.5) = (-2)%float
  /\ Binary64.round 0.49999999999999994 = 0%float
  /\ Binary64.round (-0.3) = (-0)%float
  /\ Binary64.round 62.499999999999986 = 62%float
  /\ Binary64.round 4503599627370497 = 4503599627370497%float
  /\ Binary64.max 0 (-0) = 0%float /\ Binary64.min 100 nan = nan.
Proof. repeat split; vm_compute; reflexivity. Qed.

(** C2. In binary64, operation for operation, [calculateTensionIndex] is
    [min(100, round(100 * max(0, negativeScore - positiveScore * 0.5)))] with
    the configured weights written out.  The all-neutral distribution yields
    0 and the distribution with [anger = 1] yields 100, which is above 50 and
    at most 100.  The rounding is that of [Math.round] on the double that
    was computed: three quarters sadness and one quarter cynicism give
    62.499999999999986 and so 62, three quarters anger and one quarter hope
    give 66.25 and so 66.  The two bounds act where the weighted difference
    leaves the range: resilience alone gives 0, and shares that add up to
    more than 1 (anger and anxiety both 1) give 100. *)
Theorem calculateTensionIndex_formula :
  (forall emotions : Binary64.EmotionDistribution,
      Binary64.calculateTensionIndex emotions
      = Binary64.min 100
          (Binary64.round
             (100 * Binary64.max 0
                      ((Binary64.d_anger emotions * 1.0 + Binary64.d_anxiety emotions * 1.0
                        + Binary64.d_sadness emotions * 0.7
                        + Binary64.d_cynicism emotions * 0.4)
                       - (Binary64.d_resilience emotions * 0.5
                          + Binary64.d_hope emotions * 0.7
                          + Binary64.d_excitement emotions * 0.3)
                         * 0.5)))%float)
  /\ Binary64.calculateTensionIndex Binary64.allNeutral = 0%float
  /\ Binary64.calculateTensionIndex Binary64.onlyAnger = 100%float
  /\ (50 <? Binary64.calculateTensionIndex Binary64.onlyAnger)%float = true
  /\ (Binary64.calculateTensionIndex Binary64.onlyAnger <=? 100)%float = true
  /\ Binary64.calculateTensionIndex Binary64.sadAndCynical = 62%float
  /\ Binary64.calculateTensionIndex Binary64.angryAndHopeful = 66%float
  /\ Binary64.calculateTensionIndex (Binary64.Build_EmotionDistribution 0 0 0 1 0 0 0 0)
     = 0%float
  /\ Binary64.calculateTensionIndex (Binary64.Build_EmotionDistribution 1 1 0 0 0 0 0 0)
     = 100%float.
Proof.
  split.
  - intros emotions. unfold Binary64.calculateTensionIndex.
    cbn [Binary64.EMOTION_WEIGHTS Binary64.negative Binary64.positive
         Binary64.positiveReductionFactor Binary64.w_anger Binary64.w_anxiety
         Binary64.w_sadness Binary64.w_cynicism Binary64.w_resilience Binary64.w_hope
         Binary64.w_excitement].
    f_equal. f_equal. apply Binary64_mul_comm.
  - repeat split; vm_compute; reflexivity.
Qed.

End TensionInBinary64.

(** The same shares in exact arithmetic lie on the half-way point 62.5,
    which rounds up: the exact model of the tension index can differ by one
    from the value computed in doubles when the weighted sum is within a
    rounding error of a half.  The range and the monotonicity of the index
    do not depend on the side taken. *)
Example calculateTensionIndex_half_way :
  calculateTensionIndex (Build_EmotionDistribution 0 0 0.75 0 0 0 0.25 0) = 63%R.
Proof.
  unfold calculateTensionIndex, tensionWith, JsMath.min, JsMath.max. cbn.
  replace (Rmax 0 _) with 0.625%R by (unfold Rmax; destruct (Rle_dec _ _); lra).
  unfold JsMath.round. replace (0.625 * 100 + / 2)%R with (IZR 63) by lra.
  replace (Int_part (IZR 63)) with 63%Z by (apply Int_part_spec; lra).
  unfold Rmin. destruct (Rle_dec 100 63); lra.
Qed.

(** ** Emotion distributions *)

Lemma distSum_fields (d : EmotionDistribution) :
  distSum d =
  (d_anger d + d_anxiety d + d_sadness d + d_resilience d + d_hope d
   + d_excitement d + d_cynicism d + d_neutral d)%R.
Proof. destruct d. unfold distSum, distValues. cbn. lra. Qed.

Lemma distSum_allNeutral : distSum allNeutral = 1%R.
Proof. rewrite distSum_fields, allNeutral_fields. cbn. lra. Qed.

Lemma normalizeDistribution_zero (d : EmotionDistribution) :
  distSum d = 0%R -> normalizeDistribution d = allNeutral.
Proof.
  intros Hsum. unfold normalizeDistribution.
  destruct (decide (distSum d = 0%R)); [reflexivity | contradiction].
Qed.

Lemma normalizeDistribution_nonzero (d : EmotionDistribution) :
  distSum d <> 0%R ->
  normalizeDistribution d =
  Build_EmotionDistribution
    (d_anger d / distSum d) (d_anxiety d / distSum d) (d_sadness d / distSum d)
    (d_resilience d / distSum d) (d_hope d / distSum d) (d_excitement d / distSum d)
    (d_cynicism d / distSum d) (d_neutral d / distSum d).
Proof.
  intros Hsum. unfold normalizeDistribution.
  destruct (decide (distSum d = 0%R)); [contradiction | reflexivity].
Qed.

Lemma normalizeDistribution_empty :
  normalizeDistribution createEmptyDistribution = allNeutral.
Proof.
  apply normalizeDistribution_zero. rewrite distSum_fields. cbn. lra.
Qed.

(** Whatever its argument, [normalizeDistribution] returns a distribution
    whose values add up to one. *)
Lemma normalizeDistribution_sum (d : EmotionDistribution) :
  distSum (normalizeDistribution d) = 1%R.
Proof.
  destruct (decide (distSum d = 0%R)) as [Hz | Hnz].
  - rewrite (normalizeDistribution_zero d Hz). apply distSum_allNeutral.
  - rewrite (normalizeDistribution_nonzero d Hnz).
    rewrite distSum_fields. rewrite (distSum_fields d) in Hnz |- *. cbn.
    field. exact Hnz.
Qed.

Lemma scoreItemEmotions_sum (item : NormalizedItem) :
  distSum (scoreItemEmotions item) = 1%R.
Proof.
  unfold scoreItemEmotions. destruct (countEmotionKeywords item) as [dist total].
  destruct (total =? 0)%nat; apply normalizeDistribution_sum.
Qed.

Lemma aggregateLoop_all_duplicates (now : R) (items : list NormalizedItem)
      (acc : EmotionDistribution * R) :
  Forall (fun item => isMarkedDuplicate item = true) items ->
  List.fold_left (aggregateStep now) items acc = acc.
Proof.
  intros Hall. revert acc.
  induction Hall as [| item items Hdup _ IH]; intros acc; [reflexivity |].
  cbn [List.fold_left]. unfold aggregateStep at 2. destruct acc as [w t].
  rewrite Hdup. apply IH.
Qed.

(** The two loops over [EMOTIONS] in [aggregateEmotions], field by field. *)
Lemma addWeighted_fields (w e : EmotionDistribution) (weight : R) :
  List.fold_left
    (fun w emotion => setE w emotion (getE w emotion + getE e emotion * weight)%R)
    EMOTIONS w
  = Build_EmotionDistribution
      (d_anger w + d_anger e * weight) (d_anxiety w + d_anxiety e * weight)
      (d_sadness w + d_sadness e * weight) (d_resilience w + d_resilience e * weight)
      (d_hope w + d_hope e * weight) (d_excitement w + d_excitement e * weight)
      (d_cynicism w + d_cynicism e * weight) (d_neutral w + d_neutral e * weight).
Proof. destruct w. reflexivity. Qed.

Lemma divideAll_fields (w : EmotionDistribution) (total : R) :
  List.fold_left (fun w emotion => setE w emotion (getE w emotion / total)%R) EMOTIONS w
  = Build_EmotionDistribution
      (d_anger w / total) (d_anxiety w / total) (d_sadness w / total)
      (d_resilience w / total) (d_hope w / total) (d_excitement w / total)
      (d_cynicism w / total) (d_neutral w / total).
Proof. destruct w. reflexivity. Qed.

(** The loop of [aggregateEmotions] keeps the weighted values adding up to
    the total weight. *)
Lemma aggregateStep_sum (now : R) (acc : EmotionDistribution * R) (item : NormalizedItem) :
  distSum (fst acc) = snd acc ->
  distSum (fst (aggregateStep now acc item)) = snd (aggregateStep now acc item).
Proof.
  destruct acc as [w t]. cbn [fst snd]. intros Hsum. unfold aggregateStep.
  destruct (isMarkedDuplicate item); [exact Hsum |].
  pose proof (scoreItemEmotions_sum item) as Hone.
  revert Hone.
  generalize (scoreItemEmotions item)
             (recencyWeight now (item_createdAt item) defaultHalfLifeHours
              * JsMath.log10 (capEngagement (item_engagement item) defaultEngagementCap + 2)
              * relevanceOrDefault item)%R.
  intros ie weight Hone. rewrite addWeighted_fields. cbn [fst snd].
  rewrite distSum_fields in Hsum, Hone |- *. dist_fields. subst t.
  assert (Hn : d_neutral ie
               = (1 - (d_anger ie + d_anxiety ie + d_sadness ie + d_resilience ie
                       + d_hope ie + d_excitement ie + d_cynicism ie))%R) by lra.
  rewrite Hn. ring.
Qed.

Lemma aggregateLoop_sum (now : R) (items : list NormalizedItem) :
  distSum (fst (aggregateLoop now items)) = snd (aggregateLoop now items).
Proof.
  unfold aggregateLoop.
  assert (Hstart : distSum (fst (createEmptyDistribution, 0%R)) = snd (createEmptyDistribution, 0%R)).
  { cbn [fst snd]. rewrite distSum_fields. cbn. lra. }
  revert Hstart. generalize (createEmptyDistribution, 0%R).
  induction items as [| item items IH]; intros acc Hacc; [exact Hacc |].
  cbn [List.fold_left]. apply IH, aggregateStep_sum, Hacc.
Qed.

(** With a nonzero total weight the result is the weighted average itself:
    the last normalisation divides by 1. *)
Lemma aggregateEmotions_average (now : R) (items : list NormalizedItem) :
  snd (aggregateLoop now items) <> 0%R ->
  aggregateEmotions now items
  = let '(weighted, totalWeight) := aggregateLoop now items in
    Build_EmotionDistribution
      (d_anger weighted / totalWeight) (d_anxiety weighted / totalWeight)
      (d_sadness weighted / totalWeight) (d_resilience weighted / totalWeight)
      (d_hope weighted / totalWeight) (d_excitement weighted / totalWeight)
      (d_cynicism weighted / totalWeight) (d_neutral weighted / totalWeight).
Proof.
  intros Hnz. unfold aggregateEmotions.
  destruct items as [| item items].
  { exfalso. apply Hnz. reflexivity. }
  cbn [length Nat.eqb]. pose proof (aggregateLoop_sum now (item :: items)) as Hsum.
  revert Hnz Hsum. generalize (aggregateLoop now (item :: items)).
  intros [w t] Hnz Hsum. cbn [fst snd] in Hnz, Hsum.
  destruct (decide (t = 0%R)); [contradiction |].
  rewrite divideAll_fields.
  assert (Hone : distSum (Build_EmotionDistribution
                            (d_anger w / t) (d_anxiety w / t) (d_sadness w / t)
                            (d_resilience w / t) (d_hope w / t) (d_excitement w / t)
                            (d_cynicism w / t) (d_neutral w / t)) = 1%R).
  { rewrite distSum_fields in Hsum |- *. dist_fields.
    rewrite <- Hsum in Hnz |- *. field. exact Hnz. }
  rewrite normalizeDistribution_nonzero by (rewrite Hone; lra).
  rewrite Hone. dist_fields. f_equal; field; exact Hnz.
Qed.

(** C1. The values of [aggregateEmotions(items)] add up to 1 (within 1e-5);
    for an empty list, a list of items all marked [duplicateOf], or a total
    weight of zero, the result is the distribution with [neutral = 1]. *)
Theorem aggregateEmotions_sums_to_one (now : R) (items : list NormalizedItem) :
  (Rabs (distSum (aggregateEmotions now items) - 1) <= 1 / 100000)%R
  /\ (items = []
      \/ Forall (fun item => isMarkedDuplicate item = true) items
      \/ snd (aggregateLoop now items) = 0%R ->
      aggregateEmotions now items = allNeutral).
Proof.
  split.
  - assert (Hone : distSum (aggregateEmotions now items) = 1%R).
    { unfold aggregateEmotions.
      destruct (length items =? 0)%nat; [apply normalizeDistribution_sum |].
      destruct (aggregateLoop now items) as [weighted totalWeight].
      destruct (decide (totalWeight = 0%R)); apply normalizeDistribution_sum. }
    rewrite Hone. replace (1 - 1)%R with 0%R by lra. rewrite Rabs_R0. lra.
  - intros Hcase.
    assert (Hzero : items = [] \/ snd (aggregateLoop now items) = 0%R).
    { destruct Hcase as [Hnil | [Hdup | Hw]]; [left; exact Hnil | right | right; exact Hw].
      unfold aggregateLoop. rewrite (aggregateLoop_all_duplicates now items _ Hdup).
      reflexivity. }
    unfold aggregateEmotions. destruct Hzero as [Hnil | Hw].
    + subst items. cbn [length Nat.eqb]. apply normalizeDistribution_empty.
    + destruct (length items =? 0)%nat; [apply normalizeDistribution_empty |].
      destruct (aggregateLoop now items) as [weighted totalWeight]. cbn [snd] in Hw.
      destruct (decide (totalWeight = 0%R)); [apply normalizeDistribution_empty | contradiction].
Qed.

Lemma aggregateEmotions_sums_to_one_witness :
  aggregateEmotions 0
    [markDuplicateOf "original" (mockItem "2" "Same story" "Outrage" "https://example.com" 0 10)]
  = allNeutral.
Proof.
  apply (proj2 (aggregateEmotions_sums_to_one 0 _)).
  right; left. repeat constructor.
Defined.

(** ** Per-item emotion scores *)

Lemma keywordMatches_from (text : string) (keywords : list string) (n : nat) :
  List.fold_left
    (fun matches keyword =>
       if JsString.includes text (JsString.toLowerCase keyword) then S matches else matches)
    keywords n
  = (n + length (List.filter
                   (fun keyword => JsString.includes text (JsString.toLowerCase keyword))
                   keywords))%nat.
Proof.
  revert n. induction keywords as [| k ks IH]; intros n; cbn [List.fold_left List.filter].
  - cbn. lia.
  - rewrite IH. destruct (JsString.includes text (JsString.toLowerCase k)); cbn [length]; lia.
Qed.

Lemma keywordMatches_count (item : NormalizedItem) (e : Emotion) :
  keywordMatches (emotionText item) (EMOTION_KEYWORDS e)
  = EmotionSpec.count (EmotionSpec.spaced item) e.
Proof.
  unfold keywordMatches. rewrite keywordMatches_from. reflexivity.
Qed.

Lemma countEmotionKeywords_spec (item : NormalizedItem) :
  countEmotionKeywords item
  = (EmotionSpec.rawCounts (EmotionSpec.spaced item),
     EmotionSpec.total (EmotionSpec.spaced item)).
Proof.
  unfold countEmotionKeywords, EmotionSpec.rawCounts, EmotionSpec.total.
  cbn -[keywordMatches INR EMOTION_KEYWORDS Nat.add].
  rewrite !keywordMatches_count. reflexivity.
Qed.

Lemma rawCounts_sum (text : string) :
  distSum (EmotionSpec.rawCounts text) = INR (EmotionSpec.total text).
Proof.
  rewrite distSum_fields. unfold EmotionSpec.rawCounts, EmotionSpec.total. dist_fields.
  rewrite !plus_INR. lra.
Qed.

Lemma setE_neutral_fields (d : EmotionDistribution) (v : R) :
  setE d neutral v
  = Build_EmotionDistribution (d_anger d) (d_anxiety d) (d_sadness d) (d_resilience d)
      (d_hope d) (d_excitement d) (d_cynicism d) v.
Proof. destruct d. reflexivity. Qed.

(** Normalising raw counts, for any seven counts. *)
Lemma normalize_counts (a x s r h e c : nat) :
  let raw := Build_EmotionDistribution (INR a) (INR x) (INR s) (INR r) (INR h) (INR e)
               (INR c) 0 in
  let total := (a + x + s + r + h + e + c)%nat in
  (if (total =? 0)%nat then normalizeDistribution (setE raw neutral 1%R)
   else normalizeDistribution raw)
  = (if (total =? 0)%nat then allNeutral
     else Build_EmotionDistribution (INR a / INR total) (INR x / INR total)
            (INR s / INR total) (INR r / INR total) (INR h / INR total)
            (INR e / INR total) (INR c / INR total) 0).
Proof.
  intros raw total.
  assert (Hsum : distSum raw = INR total).
  { rewrite distSum_fields. subst raw total. dist_fields. rewrite !plus_INR. lra. }
  destruct (total =? 0)%nat eqn:Htotal.
  - apply Nat.eqb_eq in Htotal.
    assert (a = 0 /\ x = 0 /\ s = 0 /\ r = 0 /\ h = 0 /\ e = 0 /\ c = 0)%nat
      as (-> & -> & -> & -> & -> & -> & ->) by (subst total; lia).
    subst raw. rewrite setE_neutral_fields. dist_fields. change (INR 0) with 0%R.
    assert (Hone : distSum (Build_EmotionDistribution 0 0 0 0 0 0 0 1) = 1%R).
    { rewrite distSum_fields. dist_fields. lra. }
    rewrite normalizeDistribution_nonzero by (rewrite Hone; lra).
    rewrite Hone, allNeutral_fields. dist_fields. f_equal; field.
  - apply Nat.eqb_neq in Htotal.
    assert (Hnz : distSum raw <> 0%R) by (rewrite Hsum; apply not_0_INR; exact Htotal).
    rewrite (normalizeDistribution_nonzero _ Hnz), Hsum. subst raw. dist_fields.
    f_equal. unfold Rdiv. apply Rmult_0_l.
Qed.

Lemma scoreItemEmotions_spec (item : NormalizedItem) :
  scoreItemEmotions item = EmotionSpec.score (EmotionSpec.spaced item).
Proof.
  unfold scoreItemEmotions. rewrite countEmotionKeywords_spec.
  unfold EmotionSpec.score, EmotionSpec.rawCounts, EmotionSpec.total.
  apply normalize_counts.
Qed.

Example scoreItemEmotions_weather :
  scoreItemEmotions
    (mockItem "w" "Weather report" "Sunny with clouds" "https://example.com" 0 10)
  = allNeutral.
Proof.
  rewrite scoreItemEmotions_spec. unfold EmotionSpec.score.
  replace (EmotionSpec.total _) with 0%nat by (vm_compute; reflexivity).
  reflexivity.
Qed.

Lemma nothingNewItem_score :
  scoreItemEmotions nothingNewItem = Build_EmotionDistribution 0 0 0 0 0 0 1 0.
Proof.
  rewrite scoreItemEmotions_spec. unfold EmotionSpec.score.
  replace (EmotionSpec.total (EmotionSpec.spaced nothingNewItem)) with 1%nat
    by (vm_compute; reflexivity).
  replace (EmotionSpec.count (EmotionSpec.spaced nothingNewItem) anger) with 0%nat
    by (vm_compute; reflexivity).
  replace (EmotionSpec.count (EmotionSpec.spaced nothingNewItem) anxiety) with 0%nat
    by (vm_compute; reflexivity).
  replace (EmotionSpec.count (EmotionSpec.spaced nothingNewItem) sadness) with 0%nat
    by (vm_compute; reflexivity).
  replace (EmotionSpec.count (EmotionSpec.spaced nothingNewItem) resilience) with 0%nat
    by (vm_compute; reflexivity).
  replace (EmotionSpec.count (EmotionSpec.spaced nothingNewItem) hope) with 0%nat
    by (vm_compute; reflexivity).
  replace (EmotionSpec.count (EmotionSpec.spaced nothingNewItem) excitement) with 0%nat
    by (vm_compute; reflexivity).
  replace (EmotionSpec.count (EmotionSpec.spaced nothingNewItem) cynicism) with 1%nat
    by (vm_compute; reflexivity).
  cbn [Nat.eqb INR]. f_equal; field.
Qed.

(** C5, as stated, with the text [title + text]: refuted by an item whose
    title ends and whose body starts a two-word keyword.  The code finds
    the keyword across the joining space and returns [cynicism = 1]; the
    concatenation holds no keyword, so the statement asks for
    [neutral = 1]. *)
Lemma scoreItemEmotions_concatenation_counterexample :
  scoreItemEmotions nothingNewItem = Build_EmotionDistribution 0 0 0 0 0 0 1 0
  /\ EmotionSpec.score (EmotionSpec.concatenated nothingNewItem) = allNeutral
  /\ scoreItemEmotions nothingNewItem
     <> EmotionSpec.score (EmotionSpec.concatenated nothingNewItem).
Proof.
  assert (Hconcat : EmotionSpec.score (EmotionSpec.concatenated nothingNewItem) = allNeutral).
  { unfold EmotionSpec.score.
    replace (EmotionSpec.total (EmotionSpec.concatenated nothingNewItem)) with 0%nat
      by (vm_compute; reflexivity).
    reflexivity. }
  split; [apply nothingNewItem_score |]. split; [exact Hconcat |].
  rewrite nothingNewItem_score, Hconcat, allNeutral_fields. intros Heq.
  apply (f_equal d_neutral) in Heq. cbn [d_neutral] in Heq. lra.
Qed.

(** C5, amended.  The raw score of each of the seven non-neutral categories
    is the number of its keywords that occur, as case-insensitive
    substrings, in the title, one space and the text; when no keyword occurs
    the result is the distribution with [neutral = 1], otherwise the raw
    counts divided by their total, and in both cases the values add up
    to 1. *)
Theorem scoreItemEmotions_counts (item : NormalizedItem) :
  countEmotionKeywords item
  = (EmotionSpec.rawCounts (EmotionSpec.spaced item),
     EmotionSpec.total (EmotionSpec.spaced item))
  /\ scoreItemEmotions item = EmotionSpec.score (EmotionSpec.spaced item)
  /\ distSum (scoreItemEmotions item) = 1%R.
Proof.
  split; [apply countEmotionKeywords_spec |].
  split; [apply scoreItemEmotions_spec | apply scoreItemEmotions_sum].
Qed.

(** ** Topic delta *)

Lemma includes_In (l : list string) (x : string) :
  JsArray.includes l x = true <-> In x l.
Proof.
  unfold JsArray.includes. rewrite existsb_exists. split.
  - intros (y & Hy & Heq). apply String.eqb_eq in Heq. subst y. exact Hy.
  - intros Hx. exists x. split; [exact Hx | apply String.eqb_refl].
Qed.

Lemma overlap_nonneg (today yesterday : list string) :
  (0 <= DeltaSpec.overlap today yesterday)%R.
Proof.
  unfold DeltaSpec.overlap.
  set (n := length (List.filter _ today)). set (m := Nat.max _ _).
  destruct m as [| m].
  - unfold Rdiv. change (INR 0) with 0%R. rewrite Rinv_0. rewrite Rmult_0_r. lra.
  - apply Rmult_le_pos; [apply pos_INR |].
    apply Rlt_le, Rinv_0_lt_compat. apply lt_0_INR. lia.
Qed.

Lemma bestOverlap_nonneg (today : list string) (ys : list SnapshotTopic) :
  (0 <= DeltaSpec.bestOverlap today ys)%R.
Proof.
  unfold DeltaSpec.bestOverlap. induction (DeltaSpec.overlaps today ys) as [| o os IH].
  - cbn. lra.
  - cbn [List.fold_right]. pose proof (Rmax_r o (List.fold_right Rmax 0%R os)). lra.
Qed.

(** The guarded quotient of the code is the plain overlap ratio. *)
Lemma topicDeltaStep_overlap (topic : Topic) (best : R) (y : SnapshotTopic) :
  topicDeltaStep topic best y
  = Rmax best (DeltaSpec.overlap (topic_keywords topic) (st_keywords y)).
Proof.
  unfold topicDeltaStep, DeltaSpec.overlap, JsMath.max. f_equal.
  destruct (0 <? Nat.max _ _)%nat eqn:Hmax; [reflexivity |].
  apply Nat.ltb_ge in Hmax.
  assert (Hlen : length (topic_keywords topic) = 0%nat) by lia.
  apply length_zero_iff_nil in Hlen. rewrite Hlen. cbn [List.filter length].
  unfold Rdiv. change (INR 0) with 0%R. rewrite Rmult_0_l. reflexivity.
Qed.

Lemma topicDelta_loop (topic : Topic) (ys : list SnapshotTopic) (best : R) :
  (0 <= best)%R ->
  List.fold_left (topicDeltaStep topic) ys best
  = Rmax best (DeltaSpec.bestOverlap (topic_keywords topic) ys).
Proof.
  revert best. induction ys as [| y ys IH]; intros best Hbest.
  - cbn. rewrite Rmax_left; [reflexivity | exact Hbest].
  - cbn [List.fold_left]. rewrite topicDeltaStep_overlap.
    rewrite IH.
    + unfold DeltaSpec.bestOverlap, DeltaSpec.overlaps. cbn [List.map List.fold_right].
      symmetry. apply Rmax_assoc.
    + pose proof (Rmax_l best (DeltaSpec.overlap (topic_keywords topic) (st_keywords y))).
      lra.
Qed.

Lemma calculateTopicDelta_best (topic : Topic) (snapshot : DailySnapshot) :
  calculateTopicDelta topic (Some snapshot)
  = if decide (DeltaSpec.bestOverlap (topic_keywords topic) (snap_topTopics snapshot) < 0.3)%R
    then 1%R else 0%R.
Proof.
  unfold calculateTopicDelta. rewrite topicDelta_loop by lra.
  rewrite Rmax_right by apply bestOverlap_nonneg. reflexivity.
Qed.

(** [bestOverlap] bounds every overlap, and is one of them when yesterday
    had a topic. *)
Lemma bestOverlap_upper (today : list string) (ys : list SnapshotTopic) (y : SnapshotTopic) :
  In y ys -> (DeltaSpec.overlap today (st_keywords y) <= DeltaSpec.bestOverlap today ys)%R.
Proof.
  unfold DeltaSpec.bestOverlap, DeltaSpec.overlaps.
  induction ys as [| z ys IH]; intros Hin; [destruct Hin |].
  cbn [List.map List.fold_right]. destruct Hin as [-> | Hin].
  - apply Rmax_l.
  - eapply Rle_trans; [apply IH, Hin | apply Rmax_r].
Qed.

Lemma bestOverlap_attained (today : list string) (ys : list SnapshotTopic) :
  ys <> [] ->
  exists y, In y ys /\ DeltaSpec.bestOverlap today ys = DeltaSpec.overlap today (st_keywords y).
Proof.
  induction ys as [| z ys IH]; intros Hne; [contradiction |].
  unfold DeltaSpec.bestOverlap, DeltaSpec.overlaps. cbn [List.map List.fold_right].
  fold (DeltaSpec.overlaps today ys). fold (DeltaSpec.bestOverlap today ys).
  destruct ys as [| z' ys'].
  - exists z. split; [left; reflexivity |].
    unfold DeltaSpec.bestOverlap. cbn. apply Rmax_left, overlap_nonneg.
  - destruct (Rle_dec (DeltaSpec.bestOverlap today (z' :: ys'))
                      (DeltaSpec.overlap today (st_keywords z))) as [Hle | Hgt].
    + exists z. split; [left; reflexivity | apply Rmax_left, Hle].
    + destruct IH as (y & Hy & Hbest); [discriminate |].
      exists y. split; [right; exact Hy |].
      rewrite Rmax_right by lra. exact Hbest.
Qed.

Lemma overlap_disjoint (today yesterday : list string) :
  (forall k, In k today -> ~ In k yesterday) ->
  DeltaSpec.overlap today yesterday = 0%R.
Proof.
  intros Hdisj. unfold DeltaSpec.overlap.
  replace (List.filter (fun k => JsArray.includes yesterday k) today) with (@nil string).
  - cbn [length]. unfold Rdiv. change (INR 0) with 0%R. apply Rmult_0_l.
  - symmetry. induction today as [| k ks IH]; [reflexivity |].
    cbn [List.filter]. destruct (JsArray.includes yesterday k) eqn:Hk.
    + apply includes_In in Hk. exfalso. apply (Hdisj k); [left; reflexivity | exact Hk].
    + apply IH. intros k' Hk'. apply Hdisj. right. exact Hk'.
Qed.

Lemma bestOverlap_disjoint (today : list string) (ys : list SnapshotTopic) :
  (forall y k, In y ys -> In k today -> ~ In k (st_keywords y)) ->
  DeltaSpec.bestOverlap today ys = 0%R.
Proof.
  intros Hdisj. unfold DeltaSpec.bestOverlap, DeltaSpec.overlaps.
  induction ys as [| y ys IH]; [reflexivity |].
  cbn [List.map List.fold_right]. rewrite IH.
  - rewrite overlap_disjoint.
    + apply Rmax_left. lra.
    + intros k Hk. apply (Hdisj y k); [left; reflexivity | exact Hk].
  - intros y' k Hy' Hk. apply (Hdisj y' k); [right; exact Hy' | exact Hk].
Qed.

(** For keyword lists without repetition the counted overlap is the size
    of the intersection of the two keyword sets. *)
Lemma overlap_count_intersection (today yesterday : list string) :
  List.NoDup today ->
  length (List.filter (fun k => JsArray.includes yesterday k) today)
  = size ((list_to_set today : gset string) ∩ list_to_set yesterday).
Proof.
  induction 1 as [| k ks Hk Hnd IH]; cbn [List.filter].
  - rewrite list_to_set_nil, intersection_empty_l_L, size_empty. reflexivity.
  - rewrite list_to_set_cons.
    assert (Hfresh : k ∉ (list_to_set ks : gset string))
      by (rewrite elem_of_list_to_set, list_elem_of_In; exact Hk).
    destruct (JsArray.includes yesterday k) eqn:Hin.
    + apply includes_In in Hin.
      assert (Hy : k ∈ (list_to_set yesterday : gset string))
        by (rewrite elem_of_list_to_set, list_elem_of_In; exact Hin).
      replace (({[k]} ∪ list_to_set ks) ∩ list_to_set yesterday : gset string)
        with ({[k]} ∪ (list_to_set ks ∩ list_to_set yesterday) : gset string)
        by set_solver.
      rewrite size_union by set_solver. rewrite size_singleton. cbn [length]. lia.
    + assert (Hy : k ∉ (list_to_set yesterday : gset string)).
      { rewrite elem_of_list_to_set, list_elem_of_In. intros Hc.
        apply includes_In in Hc. congruence. }
      replace (({[k]} ∪ list_to_set ks) ∩ list_to_set yesterday : gset string)
        with (list_to_set ks ∩ list_to_set yesterday : gset string) by set_solver.
      exact IH.
Qed.

(** C6. [calculateTopicDelta] is 0 without a snapshot; with one it is 1
    exactly when the best overlap with yesterday's topics (keyword
    intersection over the longer keyword list, maximised over the topics) is
    below 0.3, and 0 otherwise; a topic that shares no keyword with any of
    yesterday's topics gets 1. *)
Theorem calculateTopicDelta_spec (topic : Topic) :
  calculateTopicDelta topic None = 0%R
  /\ forall snapshot : DailySnapshot,
      let today := topic_keywords topic in
      let yesterday := snap_topTopics snapshot in
      let best := DeltaSpec.bestOverlap today yesterday in
      calculateTopicDelta topic (Some snapshot) = (if decide (best < 0.3)%R then 1%R else 0%R)
      /\ (forall y, In y yesterday -> (DeltaSpec.overlap today (st_keywords y) <= best)%R)
      /\ (yesterday <> [] ->
          exists y, In y yesterday /\ best = DeltaSpec.overlap today (st_keywords y))
      /\ ((forall y k, In y yesterday -> In k today -> ~ In k (st_keywords y)) ->
          calculateTopicDelta topic (Some snapshot) = 1%R).
Proof.
  split; [reflexivity |]. intros snapshot today yesterday best.
  split; [apply calculateTopicDelta_best |].
  split; [intros y Hy; apply bestOverlap_upper, Hy |].
  split; [apply bestOverlap_attained |].
  intros Hdisj. rewrite calculateTopicDelta_best.
  fold today yesterday. rewrite (bestOverlap_disjoint today yesterday Hdisj).
  destruct (decide (0 < 0.3)%R); [reflexivity | lra].
Qed.

Lemma calculateTopicDelta_spec_witness :
  calculateTopicDelta (sampleTopic ["rocket"; "attack"])
    (Some (sampleSnapshot [["market"; "crash"]; ["weather"]])) = 1%R.
Proof.
  apply (proj2 (calculateTopicDelta_spec (sampleTopic ["rocket"; "attack"]))
           (sampleSnapshot [["market"; "crash"]; ["weather"]])).
  intros y k Hy Hk Hin. cbn in Hy, Hk.
  destruct Hy as [<- | [<- | []]]; cbn in Hin;
    destruct Hk as [<- | [<- | []]]; intuition discriminate.
Defined.

(** ** Cosine similarity *)

Lemma cosineSums_from (a b : list R) (d na nb : R) :
  length a = length b ->
  List.fold_left
    (fun (acc : R * R * R) (p : R * R) =>
       let '(dotProduct, normA, normB) := acc in
       let '(ai, bi) := p in
       (dotProduct + ai * bi, normA + ai * ai, normB + bi * bi)%R)
    (combine a b) (d, na, nb)
  = (List.fold_left (fun s (p : R * R) => (s + fst p * snd p)%R) (combine a b) d,
     List.fold_left (fun s x => (s + x * x)%R) a na,
     List.fold_left (fun s x => (s + x * x)%R) b nb).
Proof.
  revert b d na nb. induction a as [| x a IH]; intros [| y b] d na nb Hlen;
    try discriminate; [reflexivity |].
  cbn [combine List.fold_left fst snd]. apply IH. cbn in Hlen. lia.
Qed.

Lemma cosineSums_spec (a b : list R) :
  length a = length b ->
  cosineSums a b = (dotProduct a b, squaredNorm a, squaredNorm b).
Proof. intros Hlen. unfold cosineSums. apply cosineSums_from, Hlen. Qed.

Lemma squaredNorm_from_nonneg (v : list R) (s : R) :
  (0 <= s)%R -> (0 <= List.fold_left (fun s x => (s + x * x)%R) v s)%R.
Proof.
  revert s. induction v as [| x v IH]; intros s Hs; [exact Hs |].
  cbn [List.fold_left]. apply IH. nra.
Qed.

Lemma squaredNorm_nonneg (v : list R) : (0 <= squaredNorm v)%R.
Proof. apply squaredNorm_from_nonneg. lra. Qed.

Lemma norm_product_nonzero (na nb : R) :
  (0 <= na)%R -> (0 <= nb)%R -> na <> 0%R -> nb <> 0%R ->
  (JsMath.sqrt na * JsMath.sqrt nb)%R <> 0%R.
Proof.
  intros Ha Hb Hna Hnb. unfold JsMath.sqrt.
  assert (0 < sqrt na)%R by (apply sqrt_lt_R0; lra).
  assert (0 < sqrt nb)%R by (apply sqrt_lt_R0; lra).
  nra.
Qed.

(** What [cosineSimilarity] returns, case by case. *)
Lemma cosineSimilarity_cases (a b : list R) :
  cosineSimilarity a b =
  if negb (length a =? length b)%nat then Some 0%R
  else if decide (squaredNorm a = 0%R \/ squaredNorm b = 0%R) then Some 0%R
       else Some (dotProduct a b / (JsMath.sqrt (squaredNorm a) * JsMath.sqrt (squaredNorm b)))%R.
Proof.
  unfold cosineSimilarity. destruct (length a =? length b)%nat eqn:Hlen; [| reflexivity].
  apply Nat.eqb_eq in Hlen. cbn [negb]. rewrite (cosineSums_spec a b Hlen).
  destruct (decide (squaredNorm a = 0%R \/ squaredNorm b = 0%R)) as [Hz | Hnz];
    [reflexivity |].
  unfold JsMath.checkedDiv.
  destruct (decide (_ = 0%R)) as [Hdiv | Hdiv]; [| reflexivity].
  exfalso. revert Hdiv. apply norm_product_nonzero.
  - apply squaredNorm_nonneg.
  - apply squaredNorm_nonneg.
  - intros H0. apply Hnz. left. exact H0.
  - intros H0. apply Hnz. right. exact H0.
Qed.

(** C9. [cosineSimilarity] always returns a finite number: it never reaches
    its division with a zero divisor.  When either vector has zero norm the
    result is 0, and when the division is reached (equal lengths, both norms
    nonzero) the divisor is nonzero. *)
Theorem cosineSimilarity_total (a b : list R) :
  (exists r : R, cosineSimilarity a b = Some r)
  /\ (squaredNorm a = 0%R \/ squaredNorm b = 0%R -> cosineSimilarity a b = Some 0%R)
  /\ (length a = length b -> squaredNorm a <> 0%R -> squaredNorm b <> 0%R ->
      (JsMath.sqrt (squaredNorm a) * JsMath.sqrt (squaredNorm b))%R <> 0%R
      /\ cosineSimilarity a b
         = Some (dotProduct a b
                 / (JsMath.sqrt (squaredNorm a) * JsMath.sqrt (squaredNorm b)))%R).
Proof.
  rewrite cosineSimilarity_cases. split; [| split].
  - destruct (negb _); [eexists; reflexivity |].
    destruct (decide _); eexists; reflexivity.
  - intros Hz. destruct (negb _); [reflexivity |].
    destruct (decide _) as [_ | Hnz]; [reflexivity | contradiction].
  - intros Hlen Hna Hnb. split.
    + apply norm_product_nonzero; auto using squaredNorm_nonneg.
    + apply Nat.eqb_eq in Hlen. rewrite Hlen. cbn [negb].
      destruct (decide _) as [[Hz | Hz] | _]; [contradiction | contradiction | reflexivity].
Qed.

Lemma cosineSimilarity_total_witness :
  cosineSimilarity [0; 0]%R [3; 4]%R = Some 0%R
  /\ (JsMath.sqrt (squaredNorm [3; 4]%R) * JsMath.sqrt (squaredNorm [3; 4]%R))%R <> 0%R.
Proof.
  split.
  - apply (proj1 (proj2 (cosineSimilarity_total [0; 0]%R [3; 4]%R))).
    left. unfold squaredNorm. cbn [List.fold_left]. lra.
  - apply (proj2 (proj2 (cosineSimilarity_total [3; 4]%R [3; 4]%R))).
    + reflexivity.
    + unfold squaredNorm. cbn [List.fold_left]. lra.
    + unfold squaredNorm. cbn [List.fold_left]. lra.
Defined.

(** ** The exponential and the recency weight *)

Lemma JsMath_exp_above (x : R) :
  (JsMath.expUnderflow <= x)%R -> JsMath.exp x = Rtrigo_def.exp x.
Proof.
  intros H. unfold JsMath.exp. rewrite decide_False by (apply Rle_not_lt, H). reflexivity.
Qed.

Lemma JsMath_exp_below (x : R) : (x < JsMath.expUnderflow)%R -> JsMath.exp x = 0%R.
Proof. intros H. unfold JsMath.exp. rewrite decide_True by exact H. reflexivity. Qed.

Lemma JsMath_exp_nonneg (x : R) : (0 <= JsMath.exp x)%R.
Proof.
  unfold JsMath.exp. destruct (decide _); [lra | left; apply exp_pos].
Qed.

Lemma JsMath_exp_pos (x : R) : (JsMath.expUnderflow <= x)%R -> (0 < JsMath.exp x)%R.
Proof. intros H. rewrite JsMath_exp_above by exact H. apply exp_pos. Qed.

Lemma JsMath_exp_0 : JsMath.exp 0 = 1%R.
Proof. rewrite JsMath_exp_above by (unfold JsMath.expUnderflow; lra). apply exp_0. Qed.

Lemma JsMath_exp_le (x y : R) : (x <= y)%R -> (JsMath.exp x <= JsMath.exp y)%R.
Proof.
  intros Hxy. unfold JsMath.exp.
  destruct (decide (x < JsMath.expUnderflow)%R) as [Hx | Hx],
           (decide (y < JsMath.expUnderflow)%R) as [Hy | Hy]; try lra.
  - left. apply exp_pos.
  - destruct Hxy as [Hlt | ->]; [left; apply exp_increasing, Hlt | lra].
Qed.

Lemma JsMath_exp_lt (x y : R) :
  (JsMath.expUnderflow <= x)%R -> (x < y)%R -> (JsMath.exp x < JsMath.exp y)%R.
Proof.
  intros Hx Hxy. rewrite !JsMath_exp_above by lra. apply exp_increasing, Hxy.
Qed.

Lemma decay_exponent_mono (k a b h : R) :
  (k < 0)%R -> (0 < h)%R -> (b < a)%R ->
  (k * (a / (1000 * 60 * 60)) / h < k * (b / (1000 * 60 * 60)) / h)%R.
Proof.
  intros Hk Hh Hab.
  assert (Hi : (0 < / h)%R) by (apply Rinv_0_lt_compat, Hh).
  assert (Hpq : (b / (1000 * 60 * 60) < a / (1000 * 60 * 60))%R) by lra.
  generalize dependent (a / (1000 * 60 * 60))%R. intros p Hpq.
  generalize dependent (b / (1000 * 60 * 60))%R. intros q Hpq.
  unfold Rdiv. generalize dependent (/ h)%R. intros u Hu.
  assert (k * p < k * q)%R by nra. nra.
Qed.

Lemma decay_exponent_le (k a b h : R) :
  (k < 0)%R -> (0 < h)%R -> (b <= a)%R ->
  (k * (a / (1000 * 60 * 60)) / h <= k * (b / (1000 * 60 * 60)) / h)%R.
Proof.
  intros Hk Hh [Hlt | ->]; [left; apply decay_exponent_mono; assumption | lra].
Qed.

(** The exponent after at most, and after at least, [n] half-lives. *)
Lemma decay_exponent_within (ageHours h n : R) :
  (0 < h)%R -> (ageHours <= n * h)%R -> (- 0.693 * n <= - 0.693 * ageHours / h)%R.
Proof.
  intros Hh Hle.
  assert (Hq : (ageHours * / h <= n)%R).
  { apply Rmult_le_reg_r with h; [exact Hh |].
    rewrite Rmult_assoc, Rinv_l by lra. lra. }
  unfold Rdiv. rewrite Rmult_assoc. generalize dependent (ageHours * / h)%R. intros q Hq. lra.
Qed.

Lemma decay_exponent_beyond (ageHours h n : R) :
  (0 < h)%R -> (n * h <= ageHours)%R -> (- 0.693 * ageHours / h <= - 0.693 * n)%R.
Proof.
  intros Hh Hle.
  assert (Hq : (n <= ageHours * / h)%R).
  { apply Rmult_le_reg_r with h; [exact Hh |].
    rewrite Rmult_assoc, Rinv_l by lra. lra. }
  unfold Rdiv. rewrite Rmult_assoc. generalize dependent (ageHours * / h)%R. intros q Hq. lra.
Qed.

Lemma recencyWeight_nonneg (now createdAt halfLifeHours : R) :
  (0 <= recencyWeight now createdAt halfLifeHours)%R.
Proof. unfold recencyWeight. apply JsMath_exp_nonneg. Qed.

Lemma recencyWeight_now (now halfLifeHours : R) :
  (0 < halfLifeHours)%R -> recencyWeight now now halfLifeHours = 1%R.
Proof.
  intros Hh. unfold recencyWeight. rewrite <- JsMath_exp_0. f_equal. field. lra.
Qed.

Lemma recencyWeight_older (now createdAt createdAt' halfLifeHours : R) :
  (0 < halfLifeHours)%R -> (createdAt <= createdAt')%R ->
  (recencyWeight now createdAt halfLifeHours <= recencyWeight now createdAt' halfLifeHours)%R.
Proof.
  intros Hh Hle. unfold recencyWeight. apply JsMath_exp_le.
  apply decay_exponent_le; lra.
Qed.


Lemma recencyWeight_past (now createdAt halfLifeHours : R) :
  (0 < halfLifeHours)%R -> (createdAt <= now)%R ->
  (recencyWeight now createdAt halfLifeHours <= 1)%R.
Proof.
  intros Hh Hle. rewrite <- (recencyWeight_now now halfLifeHours Hh).
  apply recencyWeight_older; assumption.
Qed.

Lemma recencyWeight_within (now createdAt halfLifeHours : R) :
  (0 < halfLifeHours)%R ->
  ((now - createdAt) / (1000 * 60 * 60) <= 1000 * halfLifeHours)%R ->
  (JsMath.expUnderflow <= - 0.693 * ((now - createdAt) / (1000 * 60 * 60)) / halfLifeHours)%R.
Proof.
  intros Hh Hage.
  pose proof (decay_exponent_within _ _ _ Hh Hage). unfold JsMath.expUnderflow. lra.
Qed.

Lemma recencyWeight_positive (now createdAt halfLifeHours : R) :
  (0 < halfLifeHours)%R ->
  ((now - createdAt) / (1000 * 60 * 60) <= 1000 * halfLifeHours)%R ->
  (0 < recencyWeight now createdAt halfLifeHours)%R.
Proof.
  intros Hh Hage. unfold recencyWeight. apply JsMath_exp_pos, recencyWeight_within; assumption.
Qed.

Lemma recencyWeight_strict (now createdAt createdAt' halfLifeHours : R) :
  (0 < halfLifeHours)%R ->
  ((now - createdAt) / (1000 * 60 * 60) <= 1000 * halfLifeHours)%R ->
  (createdAt < createdAt')%R ->
  (recencyWeight now createdAt halfLifeHours < recencyWeight now createdAt' halfLifeHours)%R.
Proof.
  intros Hh Hage Hlt. unfold recencyWeight. apply JsMath_exp_lt.
  - apply recencyWeight_within; assumption.
  - apply decay_exponent_mono; lra.
Qed.

Lemma recencyWeight_underflow (now createdAt halfLifeHours : R) :
  (0 < halfLifeHours)%R ->
  (1080 * halfLifeHours <= (now - createdAt) / (1000 * 60 * 60))%R ->
  recencyWeight now createdAt halfLifeHours = 0%R.
Proof.
  intros Hh Hage. unfold recencyWeight. apply JsMath_exp_below.
  pose proof (decay_exponent_beyond _ _ _ Hh Hage). unfold JsMath.expUnderflow. lra.
Qed.

Lemma ln_nonneg (x : R) : (1 <= x)%R -> (0 <= ln x)%R.
Proof.
  intros [Hlt | <-]; [| rewrite ln_1; lra].
  left. rewrite <- ln_1. apply ln_increasing; lra.
Qed.

Lemma ln_le (x y : R) : (0 < x)%R -> (x <= y)%R -> (ln x <= ln y)%R.
Proof.
  intros Hx [Hlt | <-]; [left; apply ln_increasing; assumption | lra].
Qed.

Lemma ln_10_pos : (0 < ln 10)%R.
Proof. rewrite <- ln_1. apply ln_increasing; lra. Qed.

Lemma log10_nonneg (x : R) : (1 <= x)%R -> (0 <= JsMath.log10 x)%R.
Proof.
  intros Hx. unfold JsMath.log10. apply Rmult_le_pos; [apply ln_nonneg, Hx |].
  left. apply Rinv_0_lt_compat, ln_10_pos.
Qed.

Lemma log10_le (x y : R) : (0 < x)%R -> (x <= y)%R -> (JsMath.log10 x <= JsMath.log10 y)%R.
Proof.
  intros Hx Hxy. unfold JsMath.log10. apply Rmult_le_compat_r; [| apply ln_le; assumption].
  left. apply Rinv_0_lt_compat, ln_10_pos.
Qed.

Lemma engagementWeight_nonneg (item : NormalizedItem) :
  (0 <= item_engagement item)%R ->
  (0 <= JsMath.log10 (capEngagement (item_engagement item) defaultEngagementCap + 2))%R.
Proof.
  intros He. apply log10_nonneg.
  unfold capEngagement, JsMath.min, defaultEngagementCap.
  assert (0 <= Rmin (item_engagement item) 1000)%R by (apply Rmin_glb; lra). lra.
Qed.

(** ** Dependence on the clock *)








(** An item older than 270 days has the recency weight 0. *)
Lemma recencyWeight_old (now createdAt : R) :
  (createdAt + 270 * (24 * 60 * 60 * 1000) <= now)%R ->
  recencyWeight now createdAt defaultHalfLifeHours = 0%R.
Proof.
  intros Hold. apply recencyWeight_underflow; unfold defaultHalfLifeHours; lra.
Qed.

Lemma aggregateStep_weightless (now : R) (acc : EmotionDistribution * R)
      (item : NormalizedItem) :
  recencyWeight now (item_createdAt item) defaultHalfLifeHours = 0%R ->
  aggregateStep now acc item = acc.
Proof.
  intros Hz. destruct acc as [w t]. unfold aggregateStep.
  destruct (isMarkedDuplicate item); [reflexivity |].
  rewrite Hz, addWeighted_fields.
  generalize (scoreItemEmotions item)
             (JsMath.log10 (capEngagement (item_engagement item) defaultEngagementCap + 2))
             (relevanceOrDefault item).
  intros ie eng rel. destruct w, ie. dist_fields.
  f_equal; [f_equal; ring | ring].
Qed.

Lemma aggregateEmotions_old (now : R) (items : list NormalizedItem) :
  Forall (fun item => (item_createdAt item + 270 * (24 * 60 * 60 * 1000) <= now)%R) items ->
  aggregateEmotions now items = allNeutral.
Proof.
  intros Hall. unfold aggregateEmotions, aggregateLoop.
  destruct (length items =? 0)%nat; [apply normalizeDistribution_empty |].
  assert (Hloop : forall acc, List.fold_left (aggregateStep now) items acc = acc).
  { induction Hall as [| item items Hold _ IH]; intros acc; [reflexivity |].
    cbn [List.fold_left]. rewrite aggregateStep_weightless by (apply recencyWeight_old, Hold).
    apply IH. }
  rewrite Hloop. rewrite decide_True by reflexivity. apply normalizeDistribution_empty.
Qed.







(** One item whose weight is not zero: the aggregate is its own score. *)
Lemma aggregateEmotions_single (now : R) (item : NormalizedItem) :
  isMarkedDuplicate item = false ->
  (recencyWeight now (item_createdAt item) defaultHalfLifeHours
   * JsMath.log10 (capEngagement (item_engagement item) defaultEngagementCap + 2)
   * relevanceOrDefault item <> 0)%R ->
  aggregateEmotions now [item] = scoreItemEmotions item.
Proof.
  intros Hdup Hw.
  assert (Hloop : aggregateLoop now [item]
                  = (List.fold_left
                       (fun w emotion =>
                          setE w emotion
                            (getE w emotion
                             + getE (scoreItemEmotions item) emotion
                               * (recencyWeight now (item_createdAt item) defaultHalfLifeHours
                                  * JsMath.log10
                                      (capEngagement (item_engagement item) defaultEngagementCap + 2)
                                  * relevanceOrDefault item))%R)
                       EMOTIONS createEmptyDistribution,
                     (0 + recencyWeight now (item_createdAt item) defaultHalfLifeHours
                          * JsMath.log10
                              (capEngagement (item_engagement item) defaultEngagementCap + 2)
                          * relevanceOrDefault item)%R)).
  { unfold aggregateLoop. cbn [List.fold_left]. unfold aggregateStep. rewrite Hdup. reflexivity. }
  revert Hw Hloop.
  generalize (recencyWeight now (item_createdAt item) defaultHalfLifeHours
              * JsMath.log10 (capEngagement (item_engagement item) defaultEngagementCap + 2)
              * relevanceOrDefault item)%R.
  intros weight Hw Hloop.
  rewrite aggregateEmotions_average by (rewrite Hloop; cbn [snd]; lra).
  rewrite Hloop, addWeighted_fields.
  generalize (scoreItemEmotions item). intros ie. destruct ie.
  replace createEmptyDistribution with (Build_EmotionDistribution 0 0 0 0 0 0 0 0)
    by reflexivity.
  dist_fields. f_equal; field; lra.
Qed.

(** The aggregate of one and the same item at its creation time, and 270
    days later. *)
Example aggregateEmotions_clock_example :
  aggregateEmotions 0 [nothingNewItem] = Build_EmotionDistribution 0 0 0 0 0 0 1 0
  /\ aggregateEmotions 23328000000 [nothingNewItem] = allNeutral.
Proof.
  split.
  - rewrite aggregateEmotions_single; [apply nothingNewItem_score | reflexivity |].
    unfold nothingNewItem, mockItem, relevanceOrDefault.
    cbn [item_createdAt item_engagement item_relevanceScore].
    rewrite recencyWeight_now by (unfold defaultHalfLifeHours; lra).
    pose proof (engagementWeight_nonneg nothingNewItem) as H.
    assert (0 < JsMath.log10 (capEngagement 10 defaultEngagementCap + 2))%R.
    { unfold capEngagement, defaultEngagementCap, JsMath.min, JsMath.log10.
      rewrite Rmin_left by lra.
      apply Rmult_lt_0_compat; [| apply Rinv_0_lt_compat, ln_10_pos].
      rewrite <- ln_1. apply ln_increasing; lra. }
    nra.
  - apply aggregateEmotions_old. apply List.Forall_cons; [| apply List.Forall_nil].
    unfold nothingNewItem, mockItem. cbn [item_createdAt]. lra.
Qed.

(** ** Pairwise similarity *)

Lemma jaccard_of_sizes (a b : gset string) (i u : nat) :
  size (a ∩ b) = i -> size (a ∪ b) = u -> (0 < u)%nat ->
  jaccardSimilarity a b = (INR i / INR u)%R.
Proof.
  intros Hi Hu Hpos. unfold jaccardSimilarity. rewrite Hi, Hu.
  destruct (size a =? 0)%nat eqn:Ha; [| reflexivity].
  destruct (size b =? 0)%nat eqn:Hb; [| reflexivity].
  apply Nat.eqb_eq in Ha, Hb. apply size_empty_inv in Ha, Hb.
  apply leibniz_equiv in Ha, Hb. subst a b.
  rewrite union_empty_l_L, size_empty in Hu. lia.
Qed.

Lemma stormTitles_jaccard :
  jaccardSimilarity (tokenize (item_title stormShort)) (tokenize (item_title stormLong))
  = (1 / 4)%R.
Proof.
  rewrite (jaccard_of_sizes _ _ 4 16).
  - cbn [INR]. lra.
  - vm_compute. reflexivity.
  - vm_compute. reflexivity.
  - lia.
Qed.

(** C8, as stated (a title of at least 20 characters): refuted by a title
    of exactly 20 characters that starts the other title, with different
    normalised URLs; the similarity is the title Jaccard value 1/4, whatever
    the entity patterns match. *)
Lemma substring_heuristic_counterexample :
  normalizeUrl SimpleUrl.parse (item_url stormShort)
  <> normalizeUrl SimpleUrl.parse (item_url stormLong)
  /\ String.length (JsString.toLowerCase (item_title stormShort)) = 20%nat
  /\ JsString.startsWith (JsString.toLowerCase (item_title stormLong))
       (JsString.toLowerCase (item_title stormShort)) = true
  /\ forall matchAll,
      calculateSimilarity SimpleUrl.parse matchAll stormShort stormLong = (1 / 4)%R
      /\ (calculateSimilarity SimpleUrl.parse matchAll stormShort stormLong < 0.85)%R.
Proof.
  split; [vm_compute; discriminate |].
  split; [vm_compute; reflexivity |].
  split; [vm_compute; reflexivity |].
  intros matchAll. unfold calculateSimilarity.
  replace (sameNormalizedUrl SimpleUrl.parse stormShort stormLong) with false
    by (vm_compute; reflexivity).
  replace (hasSubstringMatch stormShort stormLong) with false by (vm_compute; reflexivity).
  rewrite stormTitles_jaccard. settle_comparisons. cbn [andb]. settle_comparisons.
  split; [reflexivity | lra].
Qed.

Section SimilarityFacts.
Variable parseURL : string -> option URL.
Variable matchAll : EntityPattern -> string -> list string.

Lemma different_urls_not_same (a b : NormalizedItem) :
  normalizeUrl parseURL (item_url a) <> normalizeUrl parseURL (item_url b) ->
  sameNormalizedUrl parseURL a b = false.
Proof.
  intros Hne. unfold sameNormalizedUrl.
  destruct (String.eqb _ _) eqn:Heq.
  - apply String.eqb_eq in Heq. contradiction.
  - rewrite !andb_false_r. reflexivity.
Qed.

Lemma hasSubstringMatch_iff (a b : NormalizedItem) :
  hasSubstringMatch a b = true <->
  let titleALower := JsString.toLowerCase (item_title a) in
  let titleBLower := JsString.toLowerCase (item_title b) in
  ((20 < String.length titleALower)%nat
   /\ JsString.includes titleBLower (JsString.take 30 titleALower) = true)
  \/ ((20 < String.length titleBLower)%nat
      /\ JsString.includes titleALower (JsString.take 30 titleBLower) = true).
Proof.
  unfold hasSubstringMatch. cbv zeta.
  rewrite orb_true_iff, !andb_true_iff, !Nat.ltb_lt. reflexivity.
Qed.

Lemma calculateSimilarity_substring (a b : NormalizedItem) :
  hasSubstringMatch a b = true ->
  (calculateSimilarity parseURL matchAll a b >= 0.85)%R
  /\ (sameNormalizedUrl parseURL a b = false ->
      calculateSimilarity parseURL matchAll a b
      = Rmax (jaccardSimilarity (tokenize (item_title a)) (tokenize (item_title b))) 0.85).
Proof.
  intros Hsub. unfold calculateSimilarity. rewrite Hsub. unfold JsMath.max.
  destruct (sameNormalizedUrl parseURL a b).
  - split; [lra | discriminate].
  - split; [| reflexivity].
    apply Rle_ge, Rmax_r.
Qed.

End SimilarityFacts.

(** C8, amended.  When one lower-cased title has more than 20 characters and
    its first 30 characters occur in the other lower-cased title,
    [calculateSimilarity] returns at least 0.85; for items whose normalised
    URLs differ it returns the title Jaccard value floored at 0.85. *)
Theorem substring_heuristic_floor
        (parseURL : string -> option URL)
        (matchAll : EntityPattern -> string -> list string)
        (a b : NormalizedItem) :
  let titleALower := JsString.toLowerCase (item_title a) in
  let titleBLower := JsString.toLowerCase (item_title b) in
  ((20 < String.length titleALower)%nat
   /\ JsString.includes titleBLower (JsString.take 30 titleALower) = true)
  \/ ((20 < String.length titleBLower)%nat
      /\ JsString.includes titleALower (JsString.take 30 titleBLower) = true) ->
  (calculateSimilarity parseURL matchAll a b >= 0.85)%R
  /\ (normalizeUrl parseURL (item_url a) <> normalizeUrl parseURL (item_url b) ->
      calculateSimilarity parseURL matchAll a b
      = Rmax (jaccardSimilarity (tokenize (item_title a)) (tokenize (item_title b))) 0.85).
Proof.
  intros titleALower titleBLower Hmatch.
  apply hasSubstringMatch_iff in Hmatch.
  destruct (calculateSimilarity_substring parseURL matchAll a b Hmatch) as [Hfloor Hexact].
  split; [exact Hfloor |].
  intros Hne. apply Hexact, different_urls_not_same, Hne.
Qed.

Lemma substring_heuristic_floor_witness :
  (calculateSimilarity SimpleUrl.parse noEntityMatches coastShort coastLong >= 0.85)%R.
Proof.
  refine (proj1 (substring_heuristic_floor SimpleUrl.parse noEntityMatches
                   coastShort coastLong _)).
  left. split; [vm_compute; lia | vm_compute; reflexivity].
Defined.

(** ** Sorting *)

Section SortFacts.
Context {A : Type}.
Variable compareFn : A -> A -> R.


Lemma sort_sorted_id (l : list A) :
  StronglySorted (mayPrecede compareFn) l -> JsArray.sort compareFn l = l.
Proof.
  induction 1 as [| x l Hsorted IH Hall]; [reflexivity |].
  cbn [JsArray.sort]. rewrite IH.
  destruct l as [| y l']; [reflexivity |].
  cbn [JsArray.insertSorted]. inversion Hall as [| ? ? Hxy _]; subst.
  unfold mayPrecede in Hxy.
  destruct (decide (compareFn x y <= 0)%R); [reflexivity | contradiction].
Qed.

Hypothesis compare_total : forall x y, mayPrecede compareFn x y \/ mayPrecede compareFn y x.
Hypothesis compare_trans : forall x y z, mayPrecede compareFn x y -> mayPrecede compareFn y z -> mayPrecede compareFn x z.

Lemma insertSorted_Forall (P : A -> Prop) (x : A) (l : list A) :
  P x -> Forall P l -> Forall P (JsArray.insertSorted compareFn x l).
Proof.
  intros Hx. induction 1 as [| y l Hy Hl IH]; cbn [JsArray.insertSorted].
  - constructor; [exact Hx | constructor].
  - destruct (decide (compareFn x y <= 0)%R).
    + constructor; [exact Hx |]. constructor; assumption.
    + constructor; assumption.
Qed.

Lemma insertSorted_sorted (x : A) (l : list A) :
  StronglySorted (mayPrecede compareFn) l -> StronglySorted (mayPrecede compareFn) (JsArray.insertSorted compareFn x l).
Proof.
  induction 1 as [| y l Hsorted IH Hall]; cbn [JsArray.insertSorted].
  - constructor; constructor.
  - destruct (decide (compareFn x y <= 0)%R) as [Hxy | Hnxy].
    + constructor.
      * constructor; assumption.
      * constructor; [exact Hxy |].
        eapply List.Forall_impl; [| exact Hall]. intros z Hyz. cbn beta in Hyz.
        eapply compare_trans; eassumption.
    + constructor; [exact IH |].
      apply insertSorted_Forall; [| exact Hall].
      destruct (compare_total x y) as [Hc | Hc]; [contradiction | exact Hc].
Qed.

Lemma sort_sorted (l : list A) : StronglySorted (mayPrecede compareFn) (JsArray.sort compareFn l).
Proof.
  induction l as [| x l IH]; cbn [JsArray.sort]; [constructor |].
  apply insertSorted_sorted, IH.
Qed.

Lemma insertSorted_Permutation (x : A) (l : list A) :
  Permutation (x :: l) (JsArray.insertSorted compareFn x l).
Proof.
  induction l as [| y l IH]; cbn [JsArray.insertSorted]; [reflexivity |].
  destruct (decide (compareFn x y <= 0)%R); [reflexivity |].
  rewrite perm_swap. apply perm_skip, IH.
Qed.

Lemma sort_Permutation (l : list A) : Permutation l (JsArray.sort compareFn l).
Proof.
  induction l as [| x l IH]; cbn [JsArray.sort]; [reflexivity |].
  rewrite <- insertSorted_Permutation. apply perm_skip, IH.
Qed.

End SortFacts.

Lemma sublist_sorted {A : Type} (before : A -> A -> Prop) (k l : list A) :
  sublist k l -> StronglySorted before l -> StronglySorted before k.
Proof.
  induction 1 as [| x k l Hsub IH | x k l Hsub IH]; intros Hsorted.
  - constructor.
  - inversion Hsorted as [| ? ? Hl Hall]; subst. constructor; [apply IH, Hl |].
    rewrite Forall_forall in Hall |- *. intros y Hy. apply Hall.
    eapply elem_of_sublist; eassumption.
  - inversion Hsorted; subst. apply IH. assumption.
Qed.

Lemma byEngagementDesc_total (x y : NormalizedItem) :
  mayPrecede byEngagementDesc x y \/ mayPrecede byEngagementDesc y x.
Proof. unfold mayPrecede, byEngagementDesc. lra. Qed.

Lemma byEngagementDesc_trans (x y z : NormalizedItem) :
  mayPrecede byEngagementDesc x y -> mayPrecede byEngagementDesc y z ->
  mayPrecede byEngagementDesc x z.
Proof. unfold mayPrecede, byEngagementDesc. lra. Qed.

(** ** Deduplication *)

Section DedupFacts.
Variable parseURL : string -> option URL.
Variable matchAll : EntityPattern -> string -> list string.
Variable similarityThreshold : R.


(** A turn of the loop either leaves the state alone or appends the item. *)
Lemma dedupStep_cases (unique : list NormalizedItem) (seenUrls : gset string)
      (item : NormalizedItem) :
  (dedupStep parseURL matchAll similarityThreshold) (unique, seenUrls) item = (unique, seenUrls)
  \/ exists seenUrls', (dedupStep parseURL matchAll similarityThreshold) (unique, seenUrls) item = (unique ++ [item], seenUrls').
Proof.
  unfold dedupStep.
  destruct (negb (JsString.isEmpty _) && bool_decide _); [left; reflexivity |].
  destruct (negb (existsb _ unique)); [right; eexists; reflexivity | left; reflexivity].
Qed.

(** Running the loop over what it kept, from the same start, keeps all of it
    and ends in the same state. *)
Lemma dedupLoop_rerun (items unique : list NormalizedItem) (seenUrls : gset string) :
  exists kept,
    sublist kept items
    /\ fst (List.fold_left (dedupStep parseURL matchAll similarityThreshold) items (unique, seenUrls)) = unique ++ kept
    /\ List.fold_left (dedupStep parseURL matchAll similarityThreshold) kept (unique, seenUrls)
       = List.fold_left (dedupStep parseURL matchAll similarityThreshold) items (unique, seenUrls).
Proof.
  revert unique seenUrls. induction items as [| item items IH]; intros unique seenUrls.
  - exists []. cbn. rewrite app_nil_r. repeat split. constructor.
  - cbn [List.fold_left].
    destruct (dedupStep_cases unique seenUrls item) as [Hskip | [seenUrls' Hkeep]].
    + rewrite Hskip. destruct (IH unique seenUrls) as (kept & Hsub & Hfst & Hrun).
      exists kept. split; [apply sublist_cons, Hsub |]. split; assumption.
    + rewrite Hkeep. destruct (IH (unique ++ [item]) seenUrls') as (kept & Hsub & Hfst & Hrun).
      exists (item :: kept). split; [apply sublist_skip, Hsub |]. split.
      * rewrite Hfst, <- app_assoc. reflexivity.
      * cbn [List.fold_left]. rewrite Hkeep. exact Hrun.
Qed.

Lemma deduplicateItems_sorted (items : list NormalizedItem) :
  StronglySorted (mayPrecede byEngagementDesc)
    (deduplicateItems parseURL matchAll items similarityThreshold)
  /\ sublist (deduplicateItems parseURL matchAll items similarityThreshold)
       (JsArray.sort byEngagementDesc items).
Proof.
  unfold deduplicateItems.
  destruct (dedupLoop_rerun (JsArray.sort byEngagementDesc items) [] ∅)
    as (kept & Hsub & Hfst & _).
  rewrite Hfst. cbn [app]. split; [| exact Hsub].
  eapply sublist_sorted; [exact Hsub |].
  apply sort_sorted; [apply byEngagementDesc_total | apply byEngagementDesc_trans].
Qed.

End DedupFacts.

(** C3. Deduplication is idempotent: for every list of items and every
    threshold, [deduplicateItems] applied to its own output returns that
    output, element for element and in the same order. *)
Theorem deduplicateItems_twice
        (parseURL : string -> option URL)
        (matchAll : EntityPattern -> string -> list string)
        (items : list NormalizedItem) (similarityThreshold : R) :
  deduplicateItems parseURL matchAll
    (deduplicateItems parseURL matchAll items similarityThreshold) similarityThreshold
  = deduplicateItems parseURL matchAll items similarityThreshold.
Proof.
  destruct (deduplicateItems_sorted parseURL matchAll similarityThreshold items)
    as [Hsorted _].
  unfold deduplicateItems at 1. rewrite (sort_sorted_id _ _ Hsorted).
  unfold deduplicateItems.
  destruct (dedupLoop_rerun parseURL matchAll similarityThreshold
              (JsArray.sort byEngagementDesc items) [] ∅)
    as (kept & _ & Hfst & Hrun).
  rewrite Hfst. cbn [app]. rewrite Hrun, Hfst. reflexivity.
Qed.

Example sort_variants :
  JsArray.sort byEngagementDesc [variantA; variantB; variantC]
  = [variantB; variantC; variantA].
Proof.
  cbn [JsArray.sort JsArray.insertSorted].
  repeat (settle_order; cbn [JsArray.insertSorted]).
  reflexivity.
Qed.

(** Scenario B: three spellings of one URL normalise to the same key, and
    the item with the highest engagement survives. *)
Example deduplicateItems_url_variants (matchAll : EntityPattern -> string -> list string) :
  deduplicateItems SimpleUrl.parse matchAll [variantA; variantB; variantC]
    defaultDedupThreshold
  = [variantB].
Proof.
  unfold deduplicateItems. rewrite sort_variants.
  cbn [List.fold_left]. unfold dedupStep at 3.
  replace (dedupUrlKey SimpleUrl.parse variantB) with "example.com/a"
    by (vm_compute; reflexivity).
  rewrite (bool_decide_eq_false_2 ("example.com/a" ∈ (∅ : gset string))) by set_solver.
  cbn [JsString.isEmpty negb andb existsb app].
  unfold dedupStep at 2.
  replace (dedupUrlKey SimpleUrl.parse variantC) with "example.com/a"
    by (vm_compute; reflexivity).
  rewrite (bool_decide_eq_true_2 ("example.com/a" ∈ (∅ ∪ {["example.com/a"]} : gset string)))
    by set_solver.
  cbn [JsString.isEmpty negb andb].
  unfold dedupStep.
  replace (dedupUrlKey SimpleUrl.parse variantA) with "example.com/a"
    by (vm_compute; reflexivity).
  rewrite (bool_decide_eq_true_2 ("example.com/a" ∈ (∅ ∪ {["example.com/a"]} : gset string)))
    by set_solver.
  reflexivity.
Qed.

(** ** Greedy clustering *)

Section ClusterFacts.
Variable vectors : list DocumentVector.
Variable similarityThreshold : R.


Lemma vectorsAt_cons (j : nat) (v : DocumentVector) (indices : list nat) :
  vectors !! j = Some v -> vectorsAt vectors (j :: indices) = v :: vectorsAt vectors indices.
Proof. intros Hj. unfold vectorsAt. cbn [omap list_omap]. rewrite Hj. reflexivity. Qed.

Lemma vectorsAt_concat (indexClusters : list (list nat)) :
  concat (List.map (vectorsAt vectors) indexClusters) = vectorsAt vectors (concat indexClusters).
Proof.
  induction indexClusters as [| c cs IH]; [reflexivity |].
  cbn [List.map concat]. rewrite IH. unfold vectorsAt. rewrite omap_app. reflexivity.
Qed.

(** The inner loop adds, after the seed, vectors at fresh indices of its
    range, each similar enough to the seed. *)
Lemma clusterInner_spec (seed : DocumentVector) (js : list nat)
      (cluster : list DocumentVector) (assigned : gset nat) :
  exists added : list nat,
    List.fold_left (clusterInnerStep vectors similarityThreshold seed) js (cluster, assigned)
    = (cluster ++ vectorsAt vectors added, assigned ∪ list_to_set added)
    /\ NoDup added
    /\ Forall (fun j => (j ∈ js) /\ (j ∉ assigned) /\ (j < length vectors)%nat) added
    /\ Forall (fun v => similarEnough similarityThreshold seed v = true) (vectorsAt vectors added).
Proof.
  revert cluster assigned. induction js as [| j js IH]; intros cluster assigned.
  - exists []. cbn. rewrite app_nil_r, union_empty_r_L.
    repeat split; constructor.
  - cbn [List.fold_left]. unfold clusterInnerStep at 2.
    assert (Hskip :
      (exists added : list nat,
          List.fold_left (clusterInnerStep vectors similarityThreshold seed) js
            (cluster, assigned)
          = (cluster ++ vectorsAt vectors added, assigned ∪ list_to_set added)
          /\ NoDup added
          /\ Forall (fun j' => (j' ∈ j :: js) /\ (j' ∉ assigned) /\ (j' < length vectors)%nat) added
          /\ Forall (fun v => similarEnough similarityThreshold seed v = true) (vectorsAt vectors added))).
    { destruct (IH cluster assigned) as (added & Hrun & Hnd & Hall & Hsim).
      exists added. repeat split; try assumption.
      eapply List.Forall_impl; [| exact Hall]. intros j' (Hin & Hout & Hlt).
      repeat split; try assumption. right. exact Hin. }
    destruct (bool_decide (j ∈ assigned)) eqn:Hj; [exact Hskip |].
    apply bool_decide_eq_false in Hj.
    destruct (vectors !! j) as [vj |] eqn:Hvj; [| exact Hskip].
    destruct (similarEnough similarityThreshold seed vj) eqn:Hsimj; [| exact Hskip].
    destruct (IH (cluster ++ [vj]) (assigned ∪ {[ j ]})) as (added & Hrun & Hnd & Hall & Hsim).
    exists (j :: added). rewrite Hrun, (vectorsAt_cons j vj added Hvj).
    rewrite Forall_forall in Hall.
    split; [| split; [| split]].
    + f_equal; [rewrite <- app_assoc; reflexivity |].
      rewrite list_to_set_cons. set_solver.
    + apply NoDup_cons. split; [| exact Hnd].
      intros Hin. destruct (Hall j Hin) as (_ & Hout & _). set_solver.
    + constructor.
      * repeat split; [left | exact Hj | eapply lookup_lt_Some; exact Hvj].
      * apply Forall_forall. intros j' Hj'. destruct (Hall j' Hj') as (Hin & Hout & Hlt).
        repeat split; [right; exact Hin | set_solver | exact Hlt].
    + constructor; assumption.
Qed.

(** The outer loop appends clusters over fresh indices and assigns every
    index of its range. *)
Lemma clusterOuter_spec (range : list nat) (clusters : list (list DocumentVector))
      (assigned : gset nat) :
  exists indexClusters : list (list nat),
    List.fold_left (clusterOuterStep vectors similarityThreshold) range (clusters, assigned)
    = (clusters ++ List.map (vectorsAt vectors) indexClusters,
       assigned ∪ list_to_set (concat indexClusters))
    /\ NoDup (concat indexClusters)
    /\ Forall (fun j => (j ∉ assigned) /\ (j < length vectors)%nat) (concat indexClusters)
    /\ (forall i, i ∈ range -> (i < length vectors)%nat ->
                  i ∈ assigned ∪ list_to_set (concat indexClusters))
    /\ Forall seedFirst indexClusters
    /\ Forall (gatheredAroundSeed similarityThreshold) (List.map (vectorsAt vectors) indexClusters).
Proof.
  revert clusters assigned. induction range as [| i range IH]; intros clusters assigned.
  - exists []. cbn. rewrite app_nil_r, union_empty_r_L.
    repeat split; try constructor. intros i Hi. inversion Hi.
  - cbn [List.fold_left]. unfold clusterOuterStep at 2.
    destruct (bool_decide (i ∈ assigned)) eqn:Hi.
    { apply bool_decide_eq_true in Hi.
      destruct (IH clusters assigned) as (ics & Hrun & Hnd & Hall & Hcover & Hseed & Hsim).
      exists ics. repeat split; try assumption.
      intros i' Hi' Hlt. apply elem_of_cons in Hi' as [-> | Hi']; [set_solver | auto]. }
    apply bool_decide_eq_false in Hi.
    destruct (vectors !! i) as [vi |] eqn:Hvi.
    2: { destruct (IH clusters assigned) as (ics & Hrun & Hnd & Hall & Hcover & Hseed & Hsim).
         exists ics. repeat split; try assumption.
         intros i' Hi' Hlt. apply elem_of_cons in Hi' as [-> | Hi']; [| auto].
         apply lookup_ge_None in Hvi. lia. }
    destruct (clusterInner_spec vi (seq (i + 1) (length vectors - (i + 1))) [vi]
                (assigned ∪ {[ i ]})) as (added & Hinner & Hnda & Halla & Hsima).
    rewrite Hinner.
    destruct (IH (clusters ++ [[vi] ++ vectorsAt vectors added])
                (assigned ∪ {[ i ]} ∪ list_to_set added))
      as (ics & Hrun & Hnd & Hall & Hcover & Hseed & Hsim).
    exists ((i :: added) :: ics). rewrite Hrun.
    rewrite Forall_forall in Halla, Hall.
    cbn [List.map concat]. rewrite (vectorsAt_cons i vi added Hvi).
    split; [| split; [| split; [| split; [| split]]]].
    + f_equal; [rewrite <- app_assoc; reflexivity |].
      rewrite list_to_set_app_L, list_to_set_cons. set_solver.
    + cbn [app]. apply NoDup_cons. split.
      * intros Hin. apply elem_of_app in Hin as [Hin | Hin].
        -- destruct (Halla i Hin) as (_ & Hout & _). set_solver.
        -- destruct (Hall i Hin) as (Hout & _). set_solver.
      * apply NoDup_app. split; [exact Hnda |]. split; [| exact Hnd].
        intros j Hj Hj'. destruct (Hall j Hj') as (Hout & _). set_solver.
    + apply Forall_forall. intros j Hj. cbn [app] in Hj.
      apply elem_of_cons in Hj as [-> | Hj].
      * split; [exact Hi | eapply lookup_lt_Some; exact Hvi].
      * apply elem_of_app in Hj as [Hj | Hj].
        -- destruct (Halla j Hj) as (_ & Hout & Hlt). split; [set_solver | exact Hlt].
        -- destruct (Hall j Hj) as (Hout & Hlt). split; [set_solver | exact Hlt].
    + intros i' Hi' Hlt. rewrite list_to_set_app_L, list_to_set_cons.
      apply elem_of_cons in Hi' as [-> | Hi']; [set_solver |].
      specialize (Hcover i' Hi' Hlt). set_solver.
    + constructor; [| exact Hseed].
      exists i, added. split; [reflexivity |].
      apply Forall_forall. intros j Hj. destruct (Halla j Hj) as (Hin & _).
      apply elem_of_seq in Hin. lia.
    + constructor; [| exact Hsim].
      exists vi, (vectorsAt vectors added). split; [reflexivity | exact Hsima].
Qed.

Lemma vectorsAt_all_from (before : list DocumentVector) (rest : list DocumentVector) :
  omap (fun j => (before ++ rest) !! j) (seq (length before) (length rest)) = rest.
Proof.
  revert before. induction rest as [| v rest IH]; intros before; [reflexivity |].
  cbn [length seq omap list_omap].
  rewrite list_lookup_middle by reflexivity.
  f_equal. specialize (IH (before ++ [v])).
  rewrite <- app_assoc, length_app in IH. cbn [length app] in IH.
  replace (length before + 1)%nat with (S (length before)) in IH by lia. exact IH.
Qed.

Lemma vectorsAt_all : vectorsAt vectors (seq 0 (length vectors)) = vectors.
Proof. apply (vectorsAt_all_from [] vectors). Qed.

Lemma clusterBySimilarity_indices :
  exists indexClusters : list (list nat),
    clusterBySimilarity vectors similarityThreshold = List.map (vectorsAt vectors) indexClusters
    /\ Permutation (concat indexClusters) (seq 0 (length vectors))
    /\ Forall seedFirst indexClusters
    /\ Forall (gatheredAroundSeed similarityThreshold) (List.map (vectorsAt vectors) indexClusters).
Proof.
  destruct (clusterOuter_spec (seq 0 (length vectors)) [] ∅)
    as (ics & Hrun & Hnd & Hall & Hcover & Hseed & Hsim).
  exists ics. unfold clusterBySimilarity. rewrite Hrun. cbn [fst app].
  split; [reflexivity |]. split; [| split; assumption].
  apply NoDup_Permutation; [exact Hnd | apply NoDup_seq |].
  intros j. rewrite elem_of_seq. rewrite Forall_forall in Hall. split.
  - intros Hj. destruct (Hall j Hj) as (_ & Hlt). lia.
  - intros [_ Hlt]. cbn in Hlt.
    assert (Hin : j ∈ seq 0 (length vectors)) by (apply elem_of_seq; lia).
    specialize (Hcover j Hin Hlt). set_solver.
Qed.

End ClusterFacts.

(** C10. [clusterBySimilarity] partitions its input.  The clusters are the
    vectors at lists of indices that, put end to end, hold every index of the
    input exactly once; so the clusters put end to end are a rearrangement of
    the input.  Each cluster is its seed followed by vectors at later indices,
    each similar enough to the seed. *)
Theorem clusterBySimilarity_partition (vectors : list DocumentVector)
        (similarityThreshold : R) :
  (exists indexClusters : list (list nat),
      clusterBySimilarity vectors similarityThreshold
      = List.map (vectorsAt vectors) indexClusters
      /\ Permutation (concat indexClusters) (seq 0 (length vectors))
      /\ Forall seedFirst indexClusters)
  /\ Permutation (concat (clusterBySimilarity vectors similarityThreshold)) vectors
  /\ Forall (gatheredAroundSeed similarityThreshold)
       (clusterBySimilarity vectors similarityThreshold).
Proof.
  destruct (clusterBySimilarity_indices vectors similarityThreshold)
    as (ics & Heq & Hperm & Hseed & Hsim).
  split; [exists ics; repeat split; assumption |].
  rewrite Heq. split; [| exact Hsim].
  rewrite vectorsAt_concat. unfold vectorsAt at 1. rewrite Hperm.
  apply Permutation_refl'. apply vectorsAt_all.
Qed.

(** ** Topics *)

Lemma slice0_length_le {A : Type} (l : list A) (end_ : Z) :
  (0 <= end_)%Z -> (Z.of_nat (length (JsArray.slice0 l end_)) <= end_)%Z.
Proof.
  intros Hend. unfold JsArray.slice0.
  destruct (end_ <? 0)%Z eqn:Hneg; [apply Z.ltb_lt in Hneg; lia |].
  pose proof (firstn_le_length (Z.to_nat (Z.min end_ (Z.of_nat (length l)))) l). lia.
Qed.

Lemma slice0_In {A : Type} (l : list A) (end_ : Z) (x : A) :
  In x (JsArray.slice0 l end_) -> In x l.
Proof.
  unfold JsArray.slice0. intros Hin.
  rewrite <- (firstn_skipn (Z.to_nat (if (end_ <? 0)%Z
                                      then Z.max (Z.of_nat (length l) + end_) 0
                                      else Z.min end_ (Z.of_nat (length l)))) l).
  apply in_or_app. left. exact Hin.
Qed.

Lemma sort_In {A : Type} (compareFn : A -> A -> R) (l : list A) (x : A) :
  In x (JsArray.sort compareFn l) -> In x l.
Proof.
  apply Permutation_in. symmetry. apply sort_Permutation.
Qed.

Lemma map_fst_combine {A B : Type} (l : list A) (k : list B) :
  length l = length k -> List.map fst (combine l k) = l.
Proof.
  revert k. induction l as [| x l IH]; intros [| y k] Hlen; try discriminate; [reflexivity |].
  cbn [combine List.map fst]. f_equal. apply IH. cbn in Hlen. lia.
Qed.

Lemma createTFIDFVectors_items (items : list NormalizedItem) :
  List.map dv_item (createTFIDFVectors items) = items.
Proof.
  unfold createTFIDFVectors. rewrite List.map_map.
  erewrite List.map_ext.
  - apply map_fst_combine. rewrite List.length_map. reflexivity.
  - intros [item tf]. reflexivity.
Qed.

Lemma clusterBySimilarity_Permutation (vectors : list DocumentVector) (threshold : R) :
  Permutation (concat (clusterBySimilarity vectors threshold)) vectors.
Proof.
  destruct (clusterBySimilarity_indices vectors threshold) as (ics & Heq & Hperm & _ & _).
  rewrite Heq, vectorsAt_concat. unfold vectorsAt at 1. rewrite Hperm.
  apply Permutation_refl'. apply vectorsAt_all.
Qed.

Section TopicFacts.
Variable sha256Hex : string -> string.
Variable now : R.

(** A ranked cluster is large enough and made of the items it was given. *)
Lemma rankedClusters_members (uniqueItems : list NormalizedItem) (maxTopics minClusterSize : Z)
      (cluster : Cluster) :
  In cluster (rankedClusters now uniqueItems maxTopics minClusterSize) ->
  (minClusterSize <= Z.of_nat (length (cluster_items cluster)))%Z
  /\ forall item, In item (cluster_items cluster) -> In item uniqueItems.
Proof.
  unfold rankedClusters. intros Hin.
  apply slice0_In, sort_In, List.in_map_iff in Hin. destruct Hin as (raw & <- & Hraw).
  apply List.filter_In in Hraw. destruct Hraw as [Hraw Hsize].
  apply Z.leb_le in Hsize. cbn [describeCluster cluster_items].
  rewrite List.length_map. split; [exact Hsize |].
  intros item Hitem. apply List.in_map_iff in Hitem. destruct Hitem as (v & <- & Hv).
  rewrite <- (createTFIDFVectors_items uniqueItems). apply List.in_map.
  eapply Permutation_in; [apply clusterBySimilarity_Permutation |].
  apply List.in_concat. exists raw. split; eassumption.
Qed.

Lemma clusterIntoTopics_no_unique (items : list NormalizedItem) (maxTopics minClusterSize : Z) :
  Forall (fun item => isMarkedDuplicate item = true) items ->
  clusterIntoTopics sha256Hex now items maxTopics minClusterSize = [].
Proof.
  intros Hall. unfold clusterIntoTopics.
  replace (List.filter (fun item => negb (isMarkedDuplicate item)) items) with (@nil NormalizedItem);
    [reflexivity |].
  induction Hall as [| item items Hdup _ IH]; [reflexivity |].
  cbn [List.filter]. rewrite Hdup. exact IH.
Qed.

Lemma clusterIntoTopics_length (items : list NormalizedItem) (maxTopics minClusterSize : Z) :
  (0 <= maxTopics)%Z ->
  (Z.of_nat (length (clusterIntoTopics sha256Hex now items maxTopics minClusterSize))
   <= maxTopics)%Z.
Proof.
  intros Hmax. unfold clusterIntoTopics.
  destruct (length _ =? 0)%nat; [cbn; lia |].
  rewrite List.length_map. unfold rankedClusters. apply slice0_length_le, Hmax.
Qed.

Lemma clusterIntoTopics_clusters (items : list NormalizedItem) (maxTopics minClusterSize : Z) :
  exists clusters : list Cluster,
    clusterIntoTopics sha256Hex now items maxTopics minClusterSize
    = List.map (clusterToTopic sha256Hex) clusters
    /\ Forall
         (fun cluster =>
            (minClusterSize <= Z.of_nat (length (cluster_items cluster)))%Z
            /\ forall item, In item (cluster_items cluster) ->
                            In item items /\ isMarkedDuplicate item = false)
         clusters.
Proof.
  unfold clusterIntoTopics.
  destruct (length _ =? 0)%nat; [exists []; split; [reflexivity | constructor] |].
  eexists. split; [reflexivity |].
  apply List.Forall_forall. intros cluster Hin.
  apply rankedClusters_members in Hin. destruct Hin as [Hsize Hitems].
  split; [exact Hsize |]. intros item Hitem.
  apply Hitems, List.filter_In in Hitem. destruct Hitem as [Hitem Hdup].
  split; [exact Hitem |]. apply negb_true_iff. exact Hdup.
Qed.

End TopicFacts.

(** *** A negative [maxTopics] *)

Lemma slice0_length {A : Type} (l : list A) (end_ : Z) :
  Z.of_nat (length (JsArray.slice0 l end_))
  = (if (end_ <? 0)%Z then Z.max (Z.of_nat (length l) + end_) 0
     else Z.min end_ (Z.of_nat (length l)))%Z.
Proof.
  unfold JsArray.slice0. rewrite List.length_firstn.
  destruct (end_ <? 0)%Z eqn:Hneg; [apply Z.ltb_lt in Hneg | apply Z.ltb_ge in Hneg]; lia.
Qed.

Lemma sort_length {A : Type} (compareFn : A -> A -> R) (l : list A) :
  length (JsArray.sort compareFn l) = length l.
Proof. symmetry. apply Permutation_length, sort_Permutation. Qed.

Lemma calculateTF_no_terms (text : string) :
  extractTerms text = [] -> calculateTF text = JsObject.empty.
Proof. intros Hterms. unfold calculateTF. rewrite Hterms. reflexivity. Qed.

Lemma questions_vectors :
  createTFIDFVectors [questionOne; questionTwo]
  = [ {| dv_item := questionOne; dv_vector := []; dv_terms := [] |};
      {| dv_item := questionTwo; dv_vector := []; dv_terms := [] |} ].
Proof.
  unfold createTFIDFVectors. cbn [List.map].
  rewrite !calculateTF_no_terms by (vm_compute; reflexivity).
  reflexivity.
Qed.

Lemma similarEnough_no_terms (threshold : R) (u v : DocumentVector) :
  dv_vector u = [] -> dv_vector v = [] -> (0 < threshold)%R ->
  similarEnough threshold u v = false.
Proof.
  intros Hu Hv Hpos. unfold similarEnough. rewrite Hu, Hv, cosineSimilarity_cases.
  cbn [length Nat.eqb negb].
  destruct (decide (squaredNorm [] = 0%R \/ squaredNorm [] = 0%R)) as [_ | Hnz].
  - apply bool_decide_eq_false_2. lra.
  - exfalso. apply Hnz. left. reflexivity.
Qed.

(** Two vectors that are not similar enough end up in a cluster each. *)
Lemma clusterBySimilarity_two_apart (threshold : R) (u v : DocumentVector) :
  similarEnough threshold u v = false ->
  clusterBySimilarity [u; v] threshold = [[u]; [v]].
Proof.
  intros Hapart. unfold clusterBySimilarity. cbn [length seq List.fold_left].
  unfold clusterOuterStep at 2.
  rewrite (bool_decide_eq_false_2 (0%nat ∈ (∅ : gset nat))) by set_solver.
  cbn [lookup list_lookup length Nat.add Nat.sub seq List.fold_left].
  unfold clusterInnerStep.
  rewrite (bool_decide_eq_false_2 (1%nat ∈ (∅ ∪ {[0%nat]} : gset nat))) by set_solver.
  cbn [lookup list_lookup]. rewrite Hapart.
  unfold clusterOuterStep.
  rewrite (bool_decide_eq_false_2 (1%nat ∈ (∅ ∪ {[0%nat]} : gset nat))) by set_solver.
  cbn [lookup list_lookup length Nat.add Nat.sub seq List.fold_left fst app].
  reflexivity.
Qed.

(** With [maxTopics = -1] and [minClusterSize = 1], two unrelated items yield
    one topic: [slice(0, -1)] only drops the last of the two clusters. *)
Lemma clusterIntoTopics_minus_one (sha256Hex : string -> string) (now : R) :
  length (clusterIntoTopics sha256Hex now [questionOne; questionTwo] (-1) 1) = 1%nat.
Proof.
  unfold clusterIntoTopics. cbn [List.filter isMarkedDuplicate questionOne questionTwo
    mockItem item_duplicateOf negb length Nat.eqb].
  rewrite List.length_map. unfold rankedClusters.
  apply Nat2Z.inj. rewrite slice0_length, sort_length, List.length_map.
  rewrite questions_vectors.
  rewrite clusterBySimilarity_two_apart
    by (apply similarEnough_no_terms; [reflexivity | reflexivity | cbn; lra]).
  reflexivity.
Qed.

(** C7.  [clusterIntoTopics] returns no topic for an empty list and for a
    list whose items are all marked [duplicateOf]; it returns at most
    [maxTopics] topics, [maxTopics] being a count (12 by default) and so not
    negative; and every topic it returns is built from a cluster of at least
    [minClusterSize] items, all of them unmarked items of the input. *)
Theorem clusterIntoTopics_bounds
        (sha256Hex : string -> string) (now : R)
        (items : list NormalizedItem) (maxTopics minClusterSize : Z) :
  clusterIntoTopics sha256Hex now [] maxTopics minClusterSize = []
  /\ (Forall (fun item => isMarkedDuplicate item = true) items ->
      clusterIntoTopics sha256Hex now items maxTopics minClusterSize = [])
  /\ ((0 <= maxTopics)%Z ->
      (Z.of_nat (length (clusterIntoTopics sha256Hex now items maxTopics minClusterSize))
       <= maxTopics)%Z)
  /\ exists clusters : list Cluster,
      clusterIntoTopics sha256Hex now items maxTopics minClusterSize
      = List.map (clusterToTopic sha256Hex) clusters
      /\ Forall
           (fun cluster =>
              (minClusterSize <= Z.of_nat (length (cluster_items cluster)))%Z
              /\ forall item, In item (cluster_items cluster) ->
                              In item items /\ isMarkedDuplicate item = false)
           clusters.
Proof.
  split; [reflexivity |].
  split; [apply clusterIntoTopics_no_unique |].
  split; [apply clusterIntoTopics_length | apply clusterIntoTopics_clusters].
Qed.

(** * Further properties of the code *)

(** ** Range and monotonicity of the tension index *)

Lemma Int_part_mono (x y : R) : (x <= y)%R -> (Int_part x <= Int_part y)%Z.
Proof.
  intros Hxy.
  destruct (Z_le_gt_dec (Int_part x) (Int_part y)) as [Hle | Hgt]; [exact Hle | exfalso].
  assert (Hz : (Int_part y + 1 <= Int_part x)%Z) by lia.
  apply IZR_le in Hz. rewrite plus_IZR in Hz.
  pose proof (base_Int_part x) as [Hx _].
  pose proof (base_Int_part y) as [_ Hy].
  lra.
Qed.

Lemma round_mono (x y : R) : (x <= y)%R -> (JsMath.round x <= JsMath.round y)%R.
Proof.
  intros Hxy. unfold JsMath.round. apply IZR_le, Int_part_mono. lra.
Qed.

Lemma round_zero : JsMath.round 0 = 0%R.
Proof. exact (round_integer 0). Qed.

Lemma round_nonneg (x : R) : (0 <= x)%R -> (0 <= JsMath.round x)%R.
Proof. intros Hx. rewrite <- round_zero. apply round_mono, Hx. Qed.

Lemma tensionWith_range (weights : EmotionWeights) (e : EmotionDistribution) :
  (0 <= tensionWith weights e <= 100)%R /\ exists z : Z, tensionWith weights e = IZR z.
Proof.
  unfold tensionWith, JsMath.min, JsMath.max.
  set (t := Rmax 0 _).
  assert (Ht : (0 <= t)%R) by apply Rmax_l.
  assert (Hr : (0 <= JsMath.round (t * 100))%R) by (apply round_nonneg; nra).
  split.
  - split; [apply Rmin_glb; lra | apply Rmin_l].
  - unfold Rmin. destruct (Rle_dec 100 (JsMath.round (t * 100))).
    + exists 100%Z. reflexivity.
    + eexists. unfold JsMath.round. reflexivity.
Qed.

Lemma Rmin_mono_r (c x y : R) : (x <= y)%R -> (Rmin c x <= Rmin c y)%R.
Proof. intros H. apply Rmin_glb; [apply Rmin_l | pose proof (Rmin_r c x); lra]. Qed.

Lemma Rmax_mono_r (c x y : R) : (x <= y)%R -> (Rmax c x <= Rmax c y)%R.
Proof. intros H. apply Rmax_lub; [apply Rmax_l | pose proof (Rmax_r c y); lra]. Qed.

Lemma tension_without_negative (e : EmotionDistribution) :
  d_anger e = 0%R -> d_anxiety e = 0%R -> d_sadness e = 0%R -> d_cynicism e = 0%R ->
  (0 <= d_resilience e)%R -> (0 <= d_hope e)%R -> (0 <= d_excitement e)%R ->
  calculateTensionIndex e = 0%R.
Proof.
  intros Ha Hx Hs Hc Hr Hh Hex.
  unfold calculateTensionIndex, tensionWith, JsMath.min, JsMath.max.
  rewrite Ha, Hx, Hs, Hc.
  cbn [EMOTION_WEIGHTS negative positive positiveReductionFactor
       w_anger w_anxiety w_sadness w_cynicism w_resilience w_hope w_excitement].
  rewrite Rmax_left by lra.
  rewrite Rmult_0_l, round_zero. apply Rmin_right. lra.
Qed.

Lemma ratio_nonneg (a n : nat) : (0 <= INR a / INR n)%R.
Proof.
  destruct n as [| n].
  - cbn [INR]. unfold Rdiv. rewrite Rinv_0. lra.
  - apply Rmult_le_pos; [apply pos_INR |].
    left. apply Rinv_0_lt_compat, lt_0_INR. lia.
Qed.

(** X1. The tension index is an integer between 0 and 100 for every
    distribution, so the mood score of an item, [100 - tension], is an
    integer between 0 and 100 as well; an item in which no keyword of a
    negative emotion (anger, anxiety, sadness, cynicism) occurs has the mood
    score 100. *)
Theorem calculateItemMoodScore_range (item : NormalizedItem) :
  (forall e : EmotionDistribution,
      (0 <= calculateTensionIndex e <= 100)%R
      /\ exists z : Z, calculateTensionIndex e = IZR z)
  /\ (0 <= calculateItemMoodScore item <= 100)%R
  /\ (exists z : Z, calculateItemMoodScore item = IZR z)
  /\ (let text := EmotionSpec.spaced item in
      EmotionSpec.count text anger = 0%nat -> EmotionSpec.count text anxiety = 0%nat ->
      EmotionSpec.count text sadness = 0%nat -> EmotionSpec.count text cynicism = 0%nat ->
      calculateItemMoodScore item = 100%R).
Proof.
  split; [intros e; apply tensionWith_range |].
  unfold calculateItemMoodScore.
  destruct (tensionWith_range EMOTION_WEIGHTS (scoreItemEmotions item)) as [Hrange [z Hz]].
  fold (calculateTensionIndex (scoreItemEmotions item)) in Hrange, Hz.
  split; [lra |]. split.
  - exists (100 - z)%Z. rewrite Hz, minus_IZR. reflexivity.
  - cbv zeta. intros Ha Hx Hs Hc. set (text := EmotionSpec.spaced item) in *.
    rewrite tension_without_negative; [lra | | | | | | |];
      rewrite scoreItemEmotions_spec; fold text; unfold EmotionSpec.score;
      destruct (EmotionSpec.total text =? 0)%nat;
      rewrite ?allNeutral_fields; cbn [d_anger d_anxiety d_sadness d_cynicism d_resilience
                                         d_hope d_excitement];
      rewrite ?Ha, ?Hx, ?Hs, ?Hc; cbn [INR];
      try lra; try (unfold Rdiv; apply Rmult_0_l); apply ratio_nonneg.
Qed.

(** X2. The tension index never falls when the share of a negative emotion
    (anger, anxiety, sadness, cynicism) grows and the share of no positive
    emotion (resilience, hope, excitement) grows; the neutral share has no
    influence. *)
Theorem calculateTensionIndex_monotone (e e' : EmotionDistribution) :
  (d_anger e <= d_anger e')%R -> (d_anxiety e <= d_anxiety e')%R ->
  (d_sadness e <= d_sadness e')%R -> (d_cynicism e <= d_cynicism e')%R ->
  (d_resilience e' <= d_resilience e)%R -> (d_hope e' <= d_hope e)%R ->
  (d_excitement e' <= d_excitement e)%R ->
  (calculateTensionIndex e <= calculateTensionIndex e')%R.
Proof.
  intros Ha Hx Hs Hc Hr Hh Hex.
  unfold calculateTensionIndex, tensionWith, JsMath.min, JsMath.max.
  apply Rmin_mono_r, round_mono.
  apply Rmult_le_compat_r; [lra |].
  apply Rmax_mono_r.
  cbn [EMOTION_WEIGHTS negative positive positiveReductionFactor
       w_anger w_anxiety w_sadness w_cynicism w_resilience w_hope w_excitement].
  lra.
Qed.

Lemma calculateTensionIndex_monotone_witness :
  (calculateTensionIndex allNeutral <= calculateTensionIndex onlyAnger)%R.
Proof.
  apply calculateTensionIndex_monotone;
    rewrite allNeutral_fields, onlyAnger_fields; cbn; lra.
Defined.

(** ** The dominant emotion *)

Lemma dominant_loop (dist : EmotionDistribution) (l : list Emotion) (m0 : Emotion) (v0 : R) :
  let result := List.fold_left (dominantStep dist) l (m0, v0) in
  (forall e, In e l -> (getE dist e <= snd result)%R)
  /\ ((result = (m0, v0) /\ forall e, In e l -> (getE dist e <= v0)%R)
      \/ exists pre suf,
          l = pre ++ fst result :: suf
          /\ snd result = getE dist (fst result)
          /\ (v0 < snd result)%R
          /\ forall e, In e pre -> (getE dist e < snd result)%R).
Proof.
  revert m0 v0. induction l as [| x l IH]; intros m0 v0 result.
  - split; [intros e [] | left; split; [reflexivity | intros e []]].
  - subst result. cbn [List.fold_left].
    destruct (decide (getE dist x > v0)%R) as [Hgt | Hle].
    + replace (dominantStep dist (m0, v0) x) with (x, getE dist x)
        by (unfold dominantStep; cbn [snd]; rewrite decide_True by exact Hgt; reflexivity).
      specialize (IH x (getE dist x)). cbv zeta in IH.
      destruct IH as [Hall Hcase].
      set (result := List.fold_left (dominantStep dist) l (x, getE dist x)) in *.
      assert (Hx : (getE dist x <= snd result)%R).
      { destruct Hcase as [[Heq _] | (pre & suf & _ & _ & Hlt & _)].
        - rewrite Heq. cbn. lra.
        - lra. }
      split.
      * intros e [<- | He]; [exact Hx | apply Hall, He].
      * right. destruct Hcase as [[Heq Hrest] | (pre & suf & Hl & Hv & Hlt & Hpre)].
        -- exists [], l. rewrite Heq. cbn. repeat split; [lra | intros e []].
        -- exists (x :: pre), suf. rewrite Hl at 1. repeat split; [exact Hv | lra |].
           intros e [<- | He]; [lra | apply Hpre, He].
    + replace (dominantStep dist (m0, v0) x) with (m0, v0)
        by (unfold dominantStep; cbn [snd]; rewrite decide_False by exact Hle; reflexivity).
      apply Rnot_gt_le in Hle. specialize (IH m0 v0). cbv zeta in IH.
      destruct IH as [Hall Hcase].
      set (result := List.fold_left (dominantStep dist) l (m0, v0)) in *.
      assert (Hv0 : (v0 <= snd result)%R).
      { destruct Hcase as [[Heq _] | (pre & suf & _ & _ & Hlt & _)].
        - rewrite Heq. cbn. lra.
        - lra. }
      split.
      * intros e [<- | He]; [lra | apply Hall, He].
      * destruct Hcase as [[Heq Hrest] | (pre & suf & Hl & Hv & Hlt & Hpre)].
        -- left. split; [exact Heq |]. intros e [<- | He]; [lra | apply Hrest, He].
        -- right. exists (x :: pre), suf. rewrite Hl at 1. repeat split; [exact Hv | lra |].
           intros e [<- | He]; [lra | apply Hpre, He].
Qed.

Lemma In_EMOTIONS (e : Emotion) : In e EMOTIONS.
Proof. destruct e; cbn; tauto. Qed.

(** X3. [getDominantEmotion] returns an emotion of maximal share when some
    share is positive, the first such emotion in the order of [EMOTIONS];
    when no share is positive it returns [neutral]. *)
Theorem getDominantEmotion_spec (dist : EmotionDistribution) :
  let dominant := getDominantEmotion dist in
  ((forall e, getE dist e <= 0)%R -> dominant = neutral)
  /\ ((exists e, 0 < getE dist e)%R ->
      (0 < getE dist dominant)%R
      /\ (forall e, getE dist e <= getE dist dominant)%R
      /\ exists earlier later,
          EMOTIONS = earlier ++ dominant :: later
          /\ forall e, In e earlier -> (getE dist e < getE dist dominant)%R).
Proof.
  intros dominant. subst dominant. unfold getDominantEmotion.
  pose proof (dominant_loop dist EMOTIONS neutral 0) as H. cbv zeta in H.
  set (result := List.fold_left (dominantStep dist) EMOTIONS (neutral, 0%R)) in *.
  destruct H as [Hall Hcase]. split.
  - intros Hnone.
    destruct Hcase as [[Heq _] | (pre & suf & Hl & Hv & Hlt & _)]; [rewrite Heq; reflexivity |].
    specialize (Hnone (fst result)). lra.
  - intros [e He].
    destruct Hcase as [[_ Hrest] | (pre & suf & Hl & Hv & Hlt & Hpre)].
    + specialize (Hrest e (In_EMOTIONS e)). lra.
    + rewrite <- Hv. split; [exact Hlt |]. split.
      * intros e'. apply Hall, In_EMOTIONS.
      * exists pre, suf. split; [exact Hl | exact Hpre].
Qed.

(** ** Day-over-day emotion deltas *)

Lemma orZero_id (x : R) : orZero x = x.
Proof. unfold orZero. destruct (decide (x = 0%R)) as [-> |]; reflexivity. Qed.

Lemma getEmotionDeltas_fields (current : EmotionDistribution) (snapshot : DailySnapshot) :
  getEmotionDeltas current (Some snapshot)
  = Build_EmotionDistribution
      (d_anger current - d_anger (snap_emotions snapshot))
      (d_anxiety current - d_anxiety (snap_emotions snapshot))
      (d_sadness current - d_sadness (snap_emotions snapshot))
      (d_resilience current - d_resilience (snap_emotions snapshot))
      (d_hope current - d_hope (snap_emotions snapshot))
      (d_excitement current - d_excitement (snap_emotions snapshot))
      (d_cynicism current - d_cynicism (snap_emotions snapshot))
      (d_neutral current - d_neutral (snap_emotions snapshot)).
Proof.
  unfold getEmotionDeltas. cbn [List.fold_left EMOTIONS createEmptyDistribution].
  rewrite !orZero_id. reflexivity.
Qed.

(** X4. The two delta functions agree: per emotion, the delta is today's
    share minus yesterday's (so yesterday's share plus the delta gives
    today's), all deltas are 0 without a snapshot, [calculateEmotionDeltas]
    lists in the order of [EMOTIONS] the values that [getEmotionDeltas]
    stores, and the deltas of two distributions that each sum to 1 sum
    to 0. *)
Theorem emotionDeltas_spec (current : EmotionDistribution) (snapshot : DailySnapshot) :
  (forall e, getE (getEmotionDeltas current None) e = 0%R)
  /\ (forall e,
         (getE (snap_emotions snapshot) e + getE (getEmotionDeltas current (Some snapshot)) e)%R
         = getE current e)
  /\ List.map ewd_delta (calculateEmotionDeltas current (Some (snap_emotions snapshot)))
     = distValues (getEmotionDeltas current (Some snapshot))
  /\ List.map ewd_delta (calculateEmotionDeltas current None)
     = distValues (getEmotionDeltas current None)
  /\ List.map ewd_value (calculateEmotionDeltas current (Some (snap_emotions snapshot)))
     = distValues current
  /\ (distSum current = 1%R -> distSum (snap_emotions snapshot) = 1%R ->
      distSum (getEmotionDeltas current (Some snapshot)) = 0%R).
Proof.
  split; [intros e; destruct e; reflexivity |].
  split; [intros e; rewrite getEmotionDeltas_fields; destruct e; dist_fields; lra |].
  split; [rewrite getEmotionDeltas_fields; reflexivity |].
  split; [reflexivity |].
  split; [reflexivity |].
  rewrite !distSum_fields, getEmotionDeltas_fields. dist_fields. lra.
Qed.

(** ** The aggregate depends neither on the order of the items nor on
       marked duplicates *)

Lemma aggregateStep_marked (now : R) (acc : EmotionDistribution * R) (item : NormalizedItem) :
  isMarkedDuplicate item = true -> aggregateStep now acc item = acc.
Proof. intros H. unfold aggregateStep. destruct acc. rewrite H. reflexivity. Qed.

Lemma addWeighted_comm (w e1 e2 : EmotionDistribution) (w1 w2 : R) :
  List.fold_left
    (fun w emotion => setE w emotion (getE w emotion + getE e2 emotion * w2)%R) EMOTIONS
    (List.fold_left
       (fun w emotion => setE w emotion (getE w emotion + getE e1 emotion * w1)%R) EMOTIONS w)
  = List.fold_left
      (fun w emotion => setE w emotion (getE w emotion + getE e1 emotion * w1)%R) EMOTIONS
      (List.fold_left
         (fun w emotion => setE w emotion (getE w emotion + getE e2 emotion * w2)%R) EMOTIONS w).
Proof.
  rewrite !addWeighted_fields. dist_fields. f_equal; ring.
Qed.

Lemma aggregateStep_comm (now : R) (acc : EmotionDistribution * R) (x y : NormalizedItem) :
  aggregateStep now (aggregateStep now acc x) y = aggregateStep now (aggregateStep now acc y) x.
Proof.
  destruct acc as [w t]. unfold aggregateStep.
  destruct (isMarkedDuplicate x) eqn:Hx, (isMarkedDuplicate y) eqn:Hy;
    rewrite ?Hx, ?Hy; try reflexivity.
  generalize (scoreItemEmotions x) (scoreItemEmotions y).
  generalize (recencyWeight now (item_createdAt x) defaultHalfLifeHours
              * JsMath.log10 (capEngagement (item_engagement x) defaultEngagementCap + 2)
              * relevanceOrDefault x)%R.
  generalize (recencyWeight now (item_createdAt y) defaultHalfLifeHours
              * JsMath.log10 (capEngagement (item_engagement y) defaultEngagementCap + 2)
              * relevanceOrDefault y)%R.
  intros wy wx ex ey. cbv zeta.
  f_equal; [apply addWeighted_comm | ring].
Qed.

Lemma fold_left_Permutation {A B : Type} (f : A -> B -> A) (l l' : list B) :
  (forall acc x y, f (f acc x) y = f (f acc y) x) ->
  Permutation l l' -> forall acc, List.fold_left f l acc = List.fold_left f l' acc.
Proof.
  intros Hcomm Hperm. induction Hperm as [| x l l' _ IH | x y l | l l' l'' _ IH1 _ IH2];
    intros acc; cbn [List.fold_left].
  - reflexivity.
  - apply IH.
  - rewrite Hcomm. reflexivity.
  - rewrite IH1. apply IH2.
Qed.

Lemma aggregateLoop_unmarked (now : R) (items : list NormalizedItem)
      (acc : EmotionDistribution * R) :
  List.fold_left (aggregateStep now) items acc
  = List.fold_left (aggregateStep now)
      (List.filter (fun item => negb (isMarkedDuplicate item)) items) acc.
Proof.
  revert acc. induction items as [| item items IH]; intros acc; [reflexivity |].
  cbn [List.fold_left List.filter].
  destruct (isMarkedDuplicate item) eqn:Hm; cbn [negb List.fold_left].
  - rewrite aggregateStep_marked by exact Hm. apply IH.
  - apply IH.
Qed.

Lemma aggregateEmotions_of_loop (now : R) (items : list NormalizedItem) :
  aggregateEmotions now items
  = let '(weighted, totalWeight) := aggregateLoop now items in
    if decide (totalWeight = 0%R) then normalizeDistribution createEmptyDistribution
    else
      normalizeDistribution
        (List.fold_left
           (fun w emotion => setE w emotion (getE w emotion / totalWeight)%R)
           EMOTIONS weighted).
Proof.
  unfold aggregateEmotions. destruct items as [| item items]; [| reflexivity].
  cbn [length Nat.eqb]. unfold aggregateLoop. cbn [List.fold_left].
  rewrite decide_True by reflexivity. reflexivity.
Qed.

Lemma aggregateEmotions_Permutation_unmarked (now : R) (items items' : list NormalizedItem) :
  Permutation (List.filter (fun item => negb (isMarkedDuplicate item)) items)
              (List.filter (fun item => negb (isMarkedDuplicate item)) items') ->
  aggregateEmotions now items = aggregateEmotions now items'.
Proof.
  intros Hperm. rewrite !aggregateEmotions_of_loop. unfold aggregateLoop.
  rewrite (aggregateLoop_unmarked now items), (aggregateLoop_unmarked now items').
  rewrite (fold_left_Permutation (aggregateStep now) _ _ (aggregateStep_comm now) Hperm).
  reflexivity.
Qed.

Lemma filter_filter_same {A : Type} (p : A -> bool) (l : list A) :
  List.filter p (List.filter p l) = List.filter p l.
Proof.
  induction l as [| x l IH]; [reflexivity |]. cbn [List.filter].
  destruct (p x) eqn:Hp; [cbn [List.filter]; rewrite Hp, IH; reflexivity | exact IH].
Qed.

Lemma filter_Permutation {A : Type} (p : A -> bool) (l l' : list A) :
  Permutation l l' -> Permutation (List.filter p l) (List.filter p l').
Proof.
  induction 1 as [| x l l' _ IH | x y l | l l' l'' _ IH1 _ IH2]; cbn [List.filter].
  - constructor.
  - destruct (p x); [constructor |]; exact IH.
  - destruct (p x), (p y); try reflexivity. constructor.
  - etransitivity; eassumption.
Qed.

(** X5. The aggregate distribution of a list of items depends only on the
    items that are not marked as duplicates, and not on their order: leaving
    the marked items out, or rearranging the list, does not change it. *)
Theorem aggregateEmotions_order_and_duplicates (now : R) (items : list NormalizedItem) :
  aggregateEmotions now (List.filter (fun item => negb (isMarkedDuplicate item)) items)
  = aggregateEmotions now items
  /\ forall items' : list NormalizedItem,
      Permutation items items' -> aggregateEmotions now items' = aggregateEmotions now items.
Proof.
  split.
  - apply aggregateEmotions_Permutation_unmarked. rewrite filter_filter_same. reflexivity.
  - intros items' Hperm. apply aggregateEmotions_Permutation_unmarked.
    apply filter_Permutation. symmetry. exact Hperm.
Qed.

(** ** Moods per country *)

Lemma JsMap_get_set {V : Type} (m : list (string * V)) (k k' : string) (v : V) :
  JsMap.get (JsMap.set m k v) k' = if String.eqb k' k then Some v else JsMap.get m k'.
Proof.
  induction m as [| [k0 v0] m IH]; cbn [JsMap.set JsMap.get].
  - destruct (String.eqb k' k); reflexivity.
  - destruct (String.eqb k k0) eqn:Hk; cbn [JsMap.get].
    + apply String.eqb_eq in Hk. subst k0. destruct (String.eqb k' k); reflexivity.
    + rewrite IH. destruct (String.eqb k' k0) eqn:Hk0; [| reflexivity].
      apply String.eqb_eq in Hk0. subst k0.
      destruct (String.eqb k' k) eqn:Hk'; [| reflexivity].
      apply String.eqb_eq in Hk'. subst k'. rewrite String.eqb_refl in Hk. discriminate.
Qed.

Lemma JsMap_get_None {V : Type} (m : list (string * V)) (k : string) :
  JsMap.get m k = None <-> ~ In k (List.map fst m).
Proof.
  induction m as [| [k0 v0] m IH]; cbn [JsMap.get List.map fst In]; [tauto |].
  destruct (String.eqb k k0) eqn:Hk.
  - apply String.eqb_eq in Hk. subst k0. split; [discriminate | tauto].
  - apply String.eqb_neq in Hk. rewrite IH. split; [intros H [E | H']; congruence | tauto].
Qed.

Lemma JsMap_get_In {V : Type} (m : list (string * V)) (k : string) (v : V) :
  List.NoDup (List.map fst m) -> In (k, v) m -> JsMap.get m k = Some v.
Proof.
  induction m as [| [k0 v0] m IH]; cbn [JsMap.get List.map fst In]; [tauto |].
  intros Hnd [E | Hin].
  - injection E as -> ->. rewrite String.eqb_refl. reflexivity.
  - apply List.NoDup_cons_iff in Hnd as [Hk0 Hnd].
    destruct (String.eqb k k0) eqn:Hk.
    + apply String.eqb_eq in Hk. subst k0. exfalso. apply Hk0.
      apply (List.in_map fst) in Hin. exact Hin.
    + apply IH; assumption.
Qed.

Lemma JsMap_keys_set {V : Type} (m : list (string * V)) (k : string) (v : V) :
  List.map fst (JsMap.set m k v)
  = match JsMap.get m k with
    | Some _ => List.map fst m
    | None => List.map fst m ++ [k]
    end.
Proof.
  induction m as [| [k0 v0] m IH]; cbn [JsMap.set JsMap.get List.map fst]; [reflexivity |].
  destruct (String.eqb k k0) eqn:Hk; cbn [List.map fst].
  - apply String.eqb_eq in Hk. subst k0. reflexivity.
  - rewrite IH. destruct (JsMap.get m k); reflexivity.
Qed.

Lemma JsMap_set_NoDup {V : Type} (m : list (string * V)) (k : string) (v : V) :
  List.NoDup (List.map fst m) -> List.NoDup (List.map fst (JsMap.set m k v)).
Proof.
  intros Hnd. rewrite JsMap_keys_set. destruct (JsMap.get m k) eqn:Hget; [exact Hnd |].
  apply JsMap_get_None in Hget.
  apply NoDup_ListNoDup, NoDup_app. repeat split.
  - apply NoDup_ListNoDup, Hnd.
  - intros x Hx Hk. apply list_elem_of_singleton in Hk. subst x.
    apply Hget, list_elem_of_In, Hx.
  - apply NoDup_singleton.
Qed.

Lemma countsFor_other (item : NormalizedItem) (c c' : string) :
  countryOf item = Some c -> c' <> c -> countsFor c' item = false.
Proof.
  intros Hc Hne. unfold countsFor. rewrite Hc.
  rewrite bool_decide_eq_false_2 by congruence. apply andb_false_r.
Qed.

Lemma countsFor_none (item : NormalizedItem) (c : string) :
  isMarkedDuplicate item = true \/ countryOf item = None -> countsFor c item = false.
Proof.
  intros [Hm | Hn]; unfold countsFor; [rewrite Hm; reflexivity |].
  rewrite Hn. rewrite bool_decide_eq_false_2 by congruence. apply andb_false_r.
Qed.

(** The entry of a country in the map, in terms of the items seen so far. *)
Lemma groupByCountry_loop (items seen : list NormalizedItem)
      (byCountry : list (string * list NormalizedItem)) :
  List.NoDup (List.map fst byCountry) ->
  (forall c, JsMap.get byCountry c
             = match List.filter (countsFor c) seen with
               | [] => None
               | found => Some found
               end) ->
  let result := List.fold_left groupByCountryStep items byCountry in
  List.NoDup (List.map fst result)
  /\ forall c, JsMap.get result c
               = match List.filter (countsFor c) (seen ++ items) with
                 | [] => None
                 | found => Some found
                 end.
Proof.
  revert seen byCountry. induction items as [| item items IH]; intros seen byCountry Hnd Hget.
  - cbn [List.fold_left]. rewrite app_nil_r. split; assumption.
  - cbn [List.fold_left].
    replace (seen ++ item :: items) with ((seen ++ [item]) ++ items)
      by (rewrite <- app_assoc; reflexivity).
    apply IH.
    + unfold groupByCountryStep. destruct (isMarkedDuplicate item); [exact Hnd |].
      destruct (countryOf item); [apply JsMap_set_NoDup, Hnd | exact Hnd].
    + intros c. rewrite List.filter_app. cbn [List.filter].
      unfold groupByCountryStep.
      destruct (isMarkedDuplicate item) eqn:Hm.
      { rewrite (countsFor_none item c) by (left; exact Hm). rewrite app_nil_r. apply Hget. }
      destruct (countryOf item) as [country |] eqn:Hc.
      2: { rewrite (countsFor_none item c) by (right; exact Hc). rewrite app_nil_r. apply Hget. }
      rewrite JsMap_get_set. destruct (String.eqb c country) eqn:Heq.
      * apply String.eqb_eq in Heq. subst c.
        assert (Hcounts : countsFor country item = true).
        { unfold countsFor. rewrite Hm, Hc. rewrite bool_decide_eq_true_2 by reflexivity.
          reflexivity. }
        rewrite Hcounts, (Hget country).
        destruct (List.filter (countsFor country) seen) as [| y found]; reflexivity.
      * apply String.eqb_neq in Heq.
        rewrite (countsFor_other item country c Hc Heq). rewrite app_nil_r. apply Hget.
Qed.

Lemma groupByCountry_spec (items : list NormalizedItem) :
  let byCountry := List.fold_left groupByCountryStep items [] in
  List.NoDup (List.map fst byCountry)
  /\ (forall c found, In (c, found) byCountry ->
                      found = List.filter (countsFor c) items /\ found <> [])
  /\ (forall item c, In item items -> countsFor c item = true ->
                     In c (List.map fst byCountry)).
Proof.
  intros byCountry.
  destruct (groupByCountry_loop items [] []) as [Hnd Hget];
    [constructor | intros c; reflexivity |].
  cbn [app] in Hget. fold byCountry in Hnd, Hget.
  split; [exact Hnd |]. split.
  - intros c found Hin. pose proof (JsMap_get_In _ _ _ Hnd Hin) as Hc.
    rewrite Hget in Hc. destruct (List.filter (countsFor c) items) as [| y l]; [discriminate |].
    injection Hc as <-. split; [reflexivity | discriminate].
  - intros item c Hin Hcounts.
    destruct (List.in_dec String.string_dec c (List.map fst byCountry)) as [Hyes | Hno];
      [exact Hyes | exfalso].
    apply JsMap_get_None in Hno. rewrite Hget in Hno.
    assert (Hf : In item (List.filter (countsFor c) items))
      by (apply List.filter_In; split; assumption).
    destruct (List.filter (countsFor c) items); [destruct Hf | discriminate].
Qed.

Lemma byItemCountDesc_total (a b : CountryMoodWithItems) :
  mayPrecede byItemCountDesc a b \/ mayPrecede byItemCountDesc b a.
Proof. unfold mayPrecede, byItemCountDesc. lra. Qed.

Lemma byItemCountDesc_trans (a b c : CountryMoodWithItems) :
  mayPrecede byItemCountDesc a b -> mayPrecede byItemCountDesc b c ->
  mayPrecede byItemCountDesc a c.
Proof. unfold mayPrecede, byItemCountDesc. lra. Qed.

Lemma StronglySorted_weaken {A : Type} (before before' : A -> A -> Prop) (l : list A) :
  (forall x y, before x y -> before' x y) ->
  StronglySorted before l -> StronglySorted before' l.
Proof.
  intros Himpl. induction 1 as [| x l _ IH Hall]; constructor; [exact IH |].
  eapply List.Forall_impl; [| exact Hall]. intros y. apply Himpl.
Qed.

(** X6. [aggregateMoodByCountry] returns one entry per country that has an
    item counting for it (not marked as a duplicate, with a non-empty
    country); the entry holds exactly those items, in their input order,
    their number as [itemCount], their aggregate emotions and the tension
    index of these; no country occurs twice and the entries are in
    descending order of [itemCount]. *)
Theorem aggregateMoodByCountry_groups (now : R) (items : list NormalizedItem) :
  let moods := aggregateMoodByCountry now items in
  List.NoDup (List.map cm_country moods)
  /\ StronglySorted (fun a b => (cm_itemCount b <= cm_itemCount a)%nat) moods
  /\ Forall
       (fun mood =>
          cm_items mood = List.filter (countsFor (cm_country mood)) items
          /\ cm_items mood <> []
          /\ cm_itemCount mood = length (cm_items mood)
          /\ cm_emotions mood = aggregateEmotions now (cm_items mood)
          /\ cm_tensionIndex mood = calculateTensionIndex (cm_emotions mood))
       moods
  /\ forall item country,
      In item items -> countsFor country item = true ->
      In country (List.map cm_country moods).
Proof.
  intros moods. subst moods. unfold aggregateMoodByCountry.
  destruct (groupByCountry_spec items) as (Hnd & Hfound & Hall).
  set (byCountry := List.fold_left groupByCountryStep items []) in *.
  set (mk := fun entry : string * list NormalizedItem => let '(country, countryItems) := entry in _).
  assert (Hkeys : List.map cm_country (List.map mk byCountry) = List.map fst byCountry).
  { rewrite List.map_map. apply List.map_ext. intros [c found]. reflexivity. }
  pose proof (sort_Permutation byItemCountDesc (List.map mk byCountry)) as Hperm.
  split; [| split; [| split]].
  - eapply Permutation_NoDup; [apply Permutation_map, Hperm |]. rewrite Hkeys. exact Hnd.
  - eapply StronglySorted_weaken;
      [| apply (sort_sorted byItemCountDesc byItemCountDesc_total byItemCountDesc_trans)].
    intros a b. unfold mayPrecede, byItemCountDesc. intros H.
    apply INR_le. lra.
  - apply List.Forall_forall. intros mood Hin.
    apply (Permutation_in _ (Permutation_sym Hperm)) in Hin.
    apply List.in_map_iff in Hin as ([c found] & <- & Hin).
    destruct (Hfound c found Hin) as [Heq Hne]. cbn. repeat split; assumption.
  - intros item country Hin Hcounts.
    eapply Permutation_in; [apply Permutation_map, Hperm |]. rewrite Hkeys.
    eapply Hall; eassumption.
Qed.

(** ** Recency and cluster weight *)

(** X7. For a positive half-life the recency weight is never negative, is 1
    for an item created now, at most 1 for an item created in the past,
    [exp(-0.693)] one half-life after creation, and not larger for the older
    of two items.  Up to 1000 half-lives of age it is positive, and strictly
    smaller for the older of two items; from 1080 half-lives on the
    exponential has underflowed and the weight is 0. *)
Theorem recencyWeight_decay (now createdAt createdAt' halfLifeHours : R) :
  (0 < halfLifeHours)%R ->
  (0 <= recencyWeight now createdAt halfLifeHours)%R
  /\ recencyWeight now now halfLifeHours = 1%R
  /\ (createdAt <= now -> recencyWeight now createdAt halfLifeHours <= 1)%R
  /\ recencyWeight (createdAt + halfLifeHours * (1000 * 60 * 60)) createdAt halfLifeHours
     = Rtrigo_def.exp (- 0.693)
  /\ (createdAt <= createdAt' ->
      recencyWeight now createdAt halfLifeHours <= recencyWeight now createdAt' halfLifeHours)%R
  /\ ((now - createdAt) / (1000 * 60 * 60) <= 1000 * halfLifeHours ->
      0 < recencyWeight now createdAt halfLifeHours
      /\ (createdAt < createdAt' ->
          recencyWeight now createdAt halfLifeHours
          < recencyWeight now createdAt' halfLifeHours))%R
  /\ (1080 * halfLifeHours <= (now - createdAt) / (1000 * 60 * 60) ->
      recencyWeight now createdAt halfLifeHours = 0)%R.
Proof.
  intros Hh. repeat split.
  - apply recencyWeight_nonneg.
  - apply recencyWeight_now, Hh.
  - apply recencyWeight_past, Hh.
  - unfold recencyWeight.
    replace (- 0.693
             * ((createdAt + halfLifeHours * (1000 * 60 * 60) - createdAt) / (1000 * 60 * 60))
             / halfLifeHours)%R with (- 0.693)%R by (field; lra).
    apply JsMath_exp_above. unfold JsMath.expUnderflow. lra.
  - apply recencyWeight_older, Hh.
  - apply recencyWeight_positive; assumption.
  - apply recencyWeight_strict; assumption.
  - apply recencyWeight_underflow, Hh.
Qed.

Lemma recencyWeight_decay_witness :
  (recencyWeight 7200000 0 6 <= 1)%R
  /\ (0 < recencyWeight 7200000 0 6 < recencyWeight 7200000 3600000 6)%R
  /\ recencyWeight 23328000000 0 6 = 0%R.
Proof.
  assert (Hh : (0 < 6)%R) by lra.
  destruct (recencyWeight_decay 7200000 0 3600000 6 Hh) as (_ & _ & Hpast & _ & _ & Hyoung & _).
  destruct (recencyWeight_decay 23328000000 0 0 6 Hh) as (_ & _ & _ & _ & _ & _ & Hold).
  split; [apply Hpast; lra | split].
  - destruct Hyoung as [Hpos Hlt]; [lra |]. split; [exact Hpos | apply Hlt; lra].
  - apply Hold. lra.
Defined.

Lemma calculateClusterWeight_fold (now : R) (items : list NormalizedItem) (w : R) :
  List.fold_left
    (fun weight item =>
       let recency := recencyWeight now (item_createdAt item) defaultHalfLifeHours in
       let engagement :=
         JsMath.log10 (capEngagement (item_engagement item) defaultEngagementCap + 2) in
       let relevance := relevanceOrDefault item in
       (weight + recency * engagement * relevance)%R)
    items w
  = (w + calculateClusterWeight now items)%R.
Proof.
  unfold calculateClusterWeight. revert w.
  induction items as [| item items IH]; intros w; cbn [List.fold_left]; [lra |].
  rewrite IH. rewrite (IH (0 + _)%R). cbv zeta. lra.
Qed.

Lemma calculateClusterWeight_app (now : R) (items items' : list NormalizedItem) :
  calculateClusterWeight now (items ++ items')
  = (calculateClusterWeight now items + calculateClusterWeight now items')%R.
Proof.
  unfold calculateClusterWeight at 1. rewrite List.fold_left_app.
  fold (calculateClusterWeight now items). apply calculateClusterWeight_fold.
Qed.

Lemma calculateClusterWeight_cons (now : R) (item : NormalizedItem)
      (items : list NormalizedItem) :
  calculateClusterWeight now (item :: items)
  = (calculateClusterWeight now [item] + calculateClusterWeight now items)%R.
Proof. apply (calculateClusterWeight_app now [item] items). Qed.

Lemma itemWeight_bounds (now : R) (item : NormalizedItem) :
  (0 <= item_engagement item)%R -> (0 <= relevanceOrDefault item <= 1)%R ->
  (item_createdAt item <= now)%R ->
  (0 <= calculateClusterWeight now [item] <= JsMath.log10 1002)%R.
Proof.
  intros He Hr Hc. unfold calculateClusterWeight. cbn [List.fold_left].
  pose proof (recencyWeight_nonneg now (item_createdAt item) defaultHalfLifeHours) as Hpos.
  assert (Hle : (recencyWeight now (item_createdAt item) defaultHalfLifeHours <= 1)%R)
    by (apply recencyWeight_past; [unfold defaultHalfLifeHours; lra | exact Hc]).
  set (recency := recencyWeight now (item_createdAt item) defaultHalfLifeHours) in *.
  assert (Hcap : (2 <= capEngagement (item_engagement item) defaultEngagementCap + 2 <= 1002)%R).
  { unfold capEngagement, JsMath.min, defaultEngagementCap.
    pose proof (Rmin_r (item_engagement item) 1000).
    assert (0 <= Rmin (item_engagement item) 1000)%R by (apply Rmin_glb; lra). lra. }
  assert (Hlog0 : (0 <= JsMath.log10
                          (capEngagement (item_engagement item) defaultEngagementCap + 2))%R)
    by (apply log10_nonneg; lra).
  assert (Hlog1 : (JsMath.log10 (capEngagement (item_engagement item) defaultEngagementCap + 2)
                   <= JsMath.log10 1002)%R)
    by (apply log10_le; lra).
  set (engagement := JsMath.log10 _) in *.
  generalize dependent (JsMath.log10 1002). intros top Hlog1.
  generalize dependent (relevanceOrDefault item). intros relevance Hr.
  clearbody recency engagement. clear Hcap. cbv zeta.
  assert (H0 : (0 <= recency * engagement)%R) by nra.
  assert (H1 : (recency * engagement <= top)%R) by nra.
  generalize dependent (recency * engagement)%R. intros re H0 H1.
  split; nra.
Qed.

(** X8. The weight of a cluster is the sum of the weights of its items
    (the weight of a concatenation is the sum of the weights).  When every
    item has a non-negative engagement, a relevance between 0 and 1 and a
    creation time that is not in the future, the weight lies between 0 and
    [n * log10(1002)] for [n] items: the engagement cap of 1000 bounds what
    one item can contribute. *)
Theorem calculateClusterWeight_bounds (now : R) (items : list NormalizedItem) :
  Forall (fun item => (0 <= item_engagement item)%R
                      /\ (0 <= relevanceOrDefault item <= 1)%R
                      /\ (item_createdAt item <= now)%R) items ->
  (0 <= calculateClusterWeight now items <= INR (length items) * JsMath.log10 1002)%R
  /\ forall items' : list NormalizedItem,
      calculateClusterWeight now (items ++ items')
      = (calculateClusterWeight now items + calculateClusterWeight now items')%R.
Proof.
  intros Hall. split; [| apply calculateClusterWeight_app].
  induction Hall as [| item items (He & Hr & Hc) _ IH].
  - unfold calculateClusterWeight. cbn. lra.
  - rewrite calculateClusterWeight_cons.
    pose proof (itemWeight_bounds now item He Hr Hc) as Hitem.
    change (length (item :: items)) with (S (length items)). rewrite S_INR.
    generalize dependent (calculateClusterWeight now [item]).
    generalize dependent (calculateClusterWeight now items).
    generalize (JsMath.log10 1002) (INR (length items)). intros. lra.
Qed.

Lemma calculateClusterWeight_bounds_witness :
  (0 <= calculateClusterWeight 0 [freshItem] <= INR 1 * JsMath.log10 1002)%R.
Proof.
  apply (calculateClusterWeight_bounds 0 [freshItem]).
  repeat constructor; cbn; lra.
Defined.

(** ** Engagement scales *)

Lemma engagementFactor_cases (source : string) :
  JsObject.inherited source = false ->
  exists factor,
    engagementFactor source = Some factor
    /\ (1 <= ef_scale factor)%R
    /\ ef_baseline factor
       = (if String.eqb source "reddit" then 10
          else if String.eqb source "hn" then 5 else 0)%R.
Proof.
  intros Hown. unfold engagementFactor, ENGAGEMENT_FACTORS. cbn [JsMap.get]. rewrite Hown.
  destruct (String.eqb source "reddit"); [eexists; split; [reflexivity | cbn; split; [lra | reflexivity]] |].
  destruct (String.eqb source "hn"); [eexists; split; [reflexivity | cbn; split; [lra | reflexivity]] |].
  destruct (String.eqb source "rss"); eexists; (split; [reflexivity | cbn; split; [lra | reflexivity]]).
Qed.

Lemma engagementFactor_inherited (source : string) :
  JsObject.inherited source = true -> engagementFactor source = None.
Proof.
  intros Hin. unfold engagementFactor, ENGAGEMENT_FACTORS. cbn [JsMap.get].
  destruct (String.eqb source "reddit") eqn:E1;
    [apply String.eqb_eq in E1; subst source; discriminate Hin |].
  destruct (String.eqb source "hn") eqn:E2;
    [apply String.eqb_eq in E2; subst source; discriminate Hin |].
  destruct (String.eqb source "rss") eqn:E3;
    [apply String.eqb_eq in E3; subst source; discriminate Hin |].
  rewrite Hin. reflexivity.
Qed.

Lemma log_ratio_bounds (x s : R) :
  (0 <= x)%R -> (1 <= s)%R ->
  (0 <= JsMath.log10 (x + 1) / JsMath.log10 (s + 1))%R
  /\ (s <= x -> 1 <= JsMath.log10 (x + 1) / JsMath.log10 (s + 1))%R
  /\ (x <= s -> JsMath.log10 (x + 1) / JsMath.log10 (s + 1) <= 1)%R.
Proof.
  intros Hx Hs.
  assert (Hnum : (0 <= JsMath.log10 (x + 1))%R) by (apply log10_nonneg; lra).
  assert (Hden : (0 < JsMath.log10 (s + 1))%R).
  { unfold JsMath.log10. apply Rdiv_lt_0_compat; [| apply ln_10_pos].
    rewrite <- ln_1. apply ln_increasing; lra. }
  repeat split.
  - apply Rmult_le_pos; [exact Hnum | left; apply Rinv_0_lt_compat, Hden].
  - intros Hsx. assert (JsMath.log10 (s + 1) <= JsMath.log10 (x + 1))%R
      by (apply log10_le; lra).
    apply (Rmult_le_reg_r (JsMath.log10 (s + 1))); [exact Hden |].
    unfold Rdiv. rewrite Rmult_assoc, Rinv_l by lra. lra.
  - intros Hxs. assert (JsMath.log10 (x + 1) <= JsMath.log10 (s + 1))%R
      by (apply log10_le; lra).
    apply (Rmult_le_reg_r (JsMath.log10 (s + 1))); [exact Hden |].
    unfold Rdiv. rewrite Rmult_assoc, Rinv_l by lra. lra.
Qed.

(** X9. For a source that is no property name of [Object.prototype] and a
    non-negative raw engagement, [normalizeEngagement] is a number between 0
    and 100, the baseline of the source (10 for reddit, 5 for hn, 0 for
    every other source) for the engagement 0, and 100 from the scale of the
    source on.  For a source such as [constructor] the factor is an
    inherited function and the result is no number.  For a positive [max],
    [logNormalize] lies between 0 and 1, is 0 for values up to 0 and 1 from
    [max] on. *)
Theorem engagement_scales (rawEngagement : R) (source : string) (value max : R) :
  (0 <= rawEngagement)%R -> (0 < max)%R ->
  (JsObject.inherited source = false ->
   exists factor normalized,
     engagementFactor source = Some factor
     /\ normalizeEngagement rawEngagement source = Some normalized
     /\ (0 <= normalized <= 100)%R
     /\ normalizeEngagement 0 source
        = Some (if String.eqb source "reddit" then 10
                else if String.eqb source "hn" then 5 else 0)%R
     /\ ((ef_scale factor <= rawEngagement)%R -> normalized = 100%R))
  /\ (JsObject.inherited source = true -> normalizeEngagement rawEngagement source = None)
  /\ (0 <= logNormalize value max <= 1)%R
  /\ (value <= 0 -> logNormalize value max = 0)%R
  /\ (max <= value -> logNormalize value max = 1)%R.
Proof.
  intros Hraw Hmax.
  split; [| split; [| split; [| split]]].
  - intros Hown. destruct (engagementFactor_cases source Hown) as (factor & Hf & Hscale & Hbase).
    exists factor. unfold normalizeEngagement. rewrite Hf.
    assert (Hb : (0 <= ef_baseline factor <= 100)%R).
    { rewrite Hbase. destruct (String.eqb source "reddit"); [lra |].
      destruct (String.eqb source "hn"); lra. }
    destruct (decide (rawEngagement = 0%R)) as [Hz | Hnz].
    + exists (ef_baseline factor). split; [reflexivity |]. split; [reflexivity |].
      split; [exact Hb |]. split.
      * rewrite decide_True by reflexivity. rewrite Hbase. reflexivity.
      * intros Hfull. lra.
    + eexists. split; [reflexivity |]. split; [reflexivity |].
      unfold JsMath.min, JsMath.max. split; [| split].
      * split; [apply Rmin_glb; [lra | apply Rmax_l] | apply Rmin_l].
      * rewrite decide_True by reflexivity. rewrite Hbase. reflexivity.
      * intros Hfull.
        destruct (log_ratio_bounds rawEngagement (ef_scale factor) Hraw Hscale)
          as (_ & Hge & _).
        specialize (Hge Hfull). rewrite Rmax_right by lra. apply Rmin_left. lra.
  - intros Hin. unfold normalizeEngagement.
    rewrite (engagementFactor_inherited source Hin). reflexivity.
  - unfold logNormalize, JsMath.min.
    destruct (decide (value <= 0)%R) as [| Hpos]; [lra |].
    apply Rnot_le_gt in Hpos.
    destruct (Rle_dec 1 max) as [H1 | H1].
    + destruct (log_ratio_bounds value max) as (H0 & _ & _); [lra | lra |].
      split; [apply Rmin_glb; lra | apply Rmin_l].
    + (* a maximum below 1: the ratio is still positive *)
      assert (Hnum : (0 <= JsMath.log10 (value + 1))%R) by (apply log10_nonneg; lra).
      assert (Hden : (0 < JsMath.log10 (max + 1))%R).
      { unfold JsMath.log10. apply Rdiv_lt_0_compat; [| apply ln_10_pos].
        rewrite <- ln_1. apply ln_increasing; lra. }
      split; [| apply Rmin_l].
      apply Rmin_glb; [lra |].
      apply Rmult_le_pos; [exact Hnum | left; apply Rinv_0_lt_compat, Hden].
  - intros Hle. unfold logNormalize. rewrite decide_True by exact Hle. reflexivity.
  - intros Hge. unfold logNormalize, JsMath.min. rewrite decide_False by lra.
    apply Rmin_left.
    assert (Hden : (0 < JsMath.log10 (max + 1))%R).
    { unfold JsMath.log10. apply Rdiv_lt_0_compat; [| apply ln_10_pos].
      rewrite <- ln_1. apply ln_increasing; lra. }
    assert (JsMath.log10 (max + 1) <= JsMath.log10 (value + 1))%R by (apply log10_le; lra).
    apply (Rmult_le_reg_r (JsMath.log10 (max + 1))); [exact Hden |].
    unfold Rdiv. rewrite Rmult_assoc, Rinv_l by lra. lra.
Qed.

Lemma engagement_scales_witness :
  normalizeEngagement 500 "reddit" = Some 100%R
  /\ normalizeEngagement 0 "hn" = Some 5%R
  /\ normalizeEngagement 500 "constructor" = None
  /\ logNormalize 100 defaultLogMax = 1%R.
Proof.
  assert (H500 : (0 <= 500)%R) by lra.
  assert (H0 : (0 <= 0)%R) by lra.
  assert (Hmax : (0 < defaultLogMax)%R) by (unfold defaultLogMax; lra).
  destruct (engagement_scales 500 "reddit" 100 defaultLogMax H500 Hmax)
    as (Hown & _ & _ & _ & Hone).
  destruct (engagement_scales 0 "hn" 100 defaultLogMax H0 Hmax) as (Hhn & _).
  destruct (engagement_scales 500 "constructor" 100 defaultLogMax H500 Hmax)
    as (_ & Hinherited & _).
  destruct (Hown eq_refl) as (factor & normalized & Hf & Hn & _ & _ & Hfull).
  destruct (Hhn eq_refl) as (_ & _ & _ & _ & _ & Hbase & _).
  split; [| split; [exact Hbase | split; [apply Hinherited; reflexivity |]]].
  - rewrite Hn. f_equal. apply Hfull.
    injection Hf as <-. cbn. lra.
  - apply Hone. unfold defaultLogMax. lra.
Defined.

(** ** Truncation *)

Lemma length_append (s t : string) :
  String.length (s +:+ t) = (String.length s + String.length t)%nat.
Proof.
  induction s as [| c s IH]; [reflexivity |].
  change (S (String.length (s +:+ t)) = S (String.length s + String.length t)).
  rewrite IH. reflexivity.
Qed.

Lemma length_take (n : nat) (s : string) :
  String.length (JsString.take n s) = Nat.min n (String.length s).
Proof.
  revert s. induction n as [| n IH]; intros [| c s]; cbn; try reflexivity.
  rewrite IH. reflexivity.
Qed.

(** X10. [truncate] returns a text of at most [maxLength] characters
    whenever [maxLength] is at least 3: a text that fits is returned as it
    is, a longer one is cut to its first [maxLength - 3] characters followed
    by three dots, which gives exactly [maxLength] characters.  Below 3 the
    bound fails: a text that does not fit becomes the three dots alone. *)
Theorem truncate_length (text : string) (maxLength : Z) :
  ((Z.of_nat (String.length text) <= maxLength)%Z -> truncate text maxLength = text)
  /\ ((3 <= maxLength)%Z ->
      (Z.of_nat (String.length (truncate text maxLength)) <= maxLength)%Z)
  /\ ((3 <= maxLength < Z.of_nat (String.length text))%Z ->
      truncate text maxLength = JsString.take (Z.to_nat (maxLength - 3)) text +:+ "..."
      /\ Z.of_nat (String.length (truncate text maxLength)) = maxLength)
  /\ ((maxLength < 3)%Z -> (maxLength < Z.of_nat (String.length text))%Z ->
      truncate text maxLength = "...").
Proof.
  unfold truncate, substring0.
  split; [| split; [| split]].
  - intros Hfit. apply Z.leb_le in Hfit. rewrite Hfit. reflexivity.
  - intros H3. destruct (Z.leb_spec (Z.of_nat (String.length text)) maxLength) as [Hfit | Hlong];
      [exact Hfit |].
    rewrite length_append, length_take. cbn [String.length]. lia.
  - intros [H3 Hlong].
    destruct (Z.leb_spec (Z.of_nat (String.length text)) maxLength) as [Hfit | _]; [lia |].
    split; [reflexivity |].
    rewrite length_append, length_take. cbn [String.length]. lia.
  - intros Hsmall Hlong.
    destruct (Z.leb_spec (Z.of_nat (String.length text)) maxLength) as [Hfit | _]; [lia |].
    replace (Z.to_nat (maxLength - 3)) with 0%nat by lia.
    destruct text; reflexivity.
Qed.

(** ** Badges *)

(** X11. The badge colours of [getTensionCategory] and of [getMoodCategory]
    at the mood score [100 - tension] are the same except on the three
    thresholds: at a tension of exactly 30, 50 or 70 the two badges
    differ. *)
Theorem category_colours_agree (tensionIndex : R) :
  cat_color (getTensionCategory tensionIndex) = cat_color (getMoodCategory (100 - tensionIndex))
  <-> (tensionIndex <> 30 /\ tensionIndex <> 50 /\ tensionIndex <> 70)%R.
Proof.
  unfold getTensionCategory, getMoodCategory.
  repeat match goal with
         | |- context [decide ?P] => destruct (decide P)
         end;
    cbn [cat_color];
    (split; [intros E; try discriminate E; repeat split; lra
            | intros (H30 & H50 & H70); try reflexivity; exfalso; lra]).
Qed.

(** ** Cosine similarity: symmetry and bounds *)

Lemma squaredNorm_shift (v : list R) (s : R) :
  List.fold_left (fun s x => (s + x * x)%R) v s = (s + squaredNorm v)%R.
Proof.
  unfold squaredNorm. revert s. induction v as [| x v IH]; intros s; cbn [List.fold_left].
  - lra.
  - rewrite IH, (IH (0 + _)%R). lra.
Qed.

Lemma squaredNorm_cons (x : R) (v : list R) :
  squaredNorm (x :: v) = (x * x + squaredNorm v)%R.
Proof. unfold squaredNorm at 1. cbn [List.fold_left]. rewrite squaredNorm_shift. lra. Qed.

Lemma dotProduct_shift (p : list (R * R)) (s : R) :
  List.fold_left (fun s (p : R * R) => (s + fst p * snd p)%R) p s
  = (s + List.fold_left (fun s (p : R * R) => (s + fst p * snd p)%R) p 0)%R.
Proof.
  revert s. induction p as [| [x y] p IH]; intros s; cbn [List.fold_left].
  - lra.
  - rewrite IH, (IH (0 + _)%R). lra.
Qed.

Lemma dotProduct_cons (x y : R) (a b : list R) :
  dotProduct (x :: a) (y :: b) = (x * y + dotProduct a b)%R.
Proof.
  unfold dotProduct. cbn [combine List.fold_left]. rewrite dotProduct_shift. cbn [fst snd]. lra.
Qed.

Lemma dotProduct_nil_r (a : list R) : dotProduct a [] = 0%R.
Proof. destruct a; reflexivity. Qed.

Lemma dotProduct_comm (a b : list R) : dotProduct a b = dotProduct b a.
Proof.
  revert b. induction a as [| x a IH]; intros [| y b]; try reflexivity.
  rewrite !dotProduct_cons, IH. lra.
Qed.

Lemma dotProduct_self (a : list R) : dotProduct a a = squaredNorm a.
Proof.
  induction a as [| x a IH]; [reflexivity |].
  rewrite dotProduct_cons, squaredNorm_cons, IH. reflexivity.
Qed.

Lemma cauchy_schwarz_step (x y d na nb : R) :
  (0 <= na)%R -> (0 <= nb)%R -> (d * d <= na * nb)%R ->
  ((x * y + d) * (x * y + d) <= (x * x + na) * (y * y + nb))%R.
Proof.
  intros Ha Hb Hd.
  assert (Hcross : (2 * (x * y) * d <= x * x * nb + y * y * na)%R).
  { set (p := (x * x * nb + y * y * na)%R).
    set (q := (2 * (x * y) * d)%R).
    assert (Hp : (0 <= p)%R) by (unfold p; nra).
    assert (Hsq : (q * q <= p * p)%R).
    { unfold p, q.
      assert (H1 : (4 * (x * x) * (y * y) * (d * d) <= 4 * (x * x) * (y * y) * (na * nb))%R).
      { apply Rmult_le_compat_l; [nra | exact Hd]. }
      pose proof (Rle_0_sqr (x * x * nb - y * y * na)) as H2. unfold Rsqr in H2.
      nra. }
    destruct (Rle_dec q p) as [Hle | Hgt]; [exact Hle | exfalso].
    apply Rnot_le_gt in Hgt. nra. }
  nra.
Qed.

Lemma cauchy_schwarz (a b : list R) :
  (dotProduct a b * dotProduct a b <= squaredNorm a * squaredNorm b)%R.
Proof.
  revert b. induction a as [| x a IH]; intros [| y b].
  - cbn. lra.
  - unfold dotProduct. cbn [combine List.fold_left].
    replace (squaredNorm []) with 0%R by reflexivity. lra.
  - rewrite dotProduct_nil_r. replace (squaredNorm []) with 0%R by reflexivity. lra.
  - rewrite dotProduct_cons, !squaredNorm_cons.
    apply cauchy_schwarz_step; [apply squaredNorm_nonneg | apply squaredNorm_nonneg | apply IH].
Qed.

Lemma dotProduct_nonneg (a b : list R) :
  Forall (fun x => 0 <= x)%R a -> Forall (fun x => 0 <= x)%R b -> (0 <= dotProduct a b)%R.
Proof.
  intros Ha. revert b. induction Ha as [| x a Hx _ IH]; intros b Hb.
  - cbn. lra.
  - destruct Hb as [| y b Hy Hb]; [rewrite dotProduct_nil_r; lra |].
    rewrite dotProduct_cons. specialize (IH b Hb). nra.
Qed.

Lemma quotient_bounds (d na nb : R) :
  (0 <= na)%R -> (0 <= nb)%R -> na <> 0%R -> nb <> 0%R -> (d * d <= na * nb)%R ->
  (-1 <= d / (JsMath.sqrt na * JsMath.sqrt nb) <= 1)%R.
Proof.
  intros Ha Hb Hna Hnb Hd. unfold JsMath.sqrt.
  assert (Hsa : (0 < sqrt na)%R) by (apply sqrt_lt_R0; lra).
  assert (Hsb : (0 < sqrt nb)%R) by (apply sqrt_lt_R0; lra).
  assert (Hs : (0 < sqrt na * sqrt nb)%R) by (apply Rmult_lt_0_compat; assumption).
  assert (Hss : ((sqrt na * sqrt nb) * (sqrt na * sqrt nb) = na * nb)%R).
  { transitivity ((sqrt na * sqrt na) * (sqrt nb * sqrt nb))%R; [ring |].
    rewrite !sqrt_sqrt by assumption. reflexivity. }
  generalize dependent (sqrt na * sqrt nb)%R. intros s Hs Hss.
  assert (Hds : (- s <= d <= s)%R) by (split; nra).
  assert (Hi : (0 < / s)%R) by (apply Rinv_0_lt_compat, Hs).
  assert (E : (s * / s = 1)%R) by (apply Rinv_r; lra).
  unfold Rdiv. split; nra.
Qed.

Lemma cosineSimilarity_value (a b : list R) :
  exists r : R,
    cosineSimilarity a b = Some r
    /\ (-1 <= r <= 1)%R
    /\ (Forall (fun x => 0 <= x)%R a -> Forall (fun x => 0 <= x)%R b -> (0 <= r)%R).
Proof.
  rewrite cosineSimilarity_cases.
  destruct (length a =? length b)%nat; cbn [negb].
  2: { exists 0%R. repeat split; try lra. }
  destruct (decide (squaredNorm a = 0%R \/ squaredNorm b = 0%R)) as [H | H].
  { exists 0%R. repeat split; try lra. }
  eexists. split; [reflexivity |].
  assert (Hna : squaredNorm a <> 0%R) by tauto.
  assert (Hnb : squaredNorm b <> 0%R) by tauto.
  pose proof (squaredNorm_nonneg a) as Ha.
  pose proof (squaredNorm_nonneg b) as Hb.
  split.
  - apply quotient_bounds; try assumption. apply cauchy_schwarz.
  - intros Hpa Hpb. apply Rmult_le_pos; [apply dotProduct_nonneg; assumption |].
    left. apply Rinv_0_lt_compat, Rmult_lt_0_compat; apply sqrt_lt_R0; lra.
Qed.

(** X12. Cosine similarity is symmetric and finite, lies between -1 and 1
    (by the Cauchy-Schwarz inequality), is not negative for vectors without
    negative entries, and is 1 for a non-zero vector against itself. *)
Theorem cosineSimilarity_bounds (a b : list R) :
  cosineSimilarity a b = cosineSimilarity b a
  /\ (exists r : R,
         cosineSimilarity a b = Some r
         /\ (-1 <= r <= 1)%R
         /\ (Forall (fun x => 0 <= x)%R a -> Forall (fun x => 0 <= x)%R b -> (0 <= r)%R))
  /\ (squaredNorm a <> 0%R -> cosineSimilarity a a = Some 1%R).
Proof.
  split; [| split; [apply cosineSimilarity_value |]].
  - rewrite !cosineSimilarity_cases.
    rewrite (Nat.eqb_sym (length b) (length a)).
    destruct (length a =? length b)%nat; cbn [negb]; [| reflexivity].
    rewrite (dotProduct_comm b a), (Rmult_comm (JsMath.sqrt (squaredNorm b))).
    destruct (decide (squaredNorm a = 0%R \/ squaredNorm b = 0%R)) as [H | H],
             (decide (squaredNorm b = 0%R \/ squaredNorm a = 0%R)) as [H' | H'];
      try reflexivity; tauto.
  - intros Hna. rewrite cosineSimilarity_cases, Nat.eqb_refl. cbn [negb].
    rewrite decide_False by tauto. f_equal.
    rewrite dotProduct_self. unfold JsMath.sqrt.
    rewrite sqrt_sqrt by apply squaredNorm_nonneg. field. exact Hna.
Qed.

(** ** Relevance scores *)

Lemma count_from {A : Type} (p : A -> bool) (l : list A) (n : nat) :
  List.fold_left (fun matches x => if p x then S matches else matches) l n
  = (n + length (List.filter p l))%nat.
Proof.
  revert n. induction l as [| x l IH]; intros n; cbn [List.fold_left List.filter].
  - cbn [length]. lia.
  - rewrite IH. destruct (p x); cbn [length]; lia.
Qed.

Lemma keywordScore_bounds (n : nat) :
  (0 <= Rmin 1 (INR n / 3) <= 1)%R
  /\ (n = 0%nat -> Rmin 1 (INR n / 3) = 0%R)
  /\ ((1 <= n)%nat -> 1 / 3 <= Rmin 1 (INR n / 3))%R
  /\ ((3 <= n)%nat -> Rmin 1 (INR n / 3) = 1%R).
Proof.
  pose proof (pos_INR n) as Hn. repeat split.
  - apply Rmin_glb; lra.
  - apply Rmin_l.
  - intros ->. cbn [INR]. rewrite Rmin_right by lra. lra.
  - intros H1. apply le_INR in H1. cbn [INR] in H1. apply Rmin_glb; lra.
  - intros H3. apply le_INR in H3. cbn [INR] in H3. rewrite Rmin_left by lra. reflexivity.
Qed.

Lemma scoreRelevance_unfold (cachedKeywords : option (list string)) (item : NormalizedItem) :
  scoreRelevance cachedKeywords item
  = ((if String.eqb (item_source item) "search" then 0.34 else 0.15)
     + Rmin 1 (INR (length
                      (List.filter
                         (fun keyword =>
                            JsString.includes
                              (JsString.toLowerCase
                                 (item_title item +:+ " " +:+ textOrEmpty item)) keyword)
                         (getRelevanceKeywords cachedKeywords))) / 3) * 0.5)%R.
Proof.
  unfold scoreRelevance, getRelevanceKeywords, SOURCES, JsMath.min, JsMath.max.
  cbn [List.find source_type source_trustScore].
  rewrite count_from. cbn [Nat.add].
  set (n := length _).
  destruct (keywordScore_bounds n) as ((H0 & H1) & _).
  rewrite (String.eqb_sym "search").
  generalize dependent (Rmin 1 (INR n / 3)). intros k H0 H1.
  destruct (String.eqb (item_source item) "search"); cbn [source_trustScore].
  - rewrite Rmax_right by lra. rewrite Rmin_right by lra. lra.
  - rewrite Rmax_right by lra. rewrite Rmin_right by lra. lra.
Qed.

Lemma filter_map_length {A B : Type} (f : A -> B) (p : B -> bool) (l : list A) :
  length (List.filter p (List.map f l)) = length (List.filter (fun x => p (f x)) l).
Proof.
  induction l as [| x l IH]; [reflexivity |]. cbn [List.map List.filter].
  destruct (p (f x)); cbn [length]; rewrite IH; reflexivity.
Qed.

(** X13. The relevance score is the base of the source (0.34 for a search
    item, 0.15 for any other) plus half of [min(1, matches / 3)], where
    [matches] counts the cached keywords that occur in the lower-cased
    title and text; it lies between 0.15 and 0.84, so the final clamp to
    [0, 1] never changes it; three matches or more give the full half.
    After [setRelevanceKeywords] a keyword matches whatever its case, and
    before any keywords are set the score is the base alone. *)
Theorem scoreRelevance_formula (cachedKeywords : option (list string)) (item : NormalizedItem) :
  let text := JsString.toLowerCase (item_title item +:+ " " +:+ textOrEmpty item) in
  let matches :=
    length (List.filter (fun keyword => JsString.includes text keyword)
              (getRelevanceKeywords cachedKeywords)) in
  let base := if String.eqb (item_source item) "search" then 0.34%R else 0.15%R in
  scoreRelevance cachedKeywords item = (base + Rmin 1 (INR matches / 3) * 0.5)%R
  /\ (0.15 <= scoreRelevance cachedKeywords item <= 0.84)%R
  /\ ((3 <= matches)%nat -> scoreRelevance cachedKeywords item = (base + 0.5)%R)
  /\ (matches = 0%nat -> scoreRelevance cachedKeywords item = base)
  /\ scoreRelevance None item = base
  /\ (forall keywords,
         scoreRelevance (setRelevanceKeywords keywords) item
         = (base
            + Rmin 1
                (INR (length
                        (List.filter
                           (fun keyword =>
                              JsString.includes text (JsString.toLowerCase keyword))
                           keywords)) / 3) * 0.5)%R).
Proof.
  intros text matches base. rewrite scoreRelevance_unfold.
  fold text. fold matches. fold base.
  destruct (keywordScore_bounds matches) as ((H0 & H1) & Hzero & _ & Hfull).
  split; [reflexivity |]. split; [| split; [| split; [| split]]].
  - subst base. destruct (String.eqb (item_source item) "search"); lra.
  - intros H3. rewrite (Hfull H3). lra.
  - intros Hnone. rewrite (Hzero Hnone). lra.
  - rewrite scoreRelevance_unfold. fold text. fold base.
    cbn [getRelevanceKeywords List.filter length INR].
    rewrite Rmin_right by lra. lra.
  - intros keywords. rewrite scoreRelevance_unfold. fold text. fold base.
    cbn [getRelevanceKeywords setRelevanceKeywords].
    rewrite filter_map_length. reflexivity.
Qed.

Lemma filter_sublist {A : Type} (p : A -> bool) (l : list A) : sublist (List.filter p l) l.
Proof.
  induction l as [| x l IH]; cbn [List.filter]; [constructor |].
  destruct (p x); [apply sublist_skip | apply sublist_cons]; exact IH.
Qed.

(** X14. [filterByRelevance] keeps a sub-list of the items, in their order.
    An item with a relevance score is kept when that score reaches the
    minimum.  With the default minimum 0.3, an item without a score is kept
    when it is a search item or when at least one cached keyword occurs in
    its lower-cased title and text, and dropped otherwise. *)
Theorem filterByRelevance_default (cachedKeywords : option (list string))
        (items : list NormalizedItem) (minScore : R) :
  sublist (filterByRelevance cachedKeywords items minScore) items
  /\ (forall item r,
         item_relevanceScore item = Some r ->
         (In item (filterByRelevance cachedKeywords items minScore)
          <-> In item items /\ (minScore <= r)%R))
  /\ (forall item,
         item_relevanceScore item = None ->
         (In item (filterByRelevance cachedKeywords items defaultMinScore)
          <-> In item items
              /\ (item_source item = "search"
                  \/ exists keyword,
                      In keyword (getRelevanceKeywords cachedKeywords)
                      /\ JsString.includes
                           (JsString.toLowerCase
                              (item_title item +:+ " " +:+ textOrEmpty item)) keyword
                         = true))).
Proof.
  unfold filterByRelevance. split; [apply filter_sublist |]. split.
  - intros item r Hr. rewrite List.filter_In, Hr.
    rewrite bool_decide_eq_true. split; intros [Hin H]; (split; [exact Hin | lra]).
  - intros item Hnone. rewrite List.filter_In, Hnone, bool_decide_eq_true.
    rewrite scoreRelevance_unfold. unfold defaultMinScore.
    set (text := JsString.toLowerCase _).
    set (found := List.filter _ _).
    destruct (keywordScore_bounds (length found)) as ((H0 & H1) & Hzero & Hone & _).
    split; intros [Hin H]; (split; [exact Hin |]).
    + destruct (String.eqb (item_source item) "search") eqn:Hs;
        [left; apply String.eqb_eq, Hs | right].
      destruct found as [| keyword rest] eqn:Hfound.
      * rewrite Hzero in H by reflexivity. lra.
      * exists keyword.
        assert (Hk : In keyword found) by (rewrite Hfound; left; reflexivity).
        unfold found in Hk. apply List.filter_In in Hk. exact Hk.
    + destruct H as [Hs | (keyword & Hk & Hinc)].
      * rewrite Hs. cbn [String.eqb Ascii.eqb Bool.eqb]. lra.
      * assert (Hf : In keyword found) by (apply List.filter_In; split; assumption).
        assert (Hlen : (1 <= length found)%nat)
          by (destruct found; [destruct Hf | cbn; lia]).
        specialize (Hone Hlen).
        destruct (String.eqb (item_source item) "search"); lra.
Qed.

(** ** Jaccard similarity and the pairwise score *)

Lemma jaccard_sizes (a b : gset string) :
  (size (a ∩ b) <= size (a ∪ b))%nat
  /\ (size a = 0%nat /\ size b = 0%nat <-> size (a ∪ b) = 0%nat).
Proof.
  split.
  - apply subseteq_size. set_solver.
  - rewrite !size_empty_iff. split; [intros [Ha Hb] | intros Hab]; set_solver.
Qed.

Lemma jaccardSimilarity_cases (a b : gset string) :
  jaccardSimilarity a b
  = if (size (a ∪ b) =? 0)%nat then 0%R else (INR (size (a ∩ b)) / INR (size (a ∪ b)))%R.
Proof.
  unfold jaccardSimilarity.
  destruct (jaccard_sizes a b) as [_ Hzero].
  destruct (size (a ∪ b) =? 0)%nat eqn:Hu.
  - apply Nat.eqb_eq in Hu. apply Hzero in Hu as [-> ->]. reflexivity.
  - apply Nat.eqb_neq in Hu.
    destruct ((size a =? 0)%nat && (size b =? 0)%nat) eqn:Hab; [| reflexivity].
    apply andb_true_iff in Hab as [Ha Hb]. apply Nat.eqb_eq in Ha, Hb.
    exfalso. apply Hu, Hzero. split; assumption.
Qed.

Lemma jaccardSimilarity_range (a b : gset string) : (0 <= jaccardSimilarity a b <= 1)%R.
Proof.
  rewrite jaccardSimilarity_cases.
  destruct (size (a ∪ b) =? 0)%nat eqn:Hu; [lra |].
  apply Nat.eqb_neq in Hu.
  destruct (jaccard_sizes a b) as [Hle _].
  assert (Hpos : (0 < INR (size (a ∪ b)))%R) by (apply lt_0_INR; lia).
  apply le_INR in Hle. pose proof (pos_INR (size (a ∩ b))) as H0.
  generalize dependent (INR (size (a ∩ b))). generalize dependent (INR (size (a ∪ b))).
  intros u Hu' i Hi H0.
  assert (Hinv : (0 < / u)%R) by (apply Rinv_0_lt_compat; exact Hu').
  assert (E : (u * / u = 1)%R) by (apply Rinv_r; lra).
  unfold Rdiv. split; nra.
Qed.

(** X15. The Jaccard similarity of two token sets lies between 0 and 1 and
    is symmetric; it is 1 exactly for two equal non-empty sets and 0
    exactly for two sets without a common token (two empty sets included). *)
Theorem jaccardSimilarity_spec (a b : gset string) :
  (0 <= jaccardSimilarity a b <= 1)%R
  /\ jaccardSimilarity a b = jaccardSimilarity b a
  /\ (jaccardSimilarity a b = 1%R <-> a = b /\ a <> ∅)
  /\ (jaccardSimilarity a b = 0%R <-> a ∩ b = ∅).
Proof.
  split; [apply jaccardSimilarity_range |]. split; [| split].
  - rewrite !jaccardSimilarity_cases.
    rewrite (union_comm_L b a), (intersection_comm_L b a). reflexivity.
  - rewrite jaccardSimilarity_cases.
    destruct (jaccard_sizes a b) as [Hle Hzero].
    destruct (size (a ∪ b) =? 0)%nat eqn:Hu.
    + apply Nat.eqb_eq in Hu. split; [lra |].
      intros [-> Hne]. exfalso. apply Hne. apply size_empty_iff in Hu. set_solver.
    + apply Nat.eqb_neq in Hu.
      assert (Hpos : (0 < INR (size (a ∪ b)))%R) by (apply lt_0_INR; lia).
      split.
      * intros Hone.
        assert (Hsame : INR (size (a ∩ b)) = INR (size (a ∪ b))).
        { apply (Rmult_eq_reg_r (/ INR (size (a ∪ b))));
            [| apply Rinv_neq_0_compat; lra].
          rewrite Rinv_r by lra. exact Hone. }
        apply INR_eq in Hsame.
        assert (Heq : a ∩ b = a ∪ b).
        { apply set_subseteq_size_eq; [set_solver | lia]. }
        split; [set_solver |].
        intros ->. apply Hu. apply size_empty_iff. set_solver.
      * intros [<- Hne].
        replace (a ∩ a) with a by set_solver. replace (a ∪ a) with a in * by set_solver.
        unfold Rdiv. apply Rinv_r. lra.
  - rewrite jaccardSimilarity_cases.
    destruct (size (a ∪ b) =? 0)%nat eqn:Hu.
    + apply Nat.eqb_eq in Hu. apply size_empty_iff in Hu.
      split; [intros _; set_solver | reflexivity].
    + apply Nat.eqb_neq in Hu.
      assert (Hpos : (0 < INR (size (a ∪ b)))%R) by (apply lt_0_INR; lia).
      split.
      * intros Hz.
        assert (Hi : INR (size (a ∩ b)) = 0%R).
        { apply (Rmult_eq_reg_r (/ INR (size (a ∪ b))));
            [| apply Rinv_neq_0_compat; lra].
          rewrite Rmult_0_l. exact Hz. }
        apply (INR_eq _ 0) in Hi. apply size_empty_iff in Hi.
        apply leibniz_equiv. exact Hi.
      * intros ->. rewrite size_empty. cbn [INR]. unfold Rdiv. apply Rmult_0_l.
Qed.

Section SimilarityRange.
Variable parseURL : string -> option URL.
Variable matchAll : EntityPattern -> string -> list string.

Lemma calculateSimilarity_range (a b : NormalizedItem) :
  (0 <= calculateSimilarity parseURL matchAll a b <= 1)%R.
Proof.
  unfold calculateSimilarity, JsMath.max.
  pose proof (jaccardSimilarity_range (tokenize (item_title a)) (tokenize (item_title b)))
    as Htitle.
  pose proof (jaccardSimilarity_range (tokenize (textOrEmpty a)) (tokenize (textOrEmpty b)))
    as Htext.
  generalize dependent (jaccardSimilarity (tokenize (item_title a)) (tokenize (item_title b))).
  generalize dependent (jaccardSimilarity (tokenize (textOrEmpty a)) (tokenize (textOrEmpty b))).
  intros text Htext title Htitle.
  destruct (sameNormalizedUrl parseURL a b); [lra |].
  destruct (hasSubstringMatch a b).
  { split; [pose proof (Rmax_l title 0.85) | apply Rmax_lub]; lra. }
  destruct (bool_decide (title > 0.5)%R && sameDomain parseURL a b).
  { split; [pose proof (Rmax_l title 0.8) | apply Rmax_lub]; lra. }
  destruct (bool_decide (title > 0.3)%R && isSameStory matchAll a b).
  { split; [pose proof (Rmax_l title 0.75) | apply Rmax_lub]; lra. }
  destruct (bool_decide (title > 0.4)%R); [| exact Htitle].
  destruct (bool_decide (text > 0.5)%R); [| lra].
  split; [pose proof (Rmax_l (title * 0.4 + text * 0.6) 0.7) | apply Rmax_lub]; lra.
Qed.

Lemma calculateSimilarity_same_url (a b : NormalizedItem) :
  item_url a <> "" -> item_url b <> "" ->
  normalizeUrl parseURL (item_url a) = normalizeUrl parseURL (item_url b) ->
  calculateSimilarity parseURL matchAll a b = 1%R.
Proof.
  intros Ha Hb Heq. unfold calculateSimilarity, sameNormalizedUrl.
  rewrite Heq, String.eqb_refl.
  destruct (item_url a); [congruence |]. destruct (item_url b); [congruence |].
  reflexivity.
Qed.

End SimilarityRange.

(** X16. The pairwise similarity score lies between 0 and 1 for every pair
    of items, and it is 1 for two items whose non-empty URLs have the same
    normal form. *)
Theorem calculateSimilarity_unit_interval
        (parseURL : string -> option URL)
        (matchAll : EntityPattern -> string -> list string)
        (a b : NormalizedItem) :
  (0 <= calculateSimilarity parseURL matchAll a b <= 1)%R
  /\ (item_url a <> "" -> item_url b <> "" ->
      normalizeUrl parseURL (item_url a) = normalizeUrl parseURL (item_url b) ->
      calculateSimilarity parseURL matchAll a b = 1%R).
Proof.
  split; [apply calculateSimilarity_range | apply calculateSimilarity_same_url].
Qed.

(** ** What deduplication removes and what it keeps *)

Lemma isEmpty_iff (s : string) : JsString.isEmpty s = true <-> s = "".
Proof. destruct s; cbn; split; congruence. Qed.

Lemma isEmpty_false_iff (s : string) : JsString.isEmpty s = false <-> s <> "".
Proof. destruct s; cbn; split; congruence. Qed.

Lemma ForallOrdPairs_snoc {A : Type} (R : A -> A -> Prop) (l : list A) (y : A) :
  ForallOrdPairs R l -> Forall (fun x => R x y) l -> ForallOrdPairs R (l ++ [y]).
Proof.
  induction 1 as [| x l Hx _ IH]; intros Hall; cbn [app].
  - repeat constructor.
  - apply List.Forall_cons_iff in Hall as [Hxy Hall]. constructor.
    + apply List.Forall_app. split; [exact Hx | constructor; [exact Hxy | constructor]].
    + apply IH, Hall.
Qed.

Lemma StronglySorted_middle {A : Type} (R : A -> A -> Prop) (pre suf : list A) (y : A) :
  StronglySorted R (pre ++ y :: suf) -> forall x, In x pre -> R x y.
Proof.
  induction pre as [| z pre IH]; cbn [app]; intros Hs x Hin; [destruct Hin |].
  apply StronglySorted_inv in Hs as [Hs Hall].
  destruct Hin as [<- | Hin].
  - rewrite List.Forall_forall in Hall. apply Hall. apply List.in_or_app. right. left. reflexivity.
  - apply IH; assumption.
Qed.

Section DedupInvariants.
Variable parseURL : string -> option URL.
Variable matchAll : EntityPattern -> string -> list string.
Variable similarityThreshold : R.

(** The set of seen URLs holds the non-empty URL keys of the kept items. *)
Lemma dedup_loop (items unique : list NormalizedItem) (seenUrls : gset string) :
  (forall k, k ∈ seenUrls <-> k <> "" /\ exists x, In x unique /\ dedupUrlKey parseURL x = k) ->
  ForallOrdPairs
    (fun earlier later => ~ duplicates parseURL matchAll similarityThreshold later earlier)
    unique ->
  let result :=
    fst (List.fold_left (dedupStep parseURL matchAll similarityThreshold) items
           (unique, seenUrls)) in
  ForallOrdPairs
    (fun earlier later => ~ duplicates parseURL matchAll similarityThreshold later earlier)
    result
  /\ (forall x, In x unique -> In x result)
  /\ (forall x, In x result -> In x unique \/ In x items)
  /\ forall pre d suf,
      items = pre ++ d :: suf ->
      In d result
      \/ exists kept,
          In kept (unique ++ pre) /\ In kept result
          /\ duplicates parseURL matchAll similarityThreshold d kept.
Proof.
  revert unique seenUrls.
  induction items as [| item items IH]; intros unique seenUrls Hseen Hapart result.
  - subst result. cbn [List.fold_left fst]. repeat split; try tauto.
    intros [| ? ?] d suf E; discriminate E.
  - subst result. cbn [List.fold_left].
    set (key := dedupUrlKey parseURL item).
    assert (Hstep :
              dedupStep parseURL matchAll similarityThreshold (unique, seenUrls) item
              = (unique, seenUrls)
              /\ (exists kept, In kept unique
                               /\ duplicates parseURL matchAll similarityThreshold item kept)
              \/ exists seenUrls',
                  dedupStep parseURL matchAll similarityThreshold (unique, seenUrls) item
                  = (unique ++ [item], seenUrls')
                  /\ (forall k, k ∈ seenUrls' <->
                                k <> "" /\ exists x, In x (unique ++ [item])
                                                     /\ dedupUrlKey parseURL x = k)
                  /\ Forall
                       (fun x => ~ duplicates parseURL matchAll similarityThreshold item x)
                       unique).
    { unfold dedupStep. fold key.
      destruct (negb (JsString.isEmpty key) && bool_decide (key ∈ seenUrls)) eqn:Hurl.
      { left. split; [reflexivity |].
        apply andb_true_iff in Hurl as [Hne Hin].
        apply negb_true_iff, isEmpty_false_iff in Hne. apply bool_decide_eq_true in Hin.
        apply Hseen in Hin as (_ & x & Hx & Hkey).
        exists x. split; [exact Hx |]. left. fold key. split; [exact Hne | symmetry; exact Hkey]. }
      destruct (existsb _ unique) eqn:Hdup; cbn [negb].
      { left. split; [reflexivity |].
        apply List.existsb_exists in Hdup as (x & Hx & Hsim).
        apply bool_decide_eq_true in Hsim.
        exists x. split; [exact Hx |]. right. exact Hsim. }
      right. eexists. split; [reflexivity |]. split.
      - intros k. destruct (JsString.isEmpty key) eqn:Hempty; cbn [negb].
        + apply isEmpty_iff in Hempty. rewrite Hseen. split.
          * intros (Hk & x & Hx & Hkx). split; [exact Hk |].
            exists x. split; [apply List.in_or_app; left; exact Hx | exact Hkx].
          * intros (Hk & x & Hx & Hkx). split; [exact Hk |].
            apply List.in_app_or in Hx as [Hx | [<- | []]]; [exists x; tauto |].
            fold key in Hkx. congruence.
        + apply isEmpty_false_iff in Hempty.
          rewrite elem_of_union, elem_of_singleton, Hseen. split.
          * intros [(Hk & x & Hx & Hkx) | ->].
            -- split; [exact Hk |]. exists x. split; [apply List.in_or_app; left; exact Hx | exact Hkx].
            -- split; [exact Hempty |]. exists item.
               split; [apply List.in_or_app; right; left; reflexivity | reflexivity].
          * intros (Hk & x & Hx & Hkx).
            apply List.in_app_or in Hx as [Hx | [<- | []]]; [left | right].
            -- split; [exact Hk |]. exists x. tauto.
            -- symmetry. exact Hkx.
      - apply List.Forall_forall. intros x Hx [[Hne Hkey] | Hsim].
        + fold key in Hne, Hkey.
          assert (Hin : key ∈ seenUrls).
          { apply Hseen. split; [exact Hne |]. exists x. split; [exact Hx | symmetry; exact Hkey]. }
          apply andb_false_iff in Hurl as [Hurl | Hurl].
          * apply negb_false_iff, isEmpty_iff in Hurl. contradiction.
          * apply bool_decide_eq_false in Hurl. contradiction.
        + assert (Hex : existsb
                          (fun existing =>
                             bool_decide
                               (calculateSimilarity parseURL matchAll item existing
                                >= similarityThreshold)%R) unique = true).
          { apply List.existsb_exists. exists x. split; [exact Hx |].
            apply bool_decide_eq_true. exact Hsim. }
          congruence. }
    destruct Hstep as [[-> (kept & Hkept & Hdupl)] | (seenUrls' & -> & Hseen' & Hnew)].
    + specialize (IH unique seenUrls Hseen Hapart). cbv zeta in IH.
      destruct IH as (Hap & Hsub & Horigin & Hall).
      split; [exact Hap |]. split; [exact Hsub |]. split.
      * intros x Hx. destruct (Horigin x Hx) as [H | H]; [left; exact H | right; right; exact H].
      * intros pre d suf E. destruct pre as [| p pre]; cbn [app] in E.
        -- injection E as <- <-. right. exists kept. rewrite app_nil_r.
           split; [exact Hkept |]. split; [apply Hsub, Hkept | exact Hdupl].
        -- injection E as <- ->.
           destruct (Hall pre d suf eq_refl) as [Hin | (k & Hk & Hk' & Hd)]; [left; exact Hin |].
           right. exists k. split; [| split; assumption].
           apply List.in_app_or in Hk as [Hk | Hk]; apply List.in_or_app;
             [left; exact Hk | right; right; exact Hk].
    + assert (Hapart' : ForallOrdPairs
                          (fun earlier later =>
                             ~ duplicates parseURL matchAll similarityThreshold later earlier)
                          (unique ++ [item]))
        by (apply ForallOrdPairs_snoc; assumption).
      specialize (IH (unique ++ [item]) seenUrls' Hseen' Hapart'). cbv zeta in IH.
      destruct IH as (Hap & Hsub & Horigin & Hall).
      split; [exact Hap |]. split; [| split].
      * intros x Hx. apply Hsub. apply List.in_or_app. left. exact Hx.
      * intros x Hx. destruct (Horigin x Hx) as [H | H]; [| right; right; exact H].
        apply List.in_app_or in H as [H | [<- | []]]; [left; exact H | right; left; reflexivity].
      * intros pre d suf E. destruct pre as [| p pre]; cbn [app] in E.
        -- injection E as <- <-. left. apply Hsub. apply List.in_or_app. right. left. reflexivity.
        -- injection E as <- ->.
           destruct (Hall pre d suf eq_refl) as [Hin | (k & Hk & Hk' & Hd)]; [left; exact Hin |].
           right. exists k. split; [| split; assumption].
           rewrite <- app_assoc in Hk. exact Hk.
Qed.

Lemma deduplicateItems_invariants (items : list NormalizedItem) :
  let kept := deduplicateItems parseURL matchAll items similarityThreshold in
  ForallOrdPairs
    (fun earlier later => ~ duplicates parseURL matchAll similarityThreshold later earlier) kept
  /\ (forall x, In x kept -> In x items)
  /\ forall d, In d items ->
      In d kept
      \/ exists x, In x kept
                   /\ (item_engagement d <= item_engagement x)%R
                   /\ duplicates parseURL matchAll similarityThreshold d x.
Proof.
  intros kept. subst kept. unfold deduplicateItems.
  pose proof (sort_Permutation byEngagementDesc items) as Hperm.
  pose proof (sort_sorted byEngagementDesc byEngagementDesc_total byEngagementDesc_trans items)
    as Hsorted.
  destruct (dedup_loop (JsArray.sort byEngagementDesc items) [] ∅) as (Hap & _ & Horigin & Hall).
  { intros k. split; [set_solver | intros (_ & x & [] & _)]. }
  { constructor. }
  split; [exact Hap |]. split.
  - intros x Hx. destruct (Horigin x Hx) as [[] | H].
    apply (Permutation_in _ (Permutation_sym Hperm)), H.
  - intros d Hd. apply (Permutation_in _ Hperm) in Hd.
    apply List.in_split in Hd as (pre & suf & E).
    destruct (Hall pre d suf E) as [Hin | (x & Hx & Hx' & Hdup)]; [left; exact Hin | right].
    exists x. split; [exact Hx' |]. split; [| exact Hdup].
    rewrite E in Hsorted. cbn [app] in Hx.
    pose proof (StronglySorted_middle _ _ _ _ Hsorted x Hx) as Hle.
    unfold mayPrecede, byEngagementDesc in Hle. lra.
Qed.

Lemma deduplicateItems_top (items : list NormalizedItem) :
  items <> [] ->
  exists top rest,
    deduplicateItems parseURL matchAll items similarityThreshold = top :: rest
    /\ forall x, In x items -> (item_engagement x <= item_engagement top)%R.
Proof.
  intros Hne. unfold deduplicateItems.
  pose proof (sort_Permutation byEngagementDesc items) as Hperm.
  pose proof (sort_sorted byEngagementDesc byEngagementDesc_total byEngagementDesc_trans items)
    as Hsorted.
  destruct (JsArray.sort byEngagementDesc items) as [| top sorted] eqn:Hs.
  { apply Permutation_sym, Permutation_nil in Hperm. contradiction. }
  cbn [List.fold_left]. unfold dedupStep at 2.
  rewrite bool_decide_eq_false_2 by set_solver. rewrite andb_false_r.
  cbn [existsb negb app].
  destruct (dedupLoop_rerun parseURL matchAll similarityThreshold sorted [top]
              (if negb (JsString.isEmpty (dedupUrlKey parseURL top))
               then ∅ ∪ {[dedupUrlKey parseURL top]} else ∅)) as (kept & _ & -> & _).
  exists top, kept. split; [reflexivity |].
  intros x Hx. apply (Permutation_in _ Hperm) in Hx. destruct Hx as [<- | Hx]; [lra |].
  apply StronglySorted_inv in Hsorted as [_ Hall].
  rewrite List.Forall_forall in Hall. specialize (Hall x Hx).
  unfold mayPrecede, byEngagementDesc in Hall. lra.
Qed.

End DedupInvariants.

(** X17. Every item that [deduplicateItems] removes is a duplicate of an
    item it keeps whose engagement is at least as high: the kept item has
    the same non-empty normalised URL, or the similarity of the removed item
    to it reaches the threshold. *)
Theorem deduplicateItems_removed
        (parseURL : string -> option URL)
        (matchAll : EntityPattern -> string -> list string)
        (items : list NormalizedItem) (similarityThreshold : R) (removed : NormalizedItem) :
  In removed items ->
  ~ In removed (deduplicateItems parseURL matchAll items similarityThreshold) ->
  exists kept,
    In kept (deduplicateItems parseURL matchAll items similarityThreshold)
    /\ (item_engagement removed <= item_engagement kept)%R
    /\ duplicates parseURL matchAll similarityThreshold removed kept.
Proof.
  intros Hin Hout.
  destruct (deduplicateItems_invariants parseURL matchAll similarityThreshold items)
    as (_ & _ & Hall).
  destruct (Hall removed Hin) as [Hkept | H]; [contradiction | exact H].
Qed.

Lemma deduplicateItems_removed_witness :
  exists kept,
    In kept (deduplicateItems SimpleUrl.parse noEntityMatches [variantA; variantB; variantC]
               defaultDedupThreshold)
    /\ (item_engagement variantA <= item_engagement kept)%R
    /\ duplicates SimpleUrl.parse noEntityMatches defaultDedupThreshold variantA kept.
Proof.
  apply deduplicateItems_removed.
  - left. reflexivity.
  - rewrite deduplicateItems_url_variants. intros [H | []]. discriminate H.
Defined.

(** X18. No two items that [deduplicateItems] keeps are duplicates of each
    other: a kept item neither has the non-empty normalised URL of an item
    kept before it nor a similarity to it that reaches the threshold.  Every
    kept item is an item of the input, and when the input is not empty the
    first kept item has the highest engagement of all input items. *)
Theorem deduplicateItems_survivors
        (parseURL : string -> option URL)
        (matchAll : EntityPattern -> string -> list string)
        (items : list NormalizedItem) (similarityThreshold : R) :
  let kept := deduplicateItems parseURL matchAll items similarityThreshold in
  ForallOrdPairs
    (fun earlier later => ~ duplicates parseURL matchAll similarityThreshold later earlier) kept
  /\ (forall x, In x kept -> In x items)
  /\ (items <> [] ->
      exists top rest,
        kept = top :: rest
        /\ forall x, In x items -> (item_engagement x <= item_engagement top)%R).
Proof.
  intros kept. subst kept.
  destruct (deduplicateItems_invariants parseURL matchAll similarityThreshold items)
    as (Hap & Hsub & _).
  split; [exact Hap |]. split; [exact Hsub |]. apply deduplicateItems_top.
Qed.

(** ** The first entries of a sorted array *)

Lemma slice0_firstn {A : Type} (l : list A) (end_ : Z) :
  exists k : nat, JsArray.slice0 l end_ = firstn k l.
Proof. unfold JsArray.slice0. eexists. reflexivity. Qed.

Lemma slice0_sublist {A : Type} (l : list A) (end_ : Z) : sublist (JsArray.slice0 l end_) l.
Proof.
  destruct (slice0_firstn l end_) as [k ->].
  rewrite <- (firstn_skipn k l) at 2. apply sublist_inserts_r. reflexivity.
Qed.

Lemma slice0_all {A : Type} (l : list A) (end_ : Z) :
  (Z.of_nat (length l) <= end_)%Z -> JsArray.slice0 l end_ = l.
Proof.
  intros Hlen. unfold JsArray.slice0.
  destruct (Z.ltb_spec end_ 0) as [Hneg | Hpos]; [lia |].
  rewrite Z.min_r by lia. rewrite Nat2Z.id. apply firstn_all.
Qed.

Section TopOfSorted.
Context {A : Type}.
Variable compareFn : A -> A -> R.
Hypothesis compare_total :
  forall x y, mayPrecede compareFn x y \/ mayPrecede compareFn y x.
Hypothesis compare_trans :
  forall x y z, mayPrecede compareFn x y -> mayPrecede compareFn y z -> mayPrecede compareFn x z.

Lemma sorted_slice_sorted (l : list A) (end_ : Z) :
  StronglySorted (mayPrecede compareFn) (JsArray.slice0 (JsArray.sort compareFn l) end_).
Proof.
  eapply sublist_sorted; [apply slice0_sublist |].
  apply sort_sorted; assumption.
Qed.

(** What the slice leaves out does not come before what it keeps. *)
Lemma sorted_slice_top (l : list A) (end_ : Z) (x y : A) :
  In x (JsArray.slice0 (JsArray.sort compareFn l) end_) ->
  In y l ->
  ~ In y (JsArray.slice0 (JsArray.sort compareFn l) end_) ->
  mayPrecede compareFn x y.
Proof.
  destruct (slice0_firstn (JsArray.sort compareFn l) end_) as [k ->].
  intros Hx Hy Hout.
  pose proof (sort_sorted compareFn compare_total compare_trans l) as Hsorted.
  apply (Permutation_in _ (sort_Permutation compareFn l)) in Hy.
  rewrite <- (firstn_skipn k (JsArray.sort compareFn l)) in Hy, Hsorted.
  apply List.in_app_or in Hy as [Hy | Hy]; [contradiction |].
  apply List.in_split in Hy as (pre & suf & E). rewrite E in Hsorted.
  rewrite app_assoc in Hsorted.
  apply (StronglySorted_middle _ _ _ _ Hsorted).
  apply List.in_or_app. left. exact Hx.
Qed.

End TopOfSorted.

(** ** Receipts *)

Lemma StronglySorted_map {A B : Type} (f : A -> B) (before : B -> B -> Prop) (l : list A) :
  StronglySorted (fun x y => before (f x) (f y)) l -> StronglySorted before (List.map f l).
Proof.
  induction 1 as [| x l _ IH Hall]; cbn [List.map]; constructor; [exact IH |].
  apply List.Forall_map. exact Hall.
Qed.

(** X19. The receipts of a cluster are the receipts of its items with the
    highest engagement, in descending order of engagement: there are
    [min(max, n)] of them for [n] items and a non-negative [max], each is the
    receipt of an item of the cluster, and no item that is left out has a
    higher engagement than a receipt. *)
Theorem itemsToReceipts_top (items : list NormalizedItem) (max : Z) :
  let receipts := itemsToReceipts items max in
  ((0 <= max)%Z -> Z.of_nat (length receipts) = Z.min max (Z.of_nat (length items)))
  /\ StronglySorted (fun a b => (receipt_engagement b <= receipt_engagement a)%R) receipts
  /\ (forall receipt, In receipt receipts ->
                      exists item, In item items /\ receipt = itemToReceipt item)
  /\ (forall receipt item,
         In receipt receipts -> In item items -> ~ In (itemToReceipt item) receipts ->
         (item_engagement item <= receipt_engagement receipt)%R).
Proof.
  intros receipts. subst receipts. unfold itemsToReceipts.
  split; [| split; [| split]].
  - intros Hmax. rewrite List.length_map, slice0_length, sort_length.
    destruct (Z.ltb_spec max 0); [lia | reflexivity].
  - apply StronglySorted_map. eapply StronglySorted_weaken;
      [| apply (sorted_slice_sorted byEngagementDesc byEngagementDesc_total
                  byEngagementDesc_trans)].
    intros a b. unfold mayPrecede, byEngagementDesc. cbn [itemToReceipt receipt_engagement]. lra.
  - intros receipt Hin. apply List.in_map_iff in Hin as (item & <- & Hin).
    exists item. split; [| reflexivity].
    eapply sort_In, slice0_In. exact Hin.
  - intros receipt item Hin Hitem Hout.
    apply List.in_map_iff in Hin as (kept & <- & Hin).
    assert (Hnot : ~ In item (JsArray.slice0 (JsArray.sort byEngagementDesc items) max)).
    { intros H. apply Hout. apply List.in_map. exact H. }
    pose proof (sorted_slice_top byEngagementDesc byEngagementDesc_total byEngagementDesc_trans
                  items max kept item Hin Hitem Hnot) as Hle.
    unfold mayPrecede, byEngagementDesc in Hle. cbn [itemToReceipt receipt_engagement]. lra.
Qed.

(** ** Items outside every topic *)

Lemma clusteredIds_inner (receipts : list Receipt) (ids : gset string) (id : string) :
  id ∈ List.fold_left (fun ids receipt => ids ∪ {[ receipt_id receipt ]}) receipts ids
  <-> id ∈ ids \/ exists receipt, In receipt receipts /\ receipt_id receipt = id.
Proof.
  revert ids. induction receipts as [| r receipts IH]; intros ids; cbn [List.fold_left].
  - split; [tauto | intros [H | (r & [] & _)]; exact H].
  - rewrite IH, elem_of_union, elem_of_singleton. split.
    + intros [[H | ->] | (r' & Hr' & E)]; [tauto | |].
      * right. exists r. split; [left; reflexivity | reflexivity].
      * right. exists r'. split; [right; exact Hr' | exact E].
    + intros [H | (r' & [<- | Hr'] & E)]; [tauto | |].
      * left. right. symmetry. exact E.
      * right. exists r'. tauto.
Qed.

Lemma clusteredIds_outer (topics : list Topic) (ids : gset string) (id : string) :
  id ∈ List.fold_left
         (fun ids topic =>
            List.fold_left (fun ids receipt => ids ∪ {[ receipt_id receipt ]})
              (topic_receipts topic) ids)
         topics ids
  <-> id ∈ ids
      \/ exists topic receipt,
          In topic topics /\ In receipt (topic_receipts topic) /\ receipt_id receipt = id.
Proof.
  revert ids. induction topics as [| t topics IH]; intros ids; cbn [List.fold_left].
  - split; [tauto | intros [H | (t & r & [] & _)]; exact H].
  - rewrite IH, clusteredIds_inner. split.
    + intros [[H | (r & Hr & E)] | (t' & r & Ht' & Hr & E)]; [tauto | |].
      * right. exists t, r. split; [left; reflexivity | tauto].
      * right. exists t', r. split; [right; exact Ht' | tauto].
    + intros [H | (t' & r & [<- | Ht'] & Hr & E)]; [tauto | |].
      * left. right. exists r. tauto.
      * right. exists t', r. tauto.
Qed.

(** X20. [findUnclusteredItems] returns items of the input that are not
    marked as duplicates and whose id is the id of no receipt of any topic,
    in descending order of engagement and at most [max] of them (for a
    non-negative [max]); an eligible item that is left out has no higher
    engagement than a returned one, and when [max] is at least the number of
    input items every eligible item is returned. *)
Theorem findUnclusteredItems_spec (items : list NormalizedItem) (topics : list Topic) (max : Z) :
  let found := findUnclusteredItems items topics max in
  (forall item, In item found -> In item items /\ unclustered topics item)
  /\ StronglySorted (fun a b => (item_engagement b <= item_engagement a)%R) found
  /\ ((0 <= max)%Z -> (Z.of_nat (length found) <= max)%Z)
  /\ (forall kept item,
         In kept found -> In item items -> unclustered topics item -> ~ In item found ->
         (item_engagement item <= item_engagement kept)%R)
  /\ ((Z.of_nat (length items) <= max)%Z ->
      forall item, In item items -> unclustered topics item -> In item found).
Proof.
  intros found. subst found. unfold findUnclusteredItems.
  set (clusteredIds := List.fold_left _ topics ∅).
  set (eligible := List.filter _ items).
  assert (Heligible : forall item, In item eligible <-> In item items /\ unclustered topics item).
  { intros item. unfold eligible. rewrite List.filter_In, andb_true_iff, !negb_true_iff.
    rewrite bool_decide_eq_false. unfold clusteredIds. rewrite clusteredIds_outer.
    unfold unclustered. split.
    - intros (Hin & Hm & Hid). split; [exact Hin |]. split; [exact Hm |].
      intros topic receipt Ht Hr E. apply Hid. right. exists topic, receipt. tauto.
    - intros (Hin & Hm & Hid). split; [exact Hin |]. split; [exact Hm |].
      intros [H | (topic & receipt & Ht & Hr & E)]; [set_solver |].
      exact (Hid topic receipt Ht Hr E). }
  split; [| split; [| split; [| split]]].
  - intros item Hin. apply Heligible. eapply sort_In, slice0_In. exact Hin.
  - eapply StronglySorted_weaken;
      [| apply (sorted_slice_sorted byEngagementDesc byEngagementDesc_total
                  byEngagementDesc_trans)].
    intros a b. unfold mayPrecede, byEngagementDesc. lra.
  - apply slice0_length_le.
  - intros kept item Hkept Hitem Hun Hout.
    assert (He : In item eligible) by (apply Heligible; tauto).
    pose proof (sorted_slice_top byEngagementDesc byEngagementDesc_total byEngagementDesc_trans
                  eligible max kept item Hkept He Hout) as Hle.
    unfold mayPrecede, byEngagementDesc in Hle. lra.
  - intros Hmax item Hitem Hun.
    rewrite slice0_all.
    + apply (Permutation_in _ (sort_Permutation byEngagementDesc eligible)).
      apply Heligible. tauto.
    + rewrite sort_length.
      assert (length eligible <= length items)%nat by apply List.filter_length_le. lia.
Qed.

(** ** Objects as dictionaries *)

Lemma JsObject_set_JsMap : JsObject.set = @JsMap.set R.
Proof. reflexivity. Qed.

Lemma JsObject_get_JsMap : JsObject.get = @JsMap.get R.
Proof. reflexivity. Qed.

Lemma insertIndexed_Permutation (x : N * (string * R)) (l : list (N * (string * R))) :
  Permutation (x :: l) (JsObject.insertIndexed x l).
Proof.
  induction l as [| y l IH]; cbn [JsObject.insertIndexed]; [reflexivity |].
  destruct (fst x <=? fst y)%N; [reflexivity |].
  rewrite perm_swap. constructor. exact IH.
Qed.

Lemma entries_Permutation (o : JsObject.t) : Permutation (JsObject.entries o) o.
Proof.
  unfold JsObject.entries, JsObject.indexedEntries, JsObject.namedEntries.
  induction o as [| e o IH]; [reflexivity |].
  cbn [omap list_omap List.filter].
  destruct (JsObject.arrayIndex (fst e)) as [n |] eqn:Hidx.
  - cbn [List.fold_right].
    rewrite <- insertIndexed_Permutation. cbn [List.map snd app]. constructor. exact IH.
  - rewrite <- Permutation_middle. constructor. exact IH.
Qed.

Lemma keys_Permutation (o : JsObject.t) : Permutation (JsObject.keys o) (List.map fst o).
Proof. unfold JsObject.keys. apply Permutation_map, entries_Permutation. Qed.

Lemma getOr0_set (o : JsObject.t) (k k' : string) (v : R) :
  JsObject.getOr0 (JsObject.set o k v) k'
  = if String.eqb k' k then v else JsObject.getOr0 o k'.
Proof.
  unfold JsObject.getOr0. rewrite JsObject_set_JsMap, JsObject_get_JsMap, JsMap_get_set.
  destruct (String.eqb k' k); reflexivity.
Qed.

Lemma getOr0_absent (o : JsObject.t) (k : string) :
  ~ In k (List.map fst o) -> JsObject.getOr0 o k = 0%R.
Proof.
  intros H. unfold JsObject.getOr0. rewrite JsObject_get_JsMap.
  apply JsMap_get_None in H. rewrite H. reflexivity.
Qed.

Lemma getOr0_In (o : JsObject.t) (k : string) (v : R) :
  List.NoDup (List.map fst o) -> In (k, v) o -> JsObject.getOr0 o k = v.
Proof.
  intros Hnd Hin. unfold JsObject.getOr0. rewrite JsObject_get_JsMap.
  rewrite (JsMap_get_In o k v Hnd Hin). reflexivity.
Qed.

Lemma getOr0_cons (k : string) (v : R) (o : JsObject.t) (t : string) :
  JsObject.getOr0 ((k, v) :: o) t = if String.eqb t k then v else JsObject.getOr0 o t.
Proof. unfold JsObject.getOr0. cbn [JsObject.get]. destruct (String.eqb t k); reflexivity. Qed.

Lemma getOr0_nil (t : string) : JsObject.getOr0 [] t = 0%R.
Proof. reflexivity. Qed.

(** ** Top keywords *)

Lemma termScores_inner_keys_new (ps : list (string * R)) (scores : JsObject.t) :
  List.NoDup (List.map fst ps) ->
  (forall t, In t (List.map fst ps) -> ~ In t (List.map fst scores)) ->
  List.map fst
    (List.fold_left
       (fun scores (p : string * R) =>
          let '(term, score) := p in
          JsObject.set scores term (JsObject.getOr0 scores term + score)%R) ps scores)
  = List.map fst scores ++ List.map fst ps.
Proof.
  revert scores. induction ps as [| [t s] ps IH]; intros scores Hnd Hnew;
    cbn [List.fold_left List.map fst].
  - rewrite app_nil_r. reflexivity.
  - cbn [List.map fst] in Hnd, Hnew. apply List.NoDup_cons_iff in Hnd as [Ht Hnd].
    assert (Hkeys : List.map fst (JsObject.set scores t (JsObject.getOr0 scores t + s)%R)
                    = List.map fst scores ++ [t]).
    { rewrite JsObject_set_JsMap, JsMap_keys_set.
      assert (Habs : JsMap.get scores t = None)
        by (apply JsMap_get_None, Hnew; left; reflexivity).
      rewrite Habs. reflexivity. }
    rewrite IH; [rewrite Hkeys, <- app_assoc; reflexivity | exact Hnd |].
    intros t' Ht' Hin. rewrite Hkeys in Hin.
    apply List.in_app_or in Hin as [Hin | [<- | []]]; [| contradiction].
    apply (Hnew t'); [right; exact Ht' | exact Hin].
Qed.

Lemma termScores_inner_keys_old (ps : list (string * R)) (scores : JsObject.t) :
  (forall t, In t (List.map fst ps) -> In t (List.map fst scores)) ->
  List.map fst
    (List.fold_left
       (fun scores (p : string * R) =>
          let '(term, score) := p in
          JsObject.set scores term (JsObject.getOr0 scores term + score)%R) ps scores)
  = List.map fst scores.
Proof.
  revert scores. induction ps as [| [t s] ps IH]; intros scores Hold;
    cbn [List.fold_left List.map fst]; [reflexivity |].
  assert (Hkeys : List.map fst (JsObject.set scores t (JsObject.getOr0 scores t + s)%R)
                  = List.map fst scores).
  { rewrite JsObject_set_JsMap, JsMap_keys_set.
    destruct (JsMap.get scores t) eqn:Hget; [reflexivity |].
    apply JsMap_get_None in Hget. exfalso. apply Hget, Hold. left. reflexivity. }
  rewrite IH; [exact Hkeys |].
  intros t' Ht'. rewrite Hkeys. apply Hold. right. exact Ht'.
Qed.

Lemma termScores_inner_values (ps : list (string * R)) (scores : JsObject.t) (t : string) :
  List.NoDup (List.map fst ps) ->
  JsObject.getOr0
    (List.fold_left
       (fun scores (p : string * R) =>
          let '(term, score) := p in
          JsObject.set scores term (JsObject.getOr0 scores term + score)%R) ps scores) t
  = (JsObject.getOr0 scores t + JsObject.getOr0 ps t)%R.
Proof.
  revert scores. induction ps as [| [k s] ps IH]; intros scores Hnd;
    cbn [List.fold_left List.map fst].
  - rewrite getOr0_nil. lra.
  - cbn [List.map fst] in Hnd. apply List.NoDup_cons_iff in Hnd as [Hk Hnd].
    rewrite IH by exact Hnd. rewrite getOr0_set, getOr0_cons.
    destruct (String.eqb t k) eqn:Htk; [| reflexivity].
    apply String.eqb_eq in Htk. subst k. rewrite (getOr0_absent ps t Hk). lra.
Qed.

Lemma map_fst_combine_terms (doc : DocumentVector) (terms : list string) :
  dv_terms doc = terms /\ length (dv_vector doc) = length terms ->
  List.map fst (combine (dv_terms doc) (dv_vector doc)) = terms.
Proof.
  intros [Ht Hl]. rewrite map_fst_combine; [exact Ht | rewrite Ht, Hl; reflexivity].
Qed.

Lemma termScores_loop (terms : list string) (vectors : list DocumentVector)
      (scores : JsObject.t) :
  List.NoDup terms -> overVocabulary terms vectors ->
  List.map fst scores = terms ->
  let termScores :=
    List.fold_left
      (fun scores doc =>
         List.fold_left
           (fun scores (p : string * R) =>
              let '(term, score) := p in
              JsObject.set scores term (JsObject.getOr0 scores term + score)%R)
           (combine (dv_terms doc) (dv_vector doc)) scores)
      vectors scores in
  List.map fst termScores = terms
  /\ forall t, JsObject.getOr0 termScores t
               = (JsObject.getOr0 scores t + termScore vectors t)%R.
Proof.
  intros Hnd Hvoc. revert scores.
  induction Hvoc as [| doc vectors Hdoc _ IH]; intros scores Hkeys termScores.
  - subst termScores. cbn [List.fold_left termScore List.fold_right].
    split; [exact Hkeys | intros t; lra].
  - subst termScores. cbn [List.fold_left].
    pose proof (map_fst_combine_terms doc terms Hdoc) as Hps.
    set (scores' := List.fold_left _ (combine (dv_terms doc) (dv_vector doc)) scores).
    assert (Hkeys' : List.map fst scores' = terms).
    { unfold scores'. rewrite termScores_inner_keys_old; [exact Hkeys |].
      intros t Ht. rewrite Hkeys, <- Hps. exact Ht. }
    destruct (IH scores' Hkeys') as [Hk Hv]. split; [exact Hk |].
    intros t. rewrite Hv. unfold scores'.
    rewrite termScores_inner_values by (rewrite Hps; exact Hnd).
    unfold termScore. cbn [List.fold_right]. lra.
Qed.

Lemma termScores_spec (terms : list string) (vectors : list DocumentVector) :
  vectors <> [] -> List.NoDup terms -> overVocabulary terms vectors ->
  let termScores :=
    List.fold_left
      (fun scores doc =>
         List.fold_left
           (fun scores (p : string * R) =>
              let '(term, score) := p in
              JsObject.set scores term (JsObject.getOr0 scores term + score)%R)
           (combine (dv_terms doc) (dv_vector doc)) scores)
      vectors JsObject.empty in
  List.map fst termScores = terms
  /\ forall t, JsObject.getOr0 termScores t = termScore vectors t.
Proof.
  intros Hne Hnd Hvoc. destruct vectors as [| doc vectors]; [contradiction |].
  apply List.Forall_cons_iff in Hvoc as [Hdoc Hvoc].
  cbn [List.fold_left]. cbv zeta.
  pose proof (map_fst_combine_terms doc terms Hdoc) as Hps.
  set (first := List.fold_left _ (combine (dv_terms doc) (dv_vector doc)) JsObject.empty).
  assert (Hkeys : List.map fst first = terms).
  { unfold first. rewrite termScores_inner_keys_new.
    - exact Hps.
    - rewrite Hps. exact Hnd.
    - intros t _ []. }
  destruct (termScores_loop terms vectors first Hnd Hvoc Hkeys) as [Hk Hv].
  split; [exact Hk |]. intros t. rewrite Hv. unfold first.
  rewrite termScores_inner_values by (rewrite Hps; exact Hnd).
  unfold termScore. cbn [List.fold_right].
  unfold JsObject.empty. rewrite getOr0_nil. lra.
Qed.

Lemma byScoreDesc_total (a b : string * R) :
  mayPrecede byScoreDesc a b \/ mayPrecede byScoreDesc b a.
Proof. unfold mayPrecede, byScoreDesc. lra. Qed.

Lemma byScoreDesc_trans (a b c : string * R) :
  mayPrecede byScoreDesc a b -> mayPrecede byScoreDesc b c -> mayPrecede byScoreDesc a c.
Proof. unfold mayPrecede, byScoreDesc. lra. Qed.

Lemma sublist_Permutation_NoDup {A : Type} (k l m : list A) :
  sublist k l -> Permutation l m -> List.NoDup m -> List.NoDup k.
Proof.
  intros Hsub Hperm Hnd. apply NoDup_ListNoDup.
  eapply sublist_NoDup; [| exact Hsub].
  apply NoDup_ListNoDup. eapply Permutation_NoDup; [symmetry; exact Hperm | exact Hnd].
Qed.

Lemma sublist_map {A B : Type} (f : A -> B) (k l : list A) :
  sublist k l -> sublist (List.map f k) (List.map f l).
Proof. induction 1; cbn [List.map]; constructor; assumption. Qed.

(** The scored terms in the order of the sort: the keywords are the keys of
    the first entries. *)
Lemma getTopKeywords_entries (terms : list string) (vectors : list DocumentVector) (n : Z) :
  vectors <> [] -> List.NoDup terms -> overVocabulary terms vectors ->
  exists sorted : list (string * R),
    getTopKeywords vectors n = List.map fst (JsArray.slice0 sorted n)
    /\ Permutation (List.map fst sorted) terms
    /\ (forall e, In e sorted -> snd e = termScore vectors (fst e))
    /\ (forall e e', In e (JsArray.slice0 sorted n) -> In e' sorted ->
                     ~ In e' (JsArray.slice0 sorted n) -> (snd e' <= snd e)%R).
Proof.
  intros Hne Hnd Hvoc. unfold getTopKeywords.
  destruct (termScores_spec terms vectors Hne Hnd Hvoc) as [Hkeys Hvalues].
  set (termScores := List.fold_left _ vectors JsObject.empty) in *.
  exists (JsArray.sort byScoreDesc (JsObject.entries termScores)).
  assert (Hperm : Permutation (JsArray.sort byScoreDesc (JsObject.entries termScores))
                    termScores).
  { rewrite <- sort_Permutation. apply entries_Permutation. }
  split; [reflexivity |]. split; [| split].
  - rewrite <- Hkeys. apply Permutation_map, Hperm.
  - intros [k v] He. apply (Permutation_in _ Hperm) in He. cbn [fst snd].
    rewrite <- Hvalues. symmetry. apply getOr0_In; [rewrite Hkeys; exact Hnd | exact He].
  - intros e e' He He' Hout.
    apply (Permutation_in _ (Permutation_sym (sort_Permutation byScoreDesc _))) in He'.
    pose proof (sorted_slice_top byScoreDesc byScoreDesc_total byScoreDesc_trans
                  (JsObject.entries termScores) n e e' He He' Hout) as Hle.
    unfold mayPrecede, byScoreDesc in Hle. lra.
Qed.

Lemma getTopKeywords_keys (terms : list string) (vectors : list DocumentVector) (n : Z) :
  vectors <> [] -> List.NoDup terms -> overVocabulary terms vectors ->
  List.NoDup (getTopKeywords vectors n)
  /\ (forall keyword, In keyword (getTopKeywords vectors n) -> In keyword terms)
  /\ ((0 <= n)%Z ->
      Z.of_nat (length (getTopKeywords vectors n)) = Z.min n (Z.of_nat (length terms))).
Proof.
  intros Hne Hnd Hvoc.
  destruct (getTopKeywords_entries terms vectors n Hne Hnd Hvoc)
    as (sorted & -> & Hperm & _ & _).
  split; [| split].
  - eapply sublist_Permutation_NoDup;
      [apply sublist_map, slice0_sublist | exact Hperm | exact Hnd].
  - intros keyword Hin. apply (Permutation_in _ Hperm).
    apply List.in_map_iff in Hin as (e & <- & Hin). apply List.in_map.
    eapply slice0_In. exact Hin.
  - intros Hn. rewrite List.length_map, slice0_length.
    destruct (Z.ltb_spec n 0); [lia |].
    rewrite <- (Permutation_length Hperm), List.length_map. reflexivity.
Qed.

(** X21. For a non-empty cluster of vectors over one vocabulary of distinct
    terms, none of them a property name of [Object.prototype] (for the term
    [constructor] the scores are no numbers), [getTopKeywords] returns
    [min(n, number of terms)] keywords (for a non-negative [n]), all
    different and all from the vocabulary, and no term that is left out has
    a higher total score over the cluster than a keyword.  The keywords are
    taken from the whole vocabulary, so a keyword of a cluster need not occur
    in any of its items. *)
Theorem getTopKeywords_spec (terms : list string) (vectors : list DocumentVector) (n : Z) :
  vectors <> [] -> List.NoDup terms -> overVocabulary terms vectors ->
  Forall (fun term => JsObject.inherited term = false) terms ->
  let keywords := getTopKeywords vectors n in
  List.NoDup keywords
  /\ (forall keyword, In keyword keywords -> In keyword terms)
  /\ ((0 <= n)%Z -> Z.of_nat (length keywords) = Z.min n (Z.of_nat (length terms)))
  /\ (forall keyword term,
         In keyword keywords -> In term terms -> ~ In term keywords ->
         (termScore vectors term <= termScore vectors keyword)%R).
Proof.
  intros Hne Hnd Hvoc _ keywords. subst keywords.
  destruct (getTopKeywords_keys terms vectors n Hne Hnd Hvoc) as (Hk1 & Hk2 & Hk3).
  split; [exact Hk1 |]. split; [exact Hk2 |]. split; [exact Hk3 |].
  destruct (getTopKeywords_entries terms vectors n Hne Hnd Hvoc)
    as (sorted & -> & Hperm & Hscore & Htop).
  intros keyword term Hkw Hterm Hout.
  apply List.in_map_iff in Hkw as (e & <- & He).
  apply (Permutation_in _ (Permutation_sym Hperm)) in Hterm.
  apply List.in_map_iff in Hterm as (e' & <- & He').
  rewrite <- (Hscore e) by (eapply slice0_In; exact He).
  rewrite <- (Hscore e') by exact He'.
  apply Htop; [exact He | exact He' |].
  intros H. apply Hout. apply List.in_map. exact H.
Qed.

Lemma getTopKeywords_spec_witness :
  Z.of_nat (length (getTopKeywords sampleCluster 1)) = Z.min 1 (Z.of_nat 2).
Proof.
  refine (proj1 (proj2 (proj2
            (getTopKeywords_spec ["alert"; "rocket"] sampleCluster 1 _ _ _ _))) _).
  - discriminate.
  - repeat constructor; cbn; intros H; decompose [or] H; discriminate || contradiction.
  - repeat constructor.
  - repeat constructor.
  - lia.
Defined.

(** ** The vocabulary of the TF-IDF vectors *)

Lemma fold_set_keys (ks : list string) (f : JsObject.t -> string -> R) (o : JsObject.t) :
  let result := List.fold_left (fun o k => JsObject.set o k (f o k)) ks o in
  (List.NoDup (List.map fst o) -> List.NoDup (List.map fst result))
  /\ forall k, In k (List.map fst result) <-> In k (List.map fst o) \/ In k ks.
Proof.
  revert o. induction ks as [| t ks IH]; intros o result; subst result; cbn [List.fold_left].
  - split; [tauto | intros k; cbn; tauto].
  - destruct (IH (JsObject.set o t (f o t))) as [Hnd Hin]. cbv zeta in Hnd, Hin.
    assert (Hset : forall k, In k (List.map fst (JsObject.set o t (f o t)))
                             <-> In k (List.map fst o) \/ k = t).
    { intros k. rewrite JsObject_set_JsMap, JsMap_keys_set.
      destruct (JsMap.get o t) eqn:Hget.
      - split; [tauto | intros [H | ->]; [exact H |]].
        destruct (List.in_dec String.string_dec t (List.map fst o)) as [Hyes | Hno];
          [exact Hyes |].
        apply JsMap_get_None in Hno. congruence.
      - rewrite List.in_app_iff. cbn [In]. intuition congruence. }
    split.
    + intros Ho. apply Hnd. rewrite JsObject_set_JsMap. apply JsMap_set_NoDup, Ho.
    + intros k. rewrite Hin, Hset. cbn [In]. intuition congruence.
Qed.

Lemma keys_In (o : JsObject.t) (k : string) : In k (JsObject.keys o) <-> In k (List.map fst o).
Proof.
  split; apply Permutation_in; [| symmetry]; apply keys_Permutation.
Qed.

Lemma keys_NoDup (o : JsObject.t) :
  List.NoDup (List.map fst o) -> List.NoDup (JsObject.keys o).
Proof.
  intros H. eapply Permutation_NoDup; [symmetry; apply keys_Permutation | exact H].
Qed.

Lemma calculateTF_keys (text : string) :
  List.NoDup (List.map fst (calculateTF text))
  /\ forall k, In k (List.map fst (calculateTF text)) <-> In k (extractTerms text).
Proof.
  unfold calculateTF.
  set (counts := List.fold_left _ (extractTerms text) JsObject.empty).
  destruct (fold_set_keys (extractTerms text)
              (fun tf term => (JsObject.getOr0 tf term + 1)%R) JsObject.empty) as [Hnd Hin].
  cbv zeta in Hnd, Hin. fold counts in Hnd, Hin.
  set (maxFreq := List.fold_right JsMath.max 1%R (JsObject.values counts)).
  destruct (fold_set_keys (JsObject.keys counts)
              (fun tf term => (JsObject.getOr0 tf term / maxFreq)%R) counts) as [Hnd' Hin'].
  cbv zeta in Hnd', Hin'. split.
  - apply Hnd', Hnd. constructor.
  - intros k. rewrite Hin', keys_In, Hin. cbn [JsObject.empty List.map In]. tauto.
Qed.

Lemma termDocCount_keys (documents : list JsObject.t) (counts : JsObject.t) :
  let result :=
    List.fold_left
      (fun counts doc =>
         List.fold_left
           (fun counts term => JsObject.set counts term (JsObject.getOr0 counts term + 1)%R)
           (JsObject.keys doc) counts)
      documents counts in
  (List.NoDup (List.map fst counts) -> List.NoDup (List.map fst result))
  /\ forall k, In k (List.map fst result)
               <-> In k (List.map fst counts)
                   \/ exists doc, In doc documents /\ In k (List.map fst doc).
Proof.
  revert counts. induction documents as [| doc documents IH]; intros counts result;
    subst result; cbn [List.fold_left].
  - split; [tauto |]. intros k. split; [tauto | intros [H | (doc & [] & _)]; exact H].
  - destruct (fold_set_keys (JsObject.keys doc)
                (fun counts term => (JsObject.getOr0 counts term + 1)%R) counts) as [Hnd Hin].
    cbv zeta in Hnd, Hin.
    set (counts' := List.fold_left _ (JsObject.keys doc) counts) in *.
    destruct (IH counts') as [Hnd' Hin']. cbv zeta in Hnd', Hin'. split.
    + intros H. apply Hnd', Hnd, H.
    + intros k. rewrite Hin', Hin, keys_In. split.
      * intros [[H | H] | (d & Hd & Hk)]; [tauto | |].
        -- right. exists doc. split; [left; reflexivity | exact H].
        -- right. exists d. split; [right; exact Hd | exact Hk].
      * intros [H | (d & [<- | Hd] & Hk)]; [tauto | tauto |].
        right. exists d. tauto.
Qed.

Lemma calculateIDF_keys (documents : list JsObject.t) :
  List.NoDup (List.map fst (calculateIDF documents))
  /\ forall k, In k (List.map fst (calculateIDF documents))
               <-> exists doc, In doc documents /\ In k (List.map fst doc).
Proof.
  unfold calculateIDF.
  destruct (termDocCount_keys documents JsObject.empty) as [_ Hin]. cbv zeta in Hin.
  set (termDocCount := List.fold_left _ documents JsObject.empty) in *.
  destruct (fold_set_keys (JsObject.keys termDocCount)
              (fun (idf : JsObject.t) term =>
                 (JsMath.log (INR (length documents)
                              / (JsObject.getOr0 termDocCount term + 1)) + 1)%R)
              JsObject.empty) as [Hnd' Hin'].
  cbv zeta in Hnd', Hin'. split.
  - apply Hnd'. constructor.
  - intros k. rewrite Hin', keys_In, Hin. cbn [JsObject.empty List.map In]. tauto.
Qed.

Lemma insertString_Permutation (x : string) (l : list string) :
  Permutation (x :: l) (JsArray.insertString x l).
Proof.
  induction l as [| y l IH]; cbn [JsArray.insertString]; [reflexivity |].
  destruct (String.leb x y); [reflexivity |].
  rewrite perm_swap. constructor. exact IH.
Qed.

Lemma sortStrings_Permutation (l : list string) : Permutation l (JsArray.sortStrings l).
Proof.
  induction l as [| x l IH]; cbn [JsArray.sortStrings]; [reflexivity |].
  rewrite <- insertString_Permutation. constructor. exact IH.
Qed.

Lemma combine_map_r {A B : Type} (f : A -> B) (l : list A) :
  combine l (List.map f l) = List.map (fun x => (x, f x)) l.
Proof. induction l as [| x l IH]; cbn; [reflexivity | rewrite IH; reflexivity]. Qed.

Lemma getOr0_combine_map (g : string -> R) (l : list string) (t : string) :
  JsObject.getOr0 (combine l (List.map g l)) t = if JsArray.includes l t then g t else 0%R.
Proof.
  unfold JsArray.includes. induction l as [| x l IH]; [reflexivity |].
  cbn [List.map combine existsb]. rewrite getOr0_cons, IH.
  destruct (String.eqb t x) eqn:E; [| reflexivity].
  apply String.eqb_eq in E. subst x. reflexivity.
Qed.

(** ** Non-negative weights *)

Lemma fold_set_nonneg (ks : list string) (f : JsObject.t -> string -> R) (o : JsObject.t) :
  (forall o' k, (forall t, 0 <= JsObject.getOr0 o' t)%R -> (0 <= f o' k)%R) ->
  (forall t, 0 <= JsObject.getOr0 o t)%R ->
  forall t, (0 <= JsObject.getOr0
                    (List.fold_left (fun o k => JsObject.set o k (f o k)) ks o) t)%R.
Proof.
  intros Hf. revert o. induction ks as [| k ks IH]; intros o Ho; cbn [List.fold_left];
    [exact Ho |].
  apply IH. intros t. rewrite getOr0_set. destruct (String.eqb t k); [apply Hf, Ho | apply Ho].
Qed.

Lemma maxFreq_at_least_one (values : list R) : (1 <= List.fold_right JsMath.max 1 values)%R.
Proof.
  induction values as [| v values IH]; cbn [List.fold_right]; [lra |].
  unfold JsMath.max at 1. pose proof (Rmax_r v (List.fold_right JsMath.max 1%R values)). lra.
Qed.

Lemma calculateTF_nonneg (text : string) (t : string) :
  (0 <= JsObject.getOr0 (calculateTF text) t)%R.
Proof.
  unfold calculateTF.
  set (counts := List.fold_left _ (extractTerms text) JsObject.empty).
  assert (Hcounts : forall t', (0 <= JsObject.getOr0 counts t')%R).
  { unfold counts.
    apply (fold_set_nonneg (extractTerms text) (fun tf term => (JsObject.getOr0 tf term + 1)%R)).
    - intros o' k Ho'. specialize (Ho' k). lra.
    - intros t'. unfold JsObject.empty. rewrite getOr0_nil. lra. }
  pose proof (maxFreq_at_least_one (JsObject.values counts)) as Hmax.
  set (maxFreq := List.fold_right JsMath.max 1%R (JsObject.values counts)) in *.
  apply (fold_set_nonneg (JsObject.keys counts)
           (fun tf term => (JsObject.getOr0 tf term / maxFreq)%R)); [| exact Hcounts].
  intros o' k Ho'. specialize (Ho' k).
  apply Rmult_le_pos; [exact Ho' |]. left. apply Rinv_0_lt_compat. lra.
Qed.

(** How often a key is among the keys of the documents. *)
Lemma count_keys_values (ks : list string) (counts : JsObject.t) (t : string) :
  List.NoDup ks ->
  JsObject.getOr0
    (List.fold_left
       (fun counts term => JsObject.set counts term (JsObject.getOr0 counts term + 1)%R)
       ks counts) t
  = (JsObject.getOr0 counts t + (if JsArray.includes ks t then 1 else 0))%R.
Proof.
  unfold JsArray.includes. revert counts.
  induction ks as [| k ks IH]; intros counts Hnd; cbn [List.fold_left existsb].
  - lra.
  - apply List.NoDup_cons_iff in Hnd as [Hk Hnd]. rewrite IH by exact Hnd.
    rewrite getOr0_set. destruct (String.eqb t k) eqn:Htk; cbn [orb]; [| reflexivity].
    apply String.eqb_eq in Htk. subst k.
    assert (Hno : existsb (String.eqb t) ks = false).
    { destruct (existsb (String.eqb t) ks) eqn:E; [| reflexivity].
      exfalso. apply Hk. apply includes_In. exact E. }
    rewrite Hno. lra.
Qed.

Lemma termDocCount_bounds (documents : list JsObject.t) (counts : JsObject.t) (bound : R)
      (t : string) :
  Forall (fun doc => List.NoDup (List.map fst doc)) documents ->
  (0 <= JsObject.getOr0 counts t <= bound)%R ->
  (0 <= JsObject.getOr0
          (List.fold_left
             (fun counts doc =>
                List.fold_left
                  (fun counts term =>
                     JsObject.set counts term (JsObject.getOr0 counts term + 1)%R)
                  (JsObject.keys doc) counts)
             documents counts) t
   <= bound + INR (length documents))%R.
Proof.
  intros Hdocs. revert counts bound.
  induction Hdocs as [| doc documents Hdoc _ IH]; intros counts bound Hcounts;
    cbn [List.fold_left length].
  - cbn [INR]. lra.
  - rewrite S_INR.
    set (counts' := List.fold_left _ (JsObject.keys doc) counts).
    assert (Hcounts' : (0 <= JsObject.getOr0 counts' t <= bound + 1)%R).
    { unfold counts'. rewrite count_keys_values by (apply keys_NoDup, Hdoc).
      destruct (JsArray.includes (JsObject.keys doc) t); lra. }
    pose proof (IH counts' (bound + 1)%R Hcounts') as H. lra.
Qed.

Lemma ln_half_bound (x : R) : (/ 2 <= x)%R -> (0 <= ln x + 1)%R.
Proof.
  intros Hx.
  assert (Hln2 : (ln 2 < 1)%R).
  { rewrite <- (ln_exp 1). apply ln_increasing; [lra |].
    pose proof (exp_ineq1 1 ltac:(lra)). lra. }
  assert (Hhalf : ln (/ 2) = (- ln 2)%R) by (apply ln_Rinv; lra).
  assert (ln (/ 2) <= ln x)%R by (apply ln_le; lra).
  lra.
Qed.

Lemma calculateIDF_nonneg (documents : list JsObject.t) (t : string) :
  Forall (fun doc => List.NoDup (List.map fst doc)) documents ->
  (0 <= JsObject.getOr0 (calculateIDF documents) t)%R.
Proof.
  intros Hdocs. unfold calculateIDF.
  set (termDocCount := List.fold_left _ documents JsObject.empty).
  destruct documents as [| doc documents].
  { cbn. unfold JsObject.getOr0. cbn. lra. }
  revert t.
  apply (fold_set_nonneg (JsObject.keys termDocCount)
           (fun (idf : JsObject.t) term =>
              (JsMath.log (INR (length (doc :: documents))
                           / (JsObject.getOr0 termDocCount term + 1)) + 1)%R)).
  2: { intros t. unfold JsObject.empty. rewrite getOr0_nil. lra. }
  intros _ k _. unfold JsMath.log. apply ln_half_bound.
  pose proof (termDocCount_bounds (doc :: documents) JsObject.empty 0 k Hdocs) as Hb.
  fold termDocCount in Hb.
  assert (H0 : (0 <= JsObject.getOr0 JsObject.empty k <= 0)%R)
    by (unfold JsObject.empty; rewrite getOr0_nil; lra).
  specialize (Hb H0).
  assert (Hn : (1 <= INR (length (doc :: documents)))%R).
  { change 1%R with (INR 1). apply le_INR. cbn [length]. lia. }
  generalize dependent (INR (length (doc :: documents))). intros n Hb Hn.
  generalize dependent (JsObject.getOr0 termDocCount k). intros c Hb.
  assert (Hpos : (0 < c + 1)%R) by lra.
  apply (Rmult_le_reg_r (c + 1)); [exact Hpos |].
  unfold Rdiv. rewrite Rmult_assoc, Rinv_l by lra. lra.
Qed.

(** A value that is set from a positive one stays positive. *)
Lemma fold_set_pos (t : string) (ks : list string) (f : JsObject.t -> string -> R)
      (o : JsObject.t) :
  (forall o', (0 < JsObject.getOr0 o' t)%R -> (0 < f o' t)%R) ->
  (0 < JsObject.getOr0 o t)%R ->
  (0 < JsObject.getOr0 (List.fold_left (fun o k => JsObject.set o k (f o k)) ks o) t)%R.
Proof.
  intros Hf. revert o. induction ks as [| k ks IH]; intros o Ho; cbn [List.fold_left];
    [exact Ho |].
  apply IH. rewrite getOr0_set. destruct (String.eqb t k) eqn:E; [| exact Ho].
  apply String.eqb_eq in E. subst k. apply Hf, Ho.
Qed.

(** A value that is set at least once, each time to a positive number, ends
    positive. *)
Lemma fold_set_pos_In (t : string) (ks : list string) (f : JsObject.t -> string -> R)
      (o : JsObject.t) :
  (forall o', (0 <= JsObject.getOr0 o' t)%R -> (0 < f o' t)%R) ->
  (0 <= JsObject.getOr0 o t)%R -> In t ks ->
  (0 < JsObject.getOr0 (List.fold_left (fun o k => JsObject.set o k (f o k)) ks o) t)%R.
Proof.
  intros Hf. revert o. induction ks as [| k ks IH]; intros o Ho Hin; [destruct Hin |].
  cbn [List.fold_left].
  destruct (String.eqb t k) eqn:E.
  - apply String.eqb_eq in E. subst k. apply fold_set_pos.
    + intros o' Ho'. apply Hf. lra.
    + rewrite getOr0_set, String.eqb_refl. apply Hf, Ho.
  - apply IH.
    + rewrite getOr0_set, E. exact Ho.
    + destruct Hin as [-> | Hin]; [rewrite String.eqb_refl in E; discriminate | exact Hin].
Qed.

Lemma calculateTF_pos (text : string) (t : string) :
  In t (extractTerms text) -> (0 < JsObject.getOr0 (calculateTF text) t)%R.
Proof.
  intros Hin. unfold calculateTF.
  set (counts := List.fold_left _ (extractTerms text) JsObject.empty).
  assert (Hcount : (0 < JsObject.getOr0 counts t)%R).
  { unfold counts.
    apply (fold_set_pos_In t (extractTerms text)
             (fun tf term => (JsObject.getOr0 tf term + 1)%R)).
    - intros o' Ho'. lra.
    - unfold JsObject.empty. rewrite getOr0_nil. lra.
    - exact Hin. }
  pose proof (maxFreq_at_least_one (JsObject.values counts)) as Hmax.
  set (maxFreq := List.fold_right JsMath.max 1%R (JsObject.values counts)) in *.
  apply (fold_set_pos t (JsObject.keys counts)
           (fun tf term => (JsObject.getOr0 tf term / maxFreq)%R)); [| exact Hcount].
  intros o' Ho'. apply Rdiv_lt_0_compat; lra.
Qed.

Lemma ln_half_strict (x : R) : (/ 2 <= x)%R -> (0 < ln x + 1)%R.
Proof.
  intros Hx.
  assert (Hln2 : (ln 2 < 1)%R).
  { rewrite <- (ln_exp 1). apply ln_increasing; [lra |].
    pose proof (exp_ineq1 1 ltac:(lra)). lra. }
  assert (Hhalf : ln (/ 2) = (- ln 2)%R) by (apply ln_Rinv; lra).
  assert (ln (/ 2) <= ln x)%R by (apply ln_le; lra).
  lra.
Qed.

Lemma calculateIDF_pos (documents : list JsObject.t) (t : string) :
  Forall (fun doc => List.NoDup (List.map fst doc)) documents ->
  In t (List.map fst (calculateIDF documents)) ->
  (0 < JsObject.getOr0 (calculateIDF documents) t)%R.
Proof.
  intros Hdocs Hkey.
  destruct documents as [| doc documents].
  { destruct Hkey. }
  assert (Hin : In t (JsObject.keys
                        (List.fold_left
                           (fun counts doc =>
                              List.fold_left
                                (fun counts term =>
                                   JsObject.set counts term (JsObject.getOr0 counts term + 1)%R)
                                (JsObject.keys doc) counts)
                           (doc :: documents) JsObject.empty))).
  { apply keys_In.
    destruct (termDocCount_keys (doc :: documents) JsObject.empty) as [_ Hk]. cbv zeta in Hk.
    apply Hk. right. apply calculateIDF_keys. exact Hkey. }
  unfold calculateIDF.
  set (termDocCount := List.fold_left _ (doc :: documents) JsObject.empty) in *.
  apply (fold_set_pos_In t (JsObject.keys termDocCount)
           (fun (idf : JsObject.t) term =>
              (JsMath.log (INR (length (doc :: documents))
                           / (JsObject.getOr0 termDocCount term + 1)) + 1)%R));
    [| unfold JsObject.empty; rewrite getOr0_nil; lra | exact Hin].
  intros _ _. unfold JsMath.log. apply ln_half_strict.
  pose proof (termDocCount_bounds (doc :: documents) JsObject.empty 0 t Hdocs) as Hb.
  fold termDocCount in Hb.
  assert (H0 : (0 <= JsObject.getOr0 JsObject.empty t <= 0)%R)
    by (unfold JsObject.empty; rewrite getOr0_nil; lra).
  specialize (Hb H0).
  assert (Hn : (1 <= INR (length (doc :: documents)))%R).
  { change 1%R with (INR 1). apply le_INR. cbn [length]. lia. }
  generalize dependent (INR (length (doc :: documents))). intros n Hb Hn.
  generalize dependent (JsObject.getOr0 termDocCount t). intros c Hb.
  assert (Hpos : (0 < c + 1)%R) by lra.
  apply (Rmult_le_reg_r (c + 1)); [exact Hpos |].
  unfold Rdiv. rewrite Rmult_assoc, Rinv_l by lra. lra.
Qed.

Lemma createTFIDFVectors_shape (items : list NormalizedItem) :
  exists terms idf,
    createTFIDFVectors items
    = List.map
        (fun item =>
           {| dv_item := item;
              dv_vector :=
                List.map
                  (fun term =>
                     (JsObject.getOr0 (calculateTF (termText item)) term
                      * JsObject.getOr0 idf term)%R)
                  terms;
              dv_terms := terms |})
        items
    /\ List.NoDup terms
    /\ (forall t, In t terms
                  <-> exists item, In item items /\ In t (extractTerms (termText item)))
    /\ (forall t, (0 <= JsObject.getOr0 idf t)%R)
    /\ forall t, In t terms -> (0 < JsObject.getOr0 idf t)%R.
Proof.
  unfold createTFIDFVectors.
  set (documents := List.map _ items).
  set (idf := calculateIDF documents).
  set (terms := JsArray.sortStrings (JsObject.keys idf)).
  exists terms, idf. split; [| split; [| split; [| split]]].
  - unfold documents. rewrite combine_map_r, List.map_map. reflexivity.
  - destruct (calculateIDF_keys documents) as [Hnd _]. fold idf in Hnd.
    eapply Permutation_NoDup; [apply sortStrings_Permutation |]. apply keys_NoDup, Hnd.
  - intros t. destruct (calculateIDF_keys documents) as [_ Hin]. fold idf in Hin.
    assert (Hterms : In t terms <-> In t (List.map fst idf)).
    { unfold terms. rewrite <- keys_In.
      split; apply Permutation_in; [symmetry |]; apply sortStrings_Permutation. }
    rewrite Hterms, Hin. unfold documents. split.
    + intros (doc & Hdoc & Ht). apply List.in_map_iff in Hdoc as (item & <- & Hitem).
      exists item. split; [exact Hitem |]. apply calculateTF_keys. exact Ht.
    + intros (item & Hitem & Ht). exists (calculateTF (termText item)). split.
      * apply List.in_map_iff. exists item. split; [reflexivity | exact Hitem].
      * apply calculateTF_keys. exact Ht.
  - intros t. apply calculateIDF_nonneg. unfold documents.
    apply List.Forall_map, List.Forall_forall. intros item _. apply calculateTF_keys.
  - intros t Ht. apply calculateIDF_pos.
    + unfold documents.
      apply List.Forall_map, List.Forall_forall. intros item _. apply calculateTF_keys.
    + apply keys_In. fold idf.
      eapply Permutation_in; [symmetry; apply sortStrings_Permutation | exact Ht].
Qed.

Lemma createTFIDFVectors_overVocabulary (items : list NormalizedItem) :
  exists terms,
    List.NoDup terms
    /\ (forall t, In t terms
                  <-> exists item, In item items /\ In t (extractTerms (termText item)))
    /\ overVocabulary terms (createTFIDFVectors items).
Proof.
  destruct (createTFIDFVectors_shape items) as (terms & idf & -> & Hnd & Hterms & _ & _).
  exists terms. split; [exact Hnd |]. split; [exact Hterms |].
  unfold overVocabulary. apply List.Forall_forall. intros doc Hdoc.
  apply List.in_map_iff in Hdoc as (item & <- & _). cbn [dv_terms dv_vector].
  split; [reflexivity | apply List.length_map].
Qed.

Lemma createTFIDFVectors_nonneg (items : list NormalizedItem) (doc : DocumentVector) :
  In doc (createTFIDFVectors items) -> Forall (fun x => (0 <= x)%R) (dv_vector doc).
Proof.
  destruct (createTFIDFVectors_shape items) as (terms & idf & -> & _ & _ & Hidf & _).
  intros Hdoc. apply List.in_map_iff in Hdoc as (item & <- & _). cbn [dv_vector].
  apply List.Forall_map, List.Forall_forall. intros term _.
  apply Rmult_le_pos; [apply calculateTF_nonneg | apply Hidf].
Qed.

(** X22. For items none of whose terms is a property name of
    [Object.prototype] (for the term [constructor] the frequencies are no
    numbers), [createTFIDFVectors] returns one vector per item, in the order
    of the items; all vectors list the same vocabulary, which holds each
    term extracted from the title and text of some item exactly once, and
    have one entry per term of it, so that the cosine similarity of two of
    them never takes the branch for vectors of different lengths; the entry
    of a term that was not extracted from the item is 0.  No entry is
    negative, so the cosine similarity of two of the vectors lies between 0
    and 1. *)
Theorem createTFIDFVectors_vocabulary (items : list NormalizedItem) :
  Forall (fun item =>
            Forall (fun term => JsObject.inherited term = false)
              (extractTerms (termText item))) items ->
  List.map dv_item (createTFIDFVectors items) = items
  /\ Forall (fun doc => Forall (fun x => (0 <= x)%R) (dv_vector doc)) (createTFIDFVectors items)
  /\ (forall u v,
         In u (createTFIDFVectors items) -> In v (createTFIDFVectors items) ->
         exists r, cosineSimilarity (dv_vector u) (dv_vector v) = Some r /\ (0 <= r <= 1)%R)
  /\ exists terms,
      List.NoDup terms
      /\ (forall t, In t terms
                    <-> exists item, In item items /\ In t (extractTerms (termText item)))
      /\ overVocabulary terms (createTFIDFVectors items)
      /\ (forall doc t,
             In doc (createTFIDFVectors items) ->
             ~ In t (extractTerms (termText (dv_item doc))) ->
             JsObject.getOr0 (combine (dv_terms doc) (dv_vector doc)) t = 0%R).
Proof.
  intros _.
  split; [apply createTFIDFVectors_items |].
  split; [apply List.Forall_forall; intros doc; apply createTFIDFVectors_nonneg |].
  split.
  { intros u v Hu Hv.
    destruct (cosineSimilarity_value (dv_vector u) (dv_vector v)) as (r & Hr & Hrange & Hpos).
    exists r. split; [exact Hr |].
    specialize (Hpos (createTFIDFVectors_nonneg items u Hu)
                  (createTFIDFVectors_nonneg items v Hv)). lra. }
  destruct (createTFIDFVectors_shape items) as (terms & idf & -> & Hnd & Hterms & _ & _).
  exists terms. split; [exact Hnd |]. split; [exact Hterms |]. split.
  - unfold overVocabulary. apply List.Forall_forall. intros doc Hdoc.
    apply List.in_map_iff in Hdoc as (item & <- & _). cbn [dv_terms dv_vector].
    split; [reflexivity | apply List.length_map].
  - intros doc t Hdoc Hout. apply List.in_map_iff in Hdoc as (item & <- & _).
    cbn [dv_terms dv_vector dv_item] in *.
    rewrite (getOr0_combine_map
               (fun term => (JsObject.getOr0 (calculateTF (termText item)) term
                             * JsObject.getOr0 idf term)%R)).
    destruct (JsArray.includes terms t); [| reflexivity].
    rewrite (getOr0_absent (calculateTF (termText item)) t); [apply Rmult_0_l |].
    intros H. apply Hout. apply calculateTF_keys. exact H.
Qed.

Lemma createTFIDFVectors_vocabulary_witness :
  List.map dv_item (createTFIDFVectors [freshItem; stormShort]) = [freshItem; stormShort]
  /\ Forall (fun doc => Forall (fun x => (0 <= x)%R) (dv_vector doc))
       (createTFIDFVectors [freshItem; stormShort]).
Proof.
  assert (Hown : Forall (fun item =>
                           Forall (fun term => JsObject.inherited term = false)
                             (extractTerms (termText item))) [freshItem; stormShort]).
  { apply List.Forall_cons; [| apply List.Forall_cons; [| apply List.Forall_nil]].
    - replace (extractTerms (termText freshItem)) with ["rocket"; "alert"; "sirens"; "heard"]
        by (vm_compute; reflexivity).
      repeat constructor.
    - replace (extractTerms (termText stormShort)) with ["storm"; "hits"; "coast"]
        by (vm_compute; reflexivity).
      repeat constructor. }
  destruct (createTFIDFVectors_vocabulary [freshItem; stormShort] Hown) as (Hitems & Hpos & _).
  split; [exact Hitems | exact Hpos].
Defined.

(** ** The shape of the topics *)

Lemma aggregateEmotions_sum (now : R) (items : list NormalizedItem) :
  distSum (aggregateEmotions now items) = 1%R.
Proof.
  rewrite aggregateEmotions_of_loop. destruct (aggregateLoop now items) as [weighted total].
  destruct (decide (total = 0%R)); apply normalizeDistribution_sum.
Qed.

Lemma clusterBySimilarity_clusters (vectors : list DocumentVector) (threshold : R)
      (cluster : list DocumentVector) :
  In cluster (clusterBySimilarity vectors threshold) ->
  cluster <> [] /\ forall v, In v cluster -> In v vectors.
Proof.
  intros Hin. split.
  - destruct (clusterBySimilarity_indices vectors threshold) as (ics & Heq & _ & _ & Hseed).
    rewrite <- Heq in Hseed. rewrite List.Forall_forall in Hseed.
    destruct (Hseed cluster Hin) as (seed & rest & -> & _). discriminate.
  - intros v Hv.
    apply (Permutation_in _ (clusterBySimilarity_Permutation vectors threshold)).
    apply List.in_concat. exists cluster. split; assumption.
Qed.

Lemma byWeightDesc_total (a b : Cluster) :
  mayPrecede byWeightDesc a b \/ mayPrecede byWeightDesc b a.
Proof. unfold mayPrecede, byWeightDesc. lra. Qed.

Lemma byWeightDesc_trans (a b c : Cluster) :
  mayPrecede byWeightDesc a b -> mayPrecede byWeightDesc b c -> mayPrecede byWeightDesc a c.
Proof. unfold mayPrecede, byWeightDesc. lra. Qed.

Section TopicShape.
Variable sha256Hex : string -> string.
Variable now : R.

Lemma rankedClusters_origin (uniqueItems : list NormalizedItem)
      (maxTopics minClusterSize : Z) (cluster : Cluster) :
  In cluster (rankedClusters now uniqueItems maxTopics minClusterSize) ->
  exists vectors,
    cluster = describeCluster now vectors
    /\ In vectors (clusterBySimilarity (createTFIDFVectors uniqueItems)
                     (similarityThreshold CLUSTERING_CONFIG))
    /\ (minClusterSize <= Z.of_nat (length vectors))%Z.
Proof.
  unfold rankedClusters. intros Hin.
  apply slice0_In, sort_In in Hin. apply List.in_map_iff in Hin as (vectors & <- & Hin).
  apply List.filter_In in Hin as [Hin Hsize]. apply Z.leb_le in Hsize.
  exists vectors. repeat split; assumption.
Qed.

Lemma rankedClusters_described (uniqueItems : list NormalizedItem)
      (maxTopics minClusterSize : Z) (cluster : Cluster) :
  In cluster (rankedClusters now uniqueItems maxTopics minClusterSize) ->
  exists vectors,
    cluster = describeCluster now vectors
    /\ vectors <> []
    /\ forall v, In v vectors -> In v (createTFIDFVectors uniqueItems).
Proof.
  intros Hin. apply rankedClusters_origin in Hin as (vectors & -> & Hin & _).
  exists vectors. split; [reflexivity |].
  apply (clusterBySimilarity_clusters _ _ _ Hin).
Qed.

Lemma describeCluster_keywords (uniqueItems : list NormalizedItem)
      (vectors : list DocumentVector) :
  vectors <> [] ->
  (forall v, In v vectors -> In v (createTFIDFVectors uniqueItems)) ->
  List.NoDup (cluster_keywords (describeCluster now vectors))
  /\ (length (cluster_keywords (describeCluster now vectors)) <= 5)%nat
  /\ forall keyword,
      In keyword (cluster_keywords (describeCluster now vectors)) ->
      exists item, In item uniqueItems /\ In keyword (extractTerms (termText item)).
Proof.
  intros Hne Hsub.
  destruct (createTFIDFVectors_overVocabulary uniqueItems) as (terms & Hnd & Hterms & Hvoc).
  assert (Hvoc' : overVocabulary terms vectors).
  { unfold overVocabulary in *. rewrite List.Forall_forall in *. intros v Hv.
    apply Hvoc, Hsub, Hv. }
  destruct (getTopKeywords_keys terms vectors (keywordsPerTopic CLUSTERING_CONFIG)
              Hne Hnd Hvoc') as (Hk1 & Hk2 & Hk3).
  cbn [describeCluster cluster_keywords]. split; [exact Hk1 |]. split.
  - change (keywordsPerTopic CLUSTERING_CONFIG) with 5%Z in *. specialize (Hk3 ltac:(lia)). lia.
  - intros keyword Hin. apply Hterms, Hk2, Hin.
Qed.

Lemma clusterIntoTopics_described (items : list NormalizedItem) (maxTopics minClusterSize : Z)
      (topic : Topic) :
  In topic (clusterIntoTopics sha256Hex now items maxTopics minClusterSize) ->
  exists vectors,
    topic = clusterToTopic sha256Hex (describeCluster now vectors)
    /\ vectors <> []
    /\ forall v, In v vectors ->
                 In v (createTFIDFVectors
                         (List.filter (fun item => negb (isMarkedDuplicate item)) items)).
Proof.
  unfold clusterIntoTopics.
  destruct (length (List.filter (fun item => negb (isMarkedDuplicate item)) items) =? 0)%nat;
    [intros [] |].
  intros Hin. apply List.in_map_iff in Hin as (cluster & <- & Hin).
  apply rankedClusters_described in Hin as (vectors & -> & Hne & Hsub).
  exists vectors. repeat split; assumption.
Qed.

Lemma clusterIntoTopics_sorted (items : list NormalizedItem) (maxTopics minClusterSize : Z) :
  StronglySorted (fun a b => (topic_weight b <= topic_weight a)%R)
    (clusterIntoTopics sha256Hex now items maxTopics minClusterSize).
Proof.
  unfold clusterIntoTopics.
  destruct (length (List.filter (fun item => negb (isMarkedDuplicate item)) items) =? 0)%nat;
    [constructor |].
  apply StronglySorted_map. unfold rankedClusters.
  eapply StronglySorted_weaken;
    [| apply (sorted_slice_sorted byWeightDesc byWeightDesc_total byWeightDesc_trans)].
  intros a b. unfold mayPrecede, byWeightDesc. cbn [clusterToTopic topic_weight]. lra.
Qed.

End TopicShape.

(** X23. The topics that [clusterIntoTopics] returns are in descending order
    of weight.  Each topic has the delta 0, an emotion mix that sums to 1,
    at most five keywords, all different and each a term extracted from an
    unmarked input item (not necessarily one of the topic), and between one
    and five receipts, each the receipt of an input item that is not marked
    as a duplicate. *)
Theorem clusterIntoTopics_shape
        (sha256Hex : string -> string) (now : R)
        (items : list NormalizedItem) (maxTopics minClusterSize : Z) :
  let topics := clusterIntoTopics sha256Hex now items maxTopics minClusterSize in
  StronglySorted (fun a b => (topic_weight b <= topic_weight a)%R) topics
  /\ Forall
       (fun topic =>
          topic_delta topic = 0%R
          /\ distSum (topic_emotionMix topic) = 1%R
          /\ List.NoDup (topic_keywords topic)
          /\ (length (topic_keywords topic) <= 5)%nat
          /\ (forall keyword,
                 In keyword (topic_keywords topic) ->
                 exists item,
                   In item items /\ isMarkedDuplicate item = false
                   /\ In keyword (extractTerms (termText item)))
          /\ (1 <= length (topic_receipts topic) <= 5)%nat
          /\ (forall receipt,
                 In receipt (topic_receipts topic) ->
                 exists item,
                   In item items /\ isMarkedDuplicate item = false
                   /\ receipt = itemToReceipt item))
       topics.
Proof.
  intros topics. subst topics. split; [apply clusterIntoTopics_sorted |].
  apply List.Forall_forall. intros topic Hin.
  apply clusterIntoTopics_described in Hin as (vectors & -> & Hne & Hsub).
  set (uniqueItems := List.filter (fun item => negb (isMarkedDuplicate item)) items) in *.
  assert (Hunique : forall item, In item uniqueItems ->
                                 In item items /\ isMarkedDuplicate item = false).
  { intros item Hitem. apply List.filter_In in Hitem as [Hitem Hm].
    apply negb_true_iff in Hm. tauto. }
  assert (Hitems : forall item, In item (List.map dv_item vectors) -> In item uniqueItems).
  { intros item Hitem. apply List.in_map_iff in Hitem as (v & <- & Hv).
    rewrite <- (createTFIDFVectors_items uniqueItems). apply List.in_map, Hsub, Hv. }
  destruct (describeCluster_keywords now uniqueItems vectors Hne Hsub) as (Hk1 & Hk2 & Hk3).
  cbn [clusterToTopic topic_delta topic_emotionMix topic_keywords topic_receipts].
  split; [reflexivity |].
  split; [cbn [describeCluster cluster_emotions]; apply aggregateEmotions_sum |].
  split; [exact Hk1 |]. split; [exact Hk2 |]. split.
  { intros keyword Hkw. destruct (Hk3 keyword Hkw) as (item & Hitem & Hterm).
    exists item. destruct (Hunique item Hitem). tauto. }
  cbn [describeCluster cluster_items].
  unfold itemsToReceipts. split.
  - rewrite List.length_map.
    pose proof (slice0_length (JsArray.sort byEngagementDesc (List.map dv_item vectors))
                  (receiptsPerTopic CLUSTERING_CONFIG)) as Hlen.
    rewrite sort_length, List.length_map in Hlen.
    change (receiptsPerTopic CLUSTERING_CONFIG) with 5%Z in *.
    change (5 <? 0)%Z with false in Hlen. cbv iota in Hlen.
    assert (1 <= length vectors)%nat by (destruct vectors; [contradiction | cbn; lia]).
    lia.
  - intros receipt Hr. apply List.in_map_iff in Hr as (item & <- & Hitem).
    apply slice0_In, sort_In in Hitem. exists item.
    destruct (Hunique item (Hitems item Hitem)). tauto.
Qed.

(** ** Clusters are apart from earlier seeds *)

Lemma ForallOrdPairs_map {A B : Type} (f : A -> B) (R : B -> B -> Prop) (l : list A) :
  ForallOrdPairs (fun x y => R (f x) (f y)) l -> ForallOrdPairs R (List.map f l).
Proof.
  induction 1 as [| x l Hx _ IH]; cbn [List.map]; constructor; [| exact IH].
  apply List.Forall_map. exact Hx.
Qed.

Section ClustersApart.
Variable vectors : list DocumentVector.
Variable similarityThreshold : R.

Lemma Forall_vectorsAt (P : DocumentVector -> Prop) (indices : list nat) :
  (forall j vj, In j indices -> vectors !! j = Some vj -> P vj) ->
  Forall P (vectorsAt vectors indices).
Proof.
  unfold vectorsAt. induction indices as [| j indices IH]; intros H; cbn [omap list_omap].
  - constructor.
  - destruct (vectors !! j) as [vj |] eqn:Hj.
    + constructor; [apply (H j vj); [left; reflexivity | exact Hj] |].
      apply IH. intros j' vj' Hin. apply H. right. exact Hin.
    + apply IH. intros j' vj' Hin. apply H. right. exact Hin.
Qed.

(** What the inner loop leaves unassigned in its range is not similar enough
    to the seed. *)
Lemma clusterInner_rejects (seed : DocumentVector) (js : list nat)
      (cluster : list DocumentVector) (assigned : gset nat) :
  let result :=
    List.fold_left (clusterInnerStep vectors similarityThreshold seed) js (cluster, assigned) in
  assigned ⊆ snd result
  /\ forall j vj, In j js -> j ∉ snd result -> vectors !! j = Some vj ->
                  similarEnough similarityThreshold seed vj = false.
Proof.
  revert cluster assigned. induction js as [| j js IH]; intros cluster assigned result;
    subst result; cbn [List.fold_left].
  - cbn [snd]. split; [reflexivity | intros j vj []].
  - assert (Hstep :
              exists cluster' assigned',
                clusterInnerStep vectors similarityThreshold seed (cluster, assigned) j
                = (cluster', assigned')
                /\ assigned ⊆ assigned'
                /\ (j ∉ assigned' ->
                    forall vj, vectors !! j = Some vj ->
                               similarEnough similarityThreshold seed vj = false)).
    { unfold clusterInnerStep.
      destruct (bool_decide (j ∈ assigned)) eqn:Hj.
      { apply bool_decide_eq_true in Hj. exists cluster, assigned.
        split; [reflexivity |]. split; [reflexivity | intros H; contradiction]. }
      destruct (vectors !! j) as [vj |] eqn:Hvj.
      2: { exists cluster, assigned. split; [reflexivity |].
           split; [reflexivity | intros _ vj' E; discriminate E]. }
      destruct (similarEnough similarityThreshold seed vj) eqn:Hsim.
      - exists (cluster ++ [vj]), (assigned ∪ {[ j ]}). split; [reflexivity |].
        split; [apply union_subseteq_l |].
        intros H. exfalso. apply H, elem_of_union_r, elem_of_singleton. reflexivity.
      - exists cluster, assigned. split; [reflexivity |].
        split; [reflexivity |]. intros _ vj' E. injection E as <-. exact Hsim. }
    destruct Hstep as (cluster' & assigned' & -> & Hsub & Hrej).
    destruct (IH cluster' assigned') as [Hsub' Hrej']. cbv zeta in Hsub', Hrej'.
    split; [etransitivity; eassumption |].
    intros j' vj' [<- | Hin] Hout Hv.
    + apply Hrej; [| exact Hv]. intros H. apply Hout, Hsub', H.
    + apply (Hrej' j' vj' Hin Hout Hv).
Qed.

Lemma clusterOuter_apart (n a : nat) (clusters : list (list DocumentVector))
      (assigned : gset nat) :
  (forall j, (j < a)%nat -> (j < length vectors)%nat -> j ∈ assigned) ->
  exists indexClusters : list (list nat),
    List.fold_left (clusterOuterStep vectors similarityThreshold) (seq a n)
      (clusters, assigned)
    = (clusters ++ List.map (vectorsAt vectors) indexClusters,
       assigned ∪ list_to_set (concat indexClusters))
    /\ (forall j, In j (concat indexClusters) -> j ∉ assigned /\ (j < length vectors)%nat)
    /\ ForallOrdPairs
         (fun earlier later =>
            apartFromSeed similarityThreshold (vectorsAt vectors earlier)
              (vectorsAt vectors later))
         indexClusters.
Proof.
  revert a clusters assigned. induction n as [| n IH]; intros a clusters assigned Hbelow.
  - exists []. cbn. rewrite app_nil_r, union_empty_r_L.
    split; [reflexivity |]. split; [intros j [] | constructor].
  - cbn [seq List.fold_left]. unfold clusterOuterStep at 2.
    destruct (bool_decide (a ∈ assigned)) eqn:Ha.
    { apply bool_decide_eq_true in Ha. apply IH.
      intros j Hj Hlt. destruct (Nat.eq_dec j a) as [-> | Hne]; [exact Ha |].
      apply Hbelow; [lia | exact Hlt]. }
    apply bool_decide_eq_false in Ha.
    destruct (vectors !! a) as [va |] eqn:Hva.
    2: { apply IH. intros j Hj Hlt. apply lookup_ge_None in Hva. apply Hbelow; lia. }
    destruct (clusterInner_spec vectors similarityThreshold va
                (seq (a + 1) (length vectors - (a + 1))) [va] (assigned ∪ {[ a ]}))
      as (added & Hinner & _ & Halla & _).
    destruct (clusterInner_rejects va (seq (a + 1) (length vectors - (a + 1))) [va]
                (assigned ∪ {[ a ]})) as [Hsub Hrej].
    cbv zeta in Hsub, Hrej. rewrite Hinner in *. cbn [snd] in Hsub, Hrej.
    destruct (IH (S a) (clusters ++ [[va] ++ vectorsAt vectors added])
                (assigned ∪ {[ a ]} ∪ list_to_set added)) as (ics & Hrun & Hall & Hapart).
    { intros j Hj Hlt. destruct (Nat.eq_dec j a) as [-> | Hne]; [set_solver |].
      assert (j ∈ assigned) by (apply Hbelow; [lia | exact Hlt]). set_solver. }
    exists ((a :: added) :: ics). rewrite Hrun.
    cbn [List.map concat]. rewrite (vectorsAt_cons vectors a va added Hva).
    split; [| split].
    + f_equal; [rewrite <- app_assoc; reflexivity |].
      rewrite list_to_set_app_L, list_to_set_cons. set_solver.
    + intros j Hj. cbn [app] in Hj. destruct Hj as [<- | Hj].
      * split; [exact Ha | eapply lookup_lt_Some; exact Hva].
      * apply List.in_app_or in Hj as [Hj | Hj].
        -- rewrite List.Forall_forall in Halla.
           destruct (Halla j Hj) as (_ & Hout & Hlt). split; [set_solver | exact Hlt].
        -- destruct (Hall j Hj) as [Hout Hlt]. split; [set_solver | exact Hlt].
    + constructor; [| exact Hapart].
      apply List.Forall_forall. intros later Hlater.
      rewrite (vectorsAt_cons vectors a va added Hva). cbn [apartFromSeed].
      apply Forall_vectorsAt. intros j vj Hj Hvj.
      assert (Hjc : In j (concat ics)) by (apply List.in_concat; exists later; tauto).
      destruct (Hall j Hjc) as [Hout Hlt].
      assert (Hgt : (a < j)%nat).
      { destruct (Nat.lt_ge_cases a j) as [H | H]; [exact H | exfalso].
        apply Hout. destruct (Nat.eq_dec j a) as [-> | Hne]; [set_solver |].
        assert (j ∈ assigned) by (apply Hbelow; [lia | exact Hlt]). set_solver. }
      apply (Hrej j vj); [| exact Hout | exact Hvj].
      apply list_elem_of_In, elem_of_seq. lia.
Qed.

Lemma clusterBySimilarity_apart :
  ForallOrdPairs (apartFromSeed similarityThreshold)
    (clusterBySimilarity vectors similarityThreshold).
Proof.
  unfold clusterBySimilarity.
  destruct (clusterOuter_apart (length vectors) 0 [] ∅) as (ics & -> & _ & Hapart);
    [intros j Hj; lia |].
  cbn [fst app]. apply ForallOrdPairs_map. exact Hapart.
Qed.

End ClustersApart.

(** X24. The clustering is greedy: no vector of a cluster is similar enough
    to the seed of a cluster formed before it.  So a vector lies in the
    cluster of the first seed, in the order of the clusters, that it is
    similar enough to, and the seeds of two clusters are never similar
    enough to each other. *)
Theorem clusterBySimilarity_greedy (vectors : list DocumentVector) (similarityThreshold : R) :
  ForallOrdPairs (apartFromSeed similarityThreshold)
    (clusterBySimilarity vectors similarityThreshold)
  /\ ForallOrdPairs
       (fun earlier later =>
          forall seed seed' rest rest',
            earlier = seed :: rest -> later = seed' :: rest' ->
            similarEnough similarityThreshold seed seed' = false)
       (clusterBySimilarity vectors similarityThreshold).
Proof.
  pose proof (clusterBySimilarity_apart vectors similarityThreshold) as Hapart.
  split; [exact Hapart |].
  induction Hapart as [| earlier clusters Hfirst _ IH]; constructor; [| exact IH].
  eapply List.Forall_impl; [| exact Hfirst].
  intros later Hlater seed seed' rest rest' -> ->. cbn [apartFromSeed] in Hlater.
  apply List.Forall_cons_iff in Hlater as [H _]. exact H.
Qed.

(** ** A day against its own snapshot *)

Lemma slice0_ten {A : Type} (l : list A) : JsArray.slice0 l 10 = firstn 10 l.
Proof.
  unfold JsArray.slice0. change (10 <? 0)%Z with false. cbv iota.
  destruct (Z.min_spec 10 (Z.of_nat (length l))) as [[Hlt ->] | [Hge ->]].
  - reflexivity.
  - rewrite Nat2Z.id. rewrite firstn_all. symmetry. apply firstn_all2. lia.
Qed.

Lemma overlap_self (keywords : list string) :
  keywords <> [] -> DeltaSpec.overlap keywords keywords = 1%R.
Proof.
  intros Hne. unfold DeltaSpec.overlap.
  assert (Hall : List.filter (fun k => JsArray.includes keywords k) keywords = keywords).
  { apply List.forallb_filter_id. apply List.forallb_forall. intros k Hk.
    apply includes_In. exact Hk. }
  rewrite Hall, Nat.max_id. unfold Rdiv. apply Rinv_r.
  apply not_0_INR. destruct keywords; [contradiction | discriminate].
Qed.

Lemma bestOverlap_nil (yesterday : list SnapshotTopic) :
  DeltaSpec.bestOverlap [] yesterday = 0%R.
Proof.
  apply bestOverlap_disjoint. intros y k _ [].
Qed.

Lemma calculateTopicDelta_values (topic : Topic) (yesterdaySnapshot : option DailySnapshot) :
  calculateTopicDelta topic yesterdaySnapshot = 0%R
  \/ calculateTopicDelta topic yesterdaySnapshot = 1%R.
Proof.
  destruct yesterdaySnapshot as [snapshot |]; [| left; reflexivity].
  rewrite calculateTopicDelta_best.
  destruct (decide _); [right | left]; reflexivity.
Qed.

Lemma calculateTopicDelta_no_keywords (topic : Topic) (snapshot : DailySnapshot) :
  topic_keywords topic = [] -> calculateTopicDelta topic (Some snapshot) = 1%R.
Proof.
  intros Hnil. rewrite calculateTopicDelta_best, Hnil, bestOverlap_nil.
  rewrite decide_True by lra. reflexivity.
Qed.

(** X25. A snapshot keeps the keywords and receipt ids of the first ten
    topics, in their order.  Against the snapshot of the same day nothing
    has changed: the tension delta is 0, every emotion delta is 0, and
    every one of the first ten topics that has a keyword gets the topic
    delta 0. *)
Theorem createSnapshot_round_trip (date : string) (tensionIndex : R)
        (emotions : EmotionDistribution) (topics : list Topic)
        (llmOutputs : list (string * string)) :
  let snapshot := createSnapshot date tensionIndex emotions topics llmOutputs in
  snap_topTopics snapshot
  = List.map (fun t => {| st_keywords := topic_keywords t;
                          st_receiptIds := List.map receipt_id (topic_receipts t) |})
      (firstn 10 topics)
  /\ calculateTensionDelta tensionIndex (Some snapshot) = 0%R
  /\ (forall e, getE (getEmotionDeltas emotions (Some snapshot)) e = 0%R)
  /\ (forall topic,
         In topic (firstn 10 topics) -> topic_keywords topic <> [] ->
         calculateTopicDelta topic (Some snapshot) = 0%R).
Proof.
  intros snapshot. subst snapshot.
  assert (Htop : snap_topTopics (createSnapshot date tensionIndex emotions topics llmOutputs)
                 = List.map (fun t => {| st_keywords := topic_keywords t;
                                         st_receiptIds :=
                                           List.map receipt_id (topic_receipts t) |})
                     (firstn 10 topics)).
  { cbn [createSnapshot snap_topTopics]. rewrite slice0_ten. reflexivity. }
  split; [exact Htop |]. split; [| split].
  - cbn [calculateTensionDelta createSnapshot snap_tensionIndex]. lra.
  - intros e. rewrite getEmotionDeltas_fields. cbn [createSnapshot snap_emotions].
    destruct e; dist_fields; lra.
  - intros topic Hin Hne. rewrite calculateTopicDelta_best, Htop.
    set (own := {| st_keywords := topic_keywords topic;
                   st_receiptIds := List.map receipt_id (topic_receipts topic) |}).
    assert (Hown : In own (List.map
                             (fun t => {| st_keywords := topic_keywords t;
                                          st_receiptIds :=
                                            List.map receipt_id (topic_receipts t) |})
                             (firstn 10 topics))).
    { apply List.in_map_iff. exists topic. split; [reflexivity | exact Hin]. }
    pose proof (bestOverlap_upper (topic_keywords topic) _ own Hown) as Hbest.
    cbn [own st_keywords] in Hbest. rewrite (overlap_self _ Hne) in Hbest.
    rewrite decide_False by lra. reflexivity.
Qed.

Lemma calculateTopicDelta_withDelta (topic : Topic) (delta : R)
      (yesterdaySnapshot : option DailySnapshot) :
  calculateTopicDelta (withDelta topic delta) yesterdaySnapshot
  = calculateTopicDelta topic yesterdaySnapshot.
Proof. destruct yesterdaySnapshot; reflexivity. Qed.

(** X26. [applyTopicDeltas] returns the topics in their order, each
    unchanged but for its delta, which becomes the topic delta against
    yesterday's snapshot: 0 or 1 in every case, 0 for every topic when there
    is no snapshot, and 1 for a topic without keywords whenever there is a
    snapshot.  The delta that a topic had before plays no part: applying the
    deltas of one snapshot after those of another gives what the last
    snapshot alone gives, so applying the same snapshot twice changes
    nothing. *)
Theorem applyTopicDeltas_spec (topics : list Topic) (yesterdaySnapshot : option DailySnapshot) :
  let updated := applyTopicDeltas topics yesterdaySnapshot in
  Forall2
    (fun topic result =>
       result = withDelta topic (calculateTopicDelta topic yesterdaySnapshot)
       /\ (topic_delta result = 0%R \/ topic_delta result = 1%R)
       /\ (yesterdaySnapshot = None -> topic_delta result = 0%R)
       /\ (yesterdaySnapshot <> None -> topic_keywords topic = [] -> topic_delta result = 1%R))
    topics updated
  /\ forall earlierSnapshot : option DailySnapshot,
      applyTopicDeltas (applyTopicDeltas topics earlierSnapshot) yesterdaySnapshot = updated.
Proof.
  intros updated. subst updated. unfold applyTopicDeltas. split.
  - induction topics as [| topic topics IH]; cbn [List.map]; constructor; [| exact IH].
    cbn [withDelta topic_delta]. split; [reflexivity |]. split; [| split].
    + apply calculateTopicDelta_values.
    + intros ->. reflexivity.
    + intros Hsome Hnil. destruct yesterdaySnapshot as [snapshot |]; [| contradiction].
      apply calculateTopicDelta_no_keywords, Hnil.
  - intros earlierSnapshot. rewrite List.map_map. apply List.map_ext. intros topic.
    rewrite calculateTopicDelta_withDelta. reflexivity.
Qed.

(** ** Lower case *)

Lemma lowerChar_idempotent (c : ascii) :
  JsString.lowerChar (JsString.lowerChar c) = JsString.lowerChar c.
Proof.
  destruct c as [[] [] [] [] [] [] [] []]; vm_compute; reflexivity.
Qed.

Lemma toLowerCase_idempotent (s : string) :
  JsString.toLowerCase (JsString.toLowerCase s) = JsString.toLowerCase s.
Proof.
  unfold JsString.toLowerCase. induction s as [| c s IH]; cbn [JsString.mapChars];
    [reflexivity |].
  rewrite lowerChar_idempotent, IH. reflexivity.
Qed.

Lemma lower_drop (n : nat) (s : string) :
  JsString.toLowerCase s = s -> JsString.toLowerCase (JsString.drop n s) = JsString.drop n s.
Proof.
  unfold JsString.toLowerCase. revert s. induction n as [| n IH]; intros [| c s] H;
    cbn [JsString.drop]; try exact H; try reflexivity.
  cbn [JsString.mapChars] in H. injection H as _ H. apply IH, H.
Qed.

Lemma lower_stripPrefix (p s : string) :
  JsString.toLowerCase s = s ->
  JsString.toLowerCase (JsString.stripPrefix p s) = JsString.stripPrefix p s.
Proof.
  intros H. unfold JsString.stripPrefix.
  destruct (JsString.startsWith s p); [apply lower_drop, H | exact H].
Qed.

Lemma lower_stripTrailingSlash (s : string) :
  JsString.toLowerCase s = s ->
  JsString.toLowerCase (JsString.stripTrailingSlash s) = JsString.stripTrailingSlash s.
Proof.
  unfold JsString.toLowerCase. induction s as [| c s IH]; intros H; [reflexivity |].
  cbn [JsString.mapChars] in H. injection H as Hc Hs.
  cbn [JsString.stripTrailingSlash]. destruct s as [| c' s'].
  - destruct (Ascii.eqb c "/"); [reflexivity |]. cbn [JsString.mapChars]. rewrite Hc. reflexivity.
  - cbn [JsString.mapChars]. rewrite Hc. f_equal. apply IH, Hs.
Qed.

Lemma normalizeUrlWith_lower (parseURL : string -> option URL) (url : string)
      (options : NormalizeOptions) :
  JsString.toLowerCase (normalizeUrlWith parseURL url options)
  = normalizeUrlWith parseURL url options.
Proof.
  unfold normalizeUrlWith. destruct (parseURL url) as [parsed |].
  - cbv zeta. apply toLowerCase_idempotent.
  - cbv zeta.
    pose proof (toLowerCase_idempotent url) as Hlow.
    set (lowered := JsString.toLowerCase url) in *.
    assert (H1 : JsString.toLowerCase
                   (if removeProtocol options
                    then if JsString.startsWith lowered "https://"
                         then JsString.drop 8 lowered
                         else JsString.stripPrefix "http://" lowered
                    else lowered)
                 = (if removeProtocol options
                    then if JsString.startsWith lowered "https://"
                         then JsString.drop 8 lowered
                         else JsString.stripPrefix "http://" lowered
                    else lowered)).
    { destruct (removeProtocol options); [| exact Hlow].
      destruct (JsString.startsWith lowered "https://");
        [apply lower_drop | apply lower_stripPrefix]; exact Hlow. }
    set (s1 := if removeProtocol options then _ else lowered) in *.
    assert (H2 : JsString.toLowerCase
                   (if removeWww options then JsString.stripPrefix "www." s1 else s1)
                 = (if removeWww options then JsString.stripPrefix "www." s1 else s1)).
    { destruct (removeWww options); [apply lower_stripPrefix |]; exact H1. }
    set (s2 := if removeWww options then _ else s1) in *.
    destruct (removeTrailingSlash options); [apply lower_stripTrailingSlash |]; exact H2.
Qed.

(** X27. A normalised URL is in lower case, whatever the URL parser does
    and whatever the options are: converting the result of [normalizeUrl]
    to lower case does not change it.  Hence two URLs match exactly when
    their lower-cased normal forms are equal, and matching is reflexive,
    symmetric and transitive. *)
Theorem normalizeUrl_lower_case (parseURL : string -> option URL) (url : string) :
  (forall options,
      JsString.toLowerCase (normalizeUrlWith parseURL url options)
      = normalizeUrlWith parseURL url options)
  /\ JsString.toLowerCase (normalizeUrl parseURL url) = normalizeUrl parseURL url
  /\ urlsMatch parseURL url url = true
  /\ (forall url', urlsMatch parseURL url url' = urlsMatch parseURL url' url)
  /\ (forall url' url'',
         urlsMatch parseURL url url' = true -> urlsMatch parseURL url' url'' = true ->
         urlsMatch parseURL url url'' = true).
Proof.
  split; [intros options; apply normalizeUrlWith_lower |].
  split; [apply normalizeUrlWith_lower |].
  unfold urlsMatch. split; [apply String.eqb_refl |]. split.
  - intros url'. apply String.eqb_sym.
  - intros url' url'' H1 H2. apply String.eqb_eq in H1, H2. apply String.eqb_eq. congruence.
Qed.

(** ** Terms and tokens *)

Lemma everyChar_append (test : ascii -> bool) (s t : string) :
  everyChar test (s +:+ t) = everyChar test s && everyChar test t.
Proof.
  induction s as [| c s IH]; [reflexivity |].
  change (test c && everyChar test (s +:+ t) = test c && everyChar test s && everyChar test t).
  rewrite IH. apply andb_assoc.
Qed.

Lemma everyChar_impl (test test' : ascii -> bool) (s : string) :
  (forall c, test c = true -> test' c = true) ->
  everyChar test s = true -> everyChar test' s = true.
Proof.
  intros Himpl. induction s as [| c s IH]; cbn [everyChar]; [reflexivity |].
  intros H. apply andb_true_iff in H as [Hc Hs]. rewrite (Himpl c Hc), (IH Hs). reflexivity.
Qed.

(** A character that may stand in a word: a letter or digit that is not
    white space and is its own lower case. *)
Lemma splitSpaces_pieces (inWord : ascii -> bool) (cur : string) (inRun : bool) (s : string) :
  everyChar inWord cur = true ->
  everyChar (fun c => JsString.isSpace c || inWord c) s = true ->
  Forall (fun piece => everyChar inWord piece = true) (JsString.splitSpacesFrom cur inRun s).
Proof.
  revert cur inRun. induction s as [| c s IH]; intros cur inRun Hcur Hs;
    cbn [JsString.splitSpacesFrom].
  - constructor; [exact Hcur | constructor].
  - cbn [everyChar] in Hs. apply andb_true_iff in Hs as [Hc Hs].
    destruct (JsString.isSpace c) eqn:Hspace.
    + destruct inRun; [apply IH; assumption |].
      constructor; [exact Hcur | apply IH; [reflexivity | exact Hs]].
    + apply IH; [| exact Hs]. rewrite everyChar_append, Hcur. cbn [everyChar].
      cbn [orb] in Hc. rewrite Hc. reflexivity.
Qed.

Lemma wordChar_of_lowered (c : ascii) :
  JsString.isPunctuation (JsString.lowerChar c) = false ->
  JsString.isSpace (JsString.lowerChar c)
  || (isWordChar (JsString.lowerChar c)
      && Ascii.eqb (JsString.lowerChar (JsString.lowerChar c)) (JsString.lowerChar c)) = true.
Proof.
  intros Hp. rewrite lowerChar_idempotent, Ascii.eqb_refl, andb_true_r.
  unfold JsString.isPunctuation in Hp. apply negb_false_iff in Hp.
  unfold isWordChar. rewrite orb_comm. exact Hp.
Qed.

Lemma blanked_chars (text : string) :
  everyChar
    (fun c => JsString.isSpace c
              || (isWordChar c && Ascii.eqb (JsString.lowerChar c) c))
    (JsString.mapChars (fun c => if JsString.isPunctuation c then " "%char else c)
       (JsString.toLowerCase text)) = true.
Proof.
  unfold JsString.toLowerCase. induction text as [| c text IH]; [reflexivity |].
  cbn [JsString.mapChars everyChar]. rewrite IH, andb_true_r.
  destruct (JsString.isPunctuation (JsString.lowerChar c)) eqn:Hp; [reflexivity |].
  apply wordChar_of_lowered, Hp.
Qed.

Lemma filtered_chars (text : string) :
  everyChar
    (fun c => JsString.isSpace c
              || (isWordChar c && Ascii.eqb (JsString.lowerChar c) c))
    (JsString.filterChars (fun c => negb (JsString.isPunctuation c))
       (JsString.toLowerCase text)) = true.
Proof.
  unfold JsString.toLowerCase. induction text as [| c text IH]; [reflexivity |].
  cbn [JsString.mapChars JsString.filterChars].
  destruct (JsString.isPunctuation (JsString.lowerChar c)) eqn:Hp; cbn [negb]; [exact IH |].
  cbn [everyChar]. rewrite IH, andb_true_r. apply wordChar_of_lowered, Hp.
Qed.

Lemma lower_of_chars (s : string) :
  everyChar (fun c => isWordChar c && Ascii.eqb (JsString.lowerChar c) c) s = true ->
  everyChar isWordChar s = true /\ JsString.toLowerCase s = s.
Proof.
  unfold JsString.toLowerCase. induction s as [| c s IH]; cbn [everyChar JsString.mapChars];
    [tauto |].
  intros H. apply andb_true_iff in H as [Hc Hs]. apply andb_true_iff in Hc as [Hw Hl].
  apply Ascii.eqb_eq in Hl. destruct (IH Hs) as [H1 H2].
  rewrite Hw, H1, Hl, H2. split; reflexivity.
Qed.

Lemma blankedWords_words (text : string) (word : string) :
  In word (blankedWords text) ->
  everyChar isWordChar word = true /\ JsString.toLowerCase word = word.
Proof.
  intros Hin. apply lower_of_chars.
  pose proof (splitSpaces_pieces
                (fun c => isWordChar c && Ascii.eqb (JsString.lowerChar c) c)
                EmptyString false _ eq_refl (blanked_chars text)) as Hall.
  rewrite List.Forall_forall in Hall. apply Hall, Hin.
Qed.

(** X28. Every term that [extractTerms] yields has at least two characters,
    all letters or digits, is in lower case and is not a stop word; every
    token of [tokenize] has at least three characters, all letters or
    digits, and is in lower case.  Both functions ignore the case of the
    text. *)
Theorem terms_and_tokens (text : string) :
  (forall term,
      In term (extractTerms text) ->
      (2 <= String.length term)%nat
      /\ isStopWord term = false
      /\ everyChar isWordChar term = true
      /\ JsString.toLowerCase term = term)
  /\ (forall token,
         token ∈ tokenize text ->
         (3 <= String.length token)%nat
         /\ everyChar isWordChar token = true
         /\ JsString.toLowerCase token = token)
  /\ extractTerms (JsString.toLowerCase text) = extractTerms text
  /\ tokenize (JsString.toLowerCase text) = tokenize text.
Proof.
  split; [| split; [| split]].
  - intros term Hin. unfold extractTerms in Hin. apply List.filter_In in Hin as [Hin Hok].
    apply andb_true_iff in Hok as [Hlen Hstop].
    apply Nat.ltb_lt in Hlen. apply negb_true_iff in Hstop.
    destruct (blankedWords_words text term Hin) as [Hw Hl].
    repeat split; [lia | exact Hstop | exact Hw | exact Hl].
  - intros token Hin. unfold tokenize in Hin.
    apply elem_of_list_to_set, list_elem_of_In in Hin.
    apply List.filter_In in Hin as [Hin Hlen]. apply Nat.ltb_lt in Hlen.
    split; [lia |]. apply lower_of_chars.
    pose proof (splitSpaces_pieces
                  (fun c => isWordChar c && Ascii.eqb (JsString.lowerChar c) c)
                  EmptyString false _ eq_refl (filtered_chars text)) as Hall.
    rewrite List.Forall_forall in Hall. apply Hall, Hin.
  - unfold extractTerms, blankedWords. rewrite toLowerCase_idempotent. reflexivity.
  - unfold tokenize. rewrite toLowerCase_idempotent. reflexivity.
Qed.

(** Among the terms of a text, lower-case words of letters and digits, the
    one property name of [Object.prototype] is [constructor]. *)
Lemma extractTerms_inherited (text term : string) :
  In term (extractTerms text) -> JsObject.inherited term = true -> term = "constructor".
Proof.
  intros Hin Hkey. unfold extractTerms in Hin. apply List.filter_In in Hin as [Hin _].
  destruct (blankedWords_words text term Hin) as [Hword Hlower].
  unfold JsObject.inherited in Hkey. apply existsb_exists in Hkey as (key & Hkey & Heq).
  apply String.eqb_eq in Heq. subst key.
  unfold JsObject.prototypeKeys in Hkey. cbn [In] in Hkey.
  decompose [or] Hkey; clear Hkey; try contradiction; subst term;
    solve [reflexivity | vm_compute in Hlower; discriminate Hlower
           | vm_compute in Hword; discriminate Hword].
Qed.

(** ** Items without terms stay outside the topics *)

Lemma squaredNorm_zeros (v : list R) : Forall (fun x => x = 0%R) v -> squaredNorm v = 0%R.
Proof.
  induction 1 as [| x v -> _ IH]; [reflexivity |].
  rewrite squaredNorm_cons, IH. lra.
Qed.

Lemma similarEnough_zero (threshold : R) (u v : DocumentVector) :
  (0 < threshold)%R ->
  squaredNorm (dv_vector u) = 0%R \/ squaredNorm (dv_vector v) = 0%R ->
  similarEnough threshold u v = false.
Proof.
  intros Hthr Hzero. unfold similarEnough. rewrite cosineSimilarity_cases.
  destruct (negb (length (dv_vector u) =? length (dv_vector v))%nat).
  - apply bool_decide_eq_false. lra.
  - rewrite decide_True by exact Hzero. apply bool_decide_eq_false. lra.
Qed.

Lemma cluster_members_nonzero (threshold : R) (cluster : list DocumentVector) :
  (0 < threshold)%R -> gatheredAroundSeed threshold cluster -> (2 <= length cluster)%nat ->
  forall v, In v cluster -> squaredNorm (dv_vector v) <> 0%R.
Proof.
  intros Hthr (seed & rest & -> & Hsim) Hlen v Hv Hzero.
  rewrite List.Forall_forall in Hsim.
  destruct Hv as [<- | Hv].
  - destruct rest as [| w rest]; [cbn in Hlen; lia |].
    specialize (Hsim w (or_introl eq_refl)).
    rewrite similarEnough_zero in Hsim by (try exact Hthr; left; exact Hzero). discriminate.
  - specialize (Hsim v Hv).
    rewrite similarEnough_zero in Hsim by (try exact Hthr; right; exact Hzero). discriminate.
Qed.

Lemma vector_without_terms (items : list NormalizedItem) (v : DocumentVector) :
  In v (createTFIDFVectors items) -> extractTerms (termText (dv_item v)) = [] ->
  squaredNorm (dv_vector v) = 0%R.
Proof.
  intros Hv Hnone.
  destruct (createTFIDFVectors_shape items) as (terms & idf & Heq & _ & _ & _ & _).
  rewrite Heq in Hv. apply List.in_map_iff in Hv as (item & <- & _).
  cbn [dv_item dv_vector] in *. apply squaredNorm_zeros.
  apply List.Forall_map, List.Forall_forall. intros term _.
  rewrite (calculateTF_no_terms _ Hnone). unfold JsObject.empty. rewrite getOr0_nil.
  apply Rmult_0_l.
Qed.

Section TopicMembers.
Variable sha256Hex : string -> string.
Variable now : R.

Lemma clusterIntoTopics_members (items : list NormalizedItem) (maxTopics minClusterSize : Z)
      (topic : Topic) (receipt : Receipt) :
  (2 <= minClusterSize)%Z ->
  In topic (clusterIntoTopics sha256Hex now items maxTopics minClusterSize) ->
  In receipt (topic_receipts topic) ->
  exists item,
    In item items /\ isMarkedDuplicate item = false
    /\ receipt = itemToReceipt item
    /\ extractTerms (termText item) <> [].
Proof.
  intros Hmin Htopic Hreceipt. unfold clusterIntoTopics in Htopic.
  set (uniqueItems := List.filter (fun item => negb (isMarkedDuplicate item)) items) in *.
  destruct (length uniqueItems =? 0)%nat; [destruct Htopic |].
  apply List.in_map_iff in Htopic as (cluster & <- & Hcluster).
  apply rankedClusters_origin in Hcluster as (vectors & -> & Hraw & Hsize).
  cbn [clusterToTopic topic_receipts describeCluster cluster_items] in Hreceipt.
  unfold itemsToReceipts in Hreceipt.
  apply List.in_map_iff in Hreceipt as (item & <- & Hitem).
  apply slice0_In, sort_In in Hitem. apply List.in_map_iff in Hitem as (v & <- & Hv).
  destruct (clusterBySimilarity_clusters _ _ _ Hraw) as [_ Hsub].
  assert (Hunique : In (dv_item v) uniqueItems).
  { rewrite <- (createTFIDFVectors_items uniqueItems). apply List.in_map, Hsub, Hv. }
  apply List.filter_In in Hunique as [Hin Hmark]. apply negb_true_iff in Hmark.
  exists (dv_item v). split; [exact Hin |]. split; [exact Hmark |]. split; [reflexivity |].
  intros Hnone.
  destruct (clusterBySimilarity_indices (createTFIDFVectors uniqueItems)
              (similarityThreshold CLUSTERING_CONFIG)) as (ics & Heq & _ & _ & Hseed).
  rewrite <- Heq in Hseed. rewrite List.Forall_forall in Hseed.
  apply (cluster_members_nonzero (similarityThreshold CLUSTERING_CONFIG) vectors) with (v := v).
  - cbn. lra.
  - apply Hseed, Hraw.
  - lia.
  - exact Hv.
  - apply (vector_without_terms uniqueItems); [apply Hsub, Hv | exact Hnone].
Qed.

End TopicMembers.

(** X29. With a minimum cluster size of at least 2, as in the
    configuration, every receipt of every topic belongs to an input item
    that is not marked as a duplicate and from whose title and text at
    least one term was extracted: an item that consists of stop words and
    single characters only has a zero vector, is similar to nothing and
    never enters a topic. *)
Theorem clusterIntoTopics_receipts_have_terms
        (sha256Hex : string -> string) (now : R)
        (items : list NormalizedItem) (maxTopics minClusterSize : Z) :
  (2 <= minClusterSize)%Z ->
  Forall
    (fun topic =>
       Forall
         (fun receipt =>
            exists item,
              In item items /\ isMarkedDuplicate item = false
              /\ receipt = itemToReceipt item
              /\ extractTerms (termText item) <> [])
         (topic_receipts topic))
    (clusterIntoTopics sha256Hex now items maxTopics minClusterSize).
Proof.
  intros Hmin. apply List.Forall_forall. intros topic Htopic.
  apply List.Forall_forall. intros receipt Hreceipt.
  eapply clusterIntoTopics_members; eassumption.
Qed.

(** ** A topic of two reports *)

Lemma calculateTF_same_terms (text text' : string) :
  extractTerms text = extractTerms text' -> calculateTF text = calculateTF text'.
Proof. intros H. unfold calculateTF. rewrite H. reflexivity. Qed.

Lemma squaredNorm_In (v : list R) (x : R) : In x v -> x <> 0%R -> squaredNorm v <> 0%R.
Proof.
  induction v as [| y v IH]; intros Hin Hx; [destruct Hin |].
  rewrite squaredNorm_cons. pose proof (squaredNorm_nonneg v) as Hv.
  destruct Hin as [-> | Hin].
  - assert (0 < x * x)%R by nra. lra.
  - specialize (IH Hin Hx). assert (0 <= y * y)%R by nra. lra.
Qed.

(** An item with a term has a vector that is not zero. *)
Lemma vector_with_terms (items : list NormalizedItem) (v : DocumentVector) :
  In v (createTFIDFVectors items) -> extractTerms (termText (dv_item v)) <> [] ->
  squaredNorm (dv_vector v) <> 0%R.
Proof.
  intros Hv Hsome.
  destruct (createTFIDFVectors_shape items) as (terms & idf & Heq & _ & Hterms & _ & Hidf).
  rewrite Heq in Hv. apply List.in_map_iff in Hv as (item & <- & Hitem).
  cbn [dv_item dv_vector] in *.
  destruct (extractTerms (termText item)) as [| t ts] eqn:Hts; [contradiction |].
  assert (Ht : In t (extractTerms (termText item))) by (rewrite Hts; left; reflexivity).
  assert (Hvoc : In t terms) by (apply Hterms; exists item; split; assumption).
  apply (squaredNorm_In _ (JsObject.getOr0 (calculateTF (termText item)) t
                           * JsObject.getOr0 idf t)%R).
  - apply List.in_map_iff. exists t. split; [reflexivity | exact Hvoc].
  - pose proof (calculateTF_pos (termText item) t Ht). pose proof (Hidf t Hvoc). nra.
Qed.

(** Items with the same list of terms have the same vector. *)
Lemma vectors_same_terms (items : list NormalizedItem) (u v : DocumentVector) :
  In u (createTFIDFVectors items) -> In v (createTFIDFVectors items) ->
  extractTerms (termText (dv_item u)) = extractTerms (termText (dv_item v)) ->
  dv_vector u = dv_vector v.
Proof.
  intros Hu Hv Hsame.
  destruct (createTFIDFVectors_shape items) as (terms & idf & Heq & _).
  rewrite Heq in Hu, Hv.
  apply List.in_map_iff in Hu as (a & <- & _). apply List.in_map_iff in Hv as (b & <- & _).
  cbn [dv_item dv_vector] in *. rewrite (calculateTF_same_terms _ _ Hsame). reflexivity.
Qed.

Lemma similarEnough_same (threshold : R) (u v : DocumentVector) :
  dv_vector u = dv_vector v -> squaredNorm (dv_vector u) <> 0%R -> (threshold <= 1)%R ->
  similarEnough threshold u v = true.
Proof.
  intros Hsame Hnz Hthr. unfold similarEnough. rewrite <- Hsame, cosineSimilarity_cases.
  rewrite Nat.eqb_refl. cbn [negb].
  destruct (decide _) as [[H | H] | _]; [contradiction | contradiction |].
  rewrite dotProduct_self. apply bool_decide_eq_true_2.
  pose proof (squaredNorm_nonneg (dv_vector u)) as Hn.
  unfold JsMath.sqrt. rewrite sqrt_sqrt by exact Hn.
  unfold Rdiv. rewrite Rinv_r by exact Hnz. lra.
Qed.

(** Three vectors of which the second is similar enough to the first and
    the third is not: the first two form a cluster. *)
Lemma clusterBySimilarity_pair_and_one (threshold : R) (u v w : DocumentVector) :
  similarEnough threshold u v = true -> similarEnough threshold u w = false ->
  clusterBySimilarity [u; v; w] threshold = [[u; v]; [w]].
Proof.
  intros Huv Huw. unfold clusterBySimilarity. cbn [length seq List.fold_left].
  unfold clusterOuterStep at 3.
  rewrite (bool_decide_eq_false_2 (0%nat ∈ (∅ : gset nat))) by set_solver.
  cbn [lookup list_lookup length Nat.add Nat.sub seq List.fold_left].
  unfold clusterInnerStep at 2.
  rewrite (bool_decide_eq_false_2 (1%nat ∈ (∅ ∪ {[0%nat]} : gset nat))) by set_solver.
  cbn [lookup list_lookup]. rewrite Huv.
  unfold clusterInnerStep.
  rewrite (bool_decide_eq_false_2 (2%nat ∈ (∅ ∪ {[0%nat]} ∪ {[1%nat]} : gset nat)))
    by set_solver.
  cbn [lookup list_lookup]. rewrite Huw.
  unfold clusterOuterStep at 2.
  rewrite (bool_decide_eq_true_2 (1%nat ∈ (∅ ∪ {[0%nat]} ∪ {[1%nat]} : gset nat)))
    by set_solver.
  unfold clusterOuterStep.
  rewrite (bool_decide_eq_false_2 (2%nat ∈ (∅ ∪ {[0%nat]} ∪ {[1%nat]} : gset nat)))
    by set_solver.
  cbn [lookup list_lookup length Nat.add Nat.sub seq List.fold_left fst app].
  reflexivity.
Qed.

Section TwoReports.
Variable sha256Hex : string -> string.
Variable now : R.

(** Two reports with the same terms and an item without terms: one topic,
    made of the two reports. *)
Lemma clusterIntoTopics_two_reports :
  exists u v : DocumentVector,
    dv_item u = floodFirst /\ dv_item v = floodSecond
    /\ clusterIntoTopics sha256Hex now [floodFirst; floodSecond; questionOne]
         (maxTopics CLUSTERING_CONFIG) (minClusterSize CLUSTERING_CONFIG)
       = [clusterToTopic sha256Hex (describeCluster now [u; v])].
Proof.
  pose proof (createTFIDFVectors_items [floodFirst; floodSecond; questionOne]) as Hitems.
  pose proof (vector_with_terms [floodFirst; floodSecond; questionOne]) as Hsome.
  pose proof (vector_without_terms [floodFirst; floodSecond; questionOne]) as Hnone.
  pose proof (vectors_same_terms [floodFirst; floodSecond; questionOne]) as Hsame.
  unfold clusterIntoTopics, rankedClusters.
  replace (List.filter (fun item => negb (isMarkedDuplicate item))
             [floodFirst; floodSecond; questionOne])
    with [floodFirst; floodSecond; questionOne] by reflexivity.
  cbn [length Nat.eqb].
  destruct (createTFIDFVectors [floodFirst; floodSecond; questionOne])
    as [| u [| v [| w [| x vectors]]]]; try discriminate Hitems.
  cbn [List.map] in Hitems. injection Hitems as Hu Hv Hw.
  exists u, v. split; [exact Hu |]. split; [exact Hv |].
  assert (Huv : similarEnough (similarityThreshold CLUSTERING_CONFIG) u v = true).
  { apply similarEnough_same.
    - apply Hsame; [left; reflexivity | right; left; reflexivity |].
      rewrite Hu, Hv. vm_compute. reflexivity.
    - apply Hsome; [left; reflexivity |]. rewrite Hu. vm_compute. discriminate.
    - cbn. lra. }
  assert (Huw : similarEnough (similarityThreshold CLUSTERING_CONFIG) u w = false).
  { apply similarEnough_zero; [cbn; lra |]. right.
    apply Hnone; [right; right; left; reflexivity |]. rewrite Hw. vm_compute. reflexivity. }
  rewrite (clusterBySimilarity_pair_and_one _ u v w Huv Huw).
  reflexivity.
Qed.

End TwoReports.

Lemma two_reports_receipts (sha256Hex : string -> string) (now : R) (u v : DocumentVector) :
  length (topic_receipts (clusterToTopic sha256Hex (describeCluster now [u; v]))) = 2%nat.
Proof.
  cbn [clusterToTopic topic_receipts describeCluster cluster_items]. unfold itemsToReceipts.
  rewrite List.length_map. apply Nat2Z.inj.
  rewrite slice0_length, sort_length. reflexivity.
Qed.

Lemma clusterIntoTopics_bounds_witness :
  (forall sha256Hex : string -> string,
      clusterIntoTopics sha256Hex 0
        [markDuplicateOf "1"
           (mockItem "2" "Same story" "Same details" "https://example.com/2" 0 10)]
        12 2
      = [])
  /\ (forall sha256Hex : string -> string,
         (0 < Z.of_nat (length (clusterIntoTopics sha256Hex 0
                                  [floodFirst; floodSecond; questionOne] 12 2))
          <= 12)%Z).
Proof.
  split; intros sha256Hex.
  - apply (proj1 (proj2 (clusterIntoTopics_bounds sha256Hex 0 _ 12 2))).
    repeat constructor.
  - split.
    + destruct (clusterIntoTopics_two_reports sha256Hex 0) as (u & v & _ & _ & Heq).
      change (maxTopics CLUSTERING_CONFIG) with 12%Z in Heq.
      change (minClusterSize CLUSTERING_CONFIG) with 2%Z in Heq.
      rewrite Heq. cbn [length]. lia.
    + apply (proj1 (proj2 (proj2 (clusterIntoTopics_bounds sha256Hex 0 _ 12 2)))).
      lia.
Defined.

Lemma clusterIntoTopics_receipts_have_terms_witness :
  exists topic : Topic,
    clusterIntoTopics (fun content => content) 0 [floodFirst; floodSecond; questionOne]
      (maxTopics CLUSTERING_CONFIG) (minClusterSize CLUSTERING_CONFIG)
    = [topic]
    /\ length (topic_receipts topic) = 2%nat
    /\ Forall
         (fun receipt =>
            exists item,
              In item [floodFirst; floodSecond; questionOne]
              /\ isMarkedDuplicate item = false
              /\ receipt = itemToReceipt item
              /\ extractTerms (termText item) <> [])
         (topic_receipts topic).
Proof.
  destruct (clusterIntoTopics_two_reports (fun content => content) 0)
    as (u & v & _ & _ & Heq).
  exists (clusterToTopic (fun content => content) (describeCluster 0 [u; v])).
  split; [exact Heq |]. split; [apply two_reports_receipts |].
  pose proof (clusterIntoTopics_receipts_have_terms (fun content => content) 0
                [floodFirst; floodSecond; questionOne]
                (maxTopics CLUSTERING_CONFIG) (minClusterSize CLUSTERING_CONFIG)) as Hall.
  rewrite Heq in Hall.
  assert (Hmin : (2 <= minClusterSize CLUSTERING_CONFIG)%Z) by (cbn; lia).
  exact (List.Forall_inv (Hall Hmin)).
Defined.

(** ** Shares between 0 and 1 *)

Lemma scoreItemEmotions_nonneg (item : NormalizedItem) (e : Emotion) :
  (0 <= getE (scoreItemEmotions item) e)%R.
Proof.
  rewrite scoreItemEmotions_spec. unfold EmotionSpec.score.
  destruct (EmotionSpec.total (EmotionSpec.spaced item) =? 0)%nat.
  - rewrite allNeutral_fields. destruct e; dist_fields; lra.
  - destruct e; dist_fields; try apply ratio_nonneg; lra.
Qed.

Lemma shares_at_most_one (d : EmotionDistribution) :
  distSum d = 1%R -> (forall e, 0 <= getE d e)%R -> forall e, (0 <= getE d e <= 1)%R.
Proof.
  intros Hsum Hnonneg e. rewrite distSum_fields in Hsum.
  pose proof (Hnonneg anger). pose proof (Hnonneg anxiety). pose proof (Hnonneg sadness).
  pose proof (Hnonneg resilience). pose proof (Hnonneg hope). pose proof (Hnonneg excitement).
  pose proof (Hnonneg cynicism). pose proof (Hnonneg neutral).
  destruct e; dist_fields; lra.
Qed.

Lemma aggregateStep_nonneg (now : R) (acc : EmotionDistribution * R) (item : NormalizedItem) :
  (0 <= item_engagement item)%R -> (0 <= relevanceOrDefault item)%R ->
  (forall e, 0 <= getE (fst acc) e)%R /\ (0 <= snd acc)%R ->
  (forall e, 0 <= getE (fst (aggregateStep now acc item)) e)%R
  /\ (0 <= snd (aggregateStep now acc item))%R.
Proof.
  intros Heng Hrel [Hacc Htotal]. destruct acc as [weighted total]. unfold aggregateStep.
  destruct (isMarkedDuplicate item); [split; assumption |].
  cbv zeta. cbn [fst snd] in *. rewrite addWeighted_fields.
  assert (Hw : (0 <= recencyWeight now (item_createdAt item) defaultHalfLifeHours
                     * JsMath.log10 (capEngagement (item_engagement item) defaultEngagementCap + 2)
                     * relevanceOrDefault item)%R).
  { apply Rmult_le_pos; [| exact Hrel]. apply Rmult_le_pos.
    - apply recencyWeight_nonneg.
    - apply log10_nonneg. unfold capEngagement, JsMath.min, defaultEngagementCap.
      assert (0 <= Rmin (item_engagement item) 1000)%R by (apply Rmin_glb; lra). lra. }
  generalize dependent (recencyWeight now (item_createdAt item) defaultHalfLifeHours
                        * JsMath.log10
                            (capEngagement (item_engagement item) defaultEngagementCap + 2)
                        * relevanceOrDefault item)%R.
  intros weight Hw.
  pose proof (scoreItemEmotions_nonneg item) as Hitem.
  generalize dependent (scoreItemEmotions item). intros scores Hitem.
  split; [| lra].
  intros e. specialize (Hacc e). specialize (Hitem e).
  destruct e; dist_fields; nra.
Qed.

Lemma aggregateLoop_nonneg (now : R) (items : list NormalizedItem)
      (acc : EmotionDistribution * R) :
  Forall (fun item => (0 <= item_engagement item)%R /\ (0 <= relevanceOrDefault item)%R) items ->
  (forall e, 0 <= getE (fst acc) e)%R /\ (0 <= snd acc)%R ->
  (forall e, 0 <= getE (fst (List.fold_left (aggregateStep now) items acc)) e)%R
  /\ (0 <= snd (List.fold_left (aggregateStep now) items acc))%R.
Proof.
  intros Hall. revert acc. induction Hall as [| item items [Heng Hrel] _ IH]; intros acc Hacc;
    cbn [List.fold_left]; [exact Hacc |].
  apply IH. apply aggregateStep_nonneg; assumption.
Qed.

Lemma aggregateEmotions_nonneg (now : R) (items : list NormalizedItem) (e : Emotion) :
  Forall (fun item => (0 <= item_engagement item)%R /\ (0 <= relevanceOrDefault item)%R) items ->
  (0 <= getE (aggregateEmotions now items) e)%R.
Proof.
  intros Hall.
  destruct (aggregateLoop_nonneg now items (createEmptyDistribution, 0%R) Hall)
    as [Hweighted Htotal].
  { split; [intros e'; destruct e'; cbn; lra | cbn; lra]. }
  fold (aggregateLoop now items) in Hweighted, Htotal.
  destruct (Req_dec (snd (aggregateLoop now items)) 0) as [Hzero | Hnz].
  - rewrite aggregateEmotions_of_loop.
    destruct (aggregateLoop now items) as [weighted total]. cbn [snd] in Hzero.
    rewrite decide_True by exact Hzero. rewrite normalizeDistribution_empty, allNeutral_fields.
    destruct e; dist_fields; lra.
  - rewrite (aggregateEmotions_average now items Hnz).
    destruct (aggregateLoop now items) as [weighted total]. cbn [fst snd] in *.
    assert (Hinv : (0 < / total)%R) by (apply Rinv_0_lt_compat; lra).
    specialize (Hweighted e). unfold Rdiv.
    destruct e; dist_fields; nra.
Qed.

(** X30. The shares of an emotion distribution are proper fractions: every
    share of the score of an item lies between 0 and 1, and so does every
    share of the aggregate over items whose engagement and relevance are not
    negative. *)
Theorem emotion_shares_in_unit_interval (now : R) (items : list NormalizedItem) :
  Forall (fun item => (0 <= item_engagement item)%R /\ (0 <= relevanceOrDefault item)%R) items ->
  (forall item e, (0 <= getE (scoreItemEmotions item) e <= 1)%R)
  /\ (forall e, (0 <= getE (aggregateEmotions now items) e <= 1)%R).
Proof.
  intros Hall. split.
  - intros item. apply shares_at_most_one;
      [apply scoreItemEmotions_sum | apply scoreItemEmotions_nonneg].
  - apply shares_at_most_one; [apply aggregateEmotions_sum |].
    intros e. apply aggregateEmotions_nonneg, Hall.
Qed.

Lemma emotion_shares_in_unit_interval_witness :
  (0 <= getE (aggregateEmotions 0 [freshItem; stormShort]) anxiety <= 1)%R.
Proof.
  apply (emotion_shares_in_unit_interval 0 [freshItem; stormShort]).
  repeat constructor; cbn; lra.
Defined.

(** ** The tests of the further functions *)

(** The two outcomes of one turn of the loop of [getDominantEmotion]. *)
Lemma dominantStep_take (dist : EmotionDistribution) (m e : Emotion) (v : R) :
  (getE dist e > v)%R -> dominantStep dist (m, v) e = (e, getE dist e).
Proof. intros H. unfold dominantStep. cbn [snd]. rewrite decide_True by exact H. reflexivity. Qed.

Lemma dominantStep_keep (dist : EmotionDistribution) (m e : Emotion) (v : R) :
  (getE dist e <= v)%R -> dominantStep dist (m, v) e = (m, v).
Proof.
  intros H. unfold dominantStep. cbn [snd]. rewrite decide_False by lra. reflexivity.
Qed.

Example getDominantEmotion_tests :
  getDominantEmotion mostlyAnger = anger
  /\ getDominantEmotion createEmptyDistribution = neutral.
Proof.
  unfold getDominantEmotion. cbn [List.fold_left EMOTIONS]. split.
  - rewrite dominantStep_take by (unfold mostlyAnger, createEmptyDistribution;
          cbn [List.fold_left EMOTIONS]; dist_fields; lra).
    repeat rewrite dominantStep_keep
      by (unfold mostlyAnger, createEmptyDistribution;
          cbn [List.fold_left EMOTIONS]; dist_fields; lra).
    reflexivity.
  - repeat rewrite dominantStep_keep by (unfold createEmptyDistribution;
          cbn [List.fold_left EMOTIONS]; dist_fields; lra).
    reflexivity.
Qed.

Example truncate_samples :
  truncate "hello world" 8 = "hello..."
  /\ truncate "hello" 5 = "hello"
  /\ truncate "hello" 2 = "...".
Proof. repeat split. Qed.

Example scoreRelevance_tests :
  scoreRelevance (setRelevanceKeywords relevanceTestKeywords) regionItem = 0.65%R
  /\ scoreRelevance (setRelevanceKeywords relevanceTestKeywords) parisItem = 0.15%R.
Proof.
  rewrite !scoreRelevance_unfold. split.
  - match goal with
    | |- context [length ?l] => replace (length l) with 3%nat by (vm_compute; reflexivity)
    end.
    replace (String.eqb (item_source regionItem) "search") with false by reflexivity.
    cbn [INR]. rewrite Rmin_left by lra. lra.
  - match goal with
    | |- context [length ?l] => replace (length l) with 0%nat by (vm_compute; reflexivity)
    end.
    replace (String.eqb (item_source parisItem) "search") with false by reflexivity.
    cbn [INR]. rewrite Rmin_right by lra. lra.
Qed.
